(** * reTokenizer: a shallow embedding of the regex based tokenizer

    The development follows the three modules of the package:
    [tokens.py] (the token classes), [tokenprocessors.py] (the recognizers)
    and [tokenizer.py] (the position view, the result and the driving loop).

    Python integers are [Z]; Python [str] is [string] (one [ascii] per
    character); objects that are compared by identity carry the number
    they were given when they were created; exceptions are the [Raise]
    branch of [outcome]; the [while] loop of [Tokenizer.tokenize] takes
    fuel, and its termination is proved separately. *)

From Stdlib Require Import ZArith Ascii String List Lia Bool DecimalString.
From stdpp Require Import gmap strings list.

Local Open Scope Z_scope.

(** ** Python strings *)

Module Py.

Definition LF : ascii := "010"%char.
Definition TAB : ascii := "009"%char.
Definition CR : ascii := "013"%char.
Definition SPACE : ascii := " "%char.

(** [len(s)] *)
Definition len (s : string) : Z := Z.of_nat (String.length s).

(** [s[n:]] for [0 <= n] *)
Fixpoint drop (n : nat) (s : string) : string :=
  match n, s with
  | O, _ => s
  | S n', String _ s' => drop n' s'
  | S _, EmptyString => EmptyString
  end.

(** [s[:n]] for [0 <= n] *)
Fixpoint take (n : nat) (s : string) : string :=
  match n, s with
  | O, _ => EmptyString
  | S n', String c s' => String c (take n' s')
  | S _, EmptyString => EmptyString
  end.

(** A slice bound as Python normalises it: a negative bound counts from
    the end, and the result is cut to [0 .. len s]. *)
Definition bound (s : string) (i : Z) : Z :=
  let i' := if i <? 0 then i + len s else i in
  Z.max 0 (Z.min i' (len s)).

(** [s[i:j]] *)
Definition slice (s : string) (i j : Z) : string :=
  let a := bound s i in
  let b := bound s j in
  take (Z.to_nat (b - a)) (drop (Z.to_nat a) s).

(** How [Pattern.match(string, pos)] normalises [pos]: below 0 it is 0,
    above [len(string)] it is [len(string)]. *)
Definition clamp (s : string) (pos : Z) : Z :=
  Z.max 0 (Z.min pos (len s)).

(** Length of the longest prefix whose characters all satisfy [P]
    (a greedy [[...]*]). *)
Fixpoint run (P : ascii -> bool) (s : string) : nat :=
  match s with
  | String c s' => if P c then S (run P s') else O
  | EmptyString => O
  end.

(** [s.count(c)] for a one-character [c] *)
Fixpoint count (c : ascii) (s : string) : Z :=
  match s with
  | String d s' => (if Ascii.eqb d c then 1 else 0) + count c s'
  | EmptyString => 0
  end.

(** Index of the first [c] in [s], relative to the start of [s]. *)
Fixpoint index (c : ascii) (s : string) : option nat :=
  match s with
  | String d s' =>
      if Ascii.eqb d c then Some O
      else match index c s' with Some i => Some (S i) | None => None end
  | EmptyString => None
  end.

(** Index of the last [c] in [s]. *)
Fixpoint rindex (c : ascii) (s : string) : option nat :=
  match s with
  | String d s' =>
      match rindex c s' with
      | Some i => Some (S i)
      | None => if Ascii.eqb d c then Some O else None
      end
  | EmptyString => None
  end.

(** [s.count(c, 0, stop)] *)
Definition count_upto (c : ascii) (s : string) (stop : Z) : Z :=
  count c (slice s 0 stop).

(** [s.rfind(c, 0, stop)] *)
Definition rfind_upto (c : ascii) (s : string) (stop : Z) : Z :=
  match rindex c (slice s 0 stop) with
  | Some i => Z.of_nat i
  | None => -1
  end.

(** [s.find(c, start)] *)
Definition find_from (c : ascii) (s : string) (start : Z) : Z :=
  let a := bound s start in
  if len s <? start then -1
  else match index c (drop (Z.to_nat a) s) with
       | Some i => a + Z.of_nat i
       | None => -1
       end.

(** [s.replace(c, by)] for a one-character [c] *)
Fixpoint replace (c : ascii) (by_ : string) (s : string) : string :=
  match s with
  | String d s' =>
      if Ascii.eqb d c then by_ +:+ replace c by_ s'
      else String d (replace c by_ s')
  | EmptyString => EmptyString
  end.

(** [c * n]: a negative count gives the empty string. *)
Definition times (c : ascii) (n : Z) : string :=
  string_of_list_ascii (repeat c (Z.to_nat n)).

(** [str(n)] for an integer *)
Definition str (n : Z) : string := NilZero.string_of_int (Z.to_int n).

(** Does [s] start with [p]? *)
Fixpoint startswith (p s : string) : bool :=
  match p, s with
  | EmptyString, _ => true
  | String a p', String b s' => Ascii.eqb a b && startswith p' s'
  | String _ _, EmptyString => false
  end.

(** Is [c] one of the characters of [set]? *)
Fixpoint mem (c : ascii) (set : string) : bool :=
  match set with
  | String d set' => Ascii.eqb c d || mem c set'
  | EmptyString => false
  end.

(** [all(P(c) for c in s)] *)
Fixpoint all (P : ascii -> bool) (s : string) : bool :=
  match s with
  | String c s' => P c && all P s'
  | EmptyString => true
  end.

End Py.

(** ** Exceptions *)

(** Modelled from the spec: the exception class [TokenizerError] of the
    module [tokenizerexceptions], which the sources import but do not
    contain; the spec (section 7) has it carry a message. The other
    constructors are the built-in exceptions the modelled statements
    can raise. *)
Inductive exn :=
| TokenizerError (msg : string)
| ZeroDivisionError
| TypeError
| IndexError.

(** What a call gives: a value, or the exception it raised. *)
Inductive outcome (A : Type) :=
| Ok (a : A)
| Raise (e : exn).
Arguments Ok {A} a.
Arguments Raise {A} e.

(** ** tokens.py *)

(** A Python type used as a semantic tag, by name. *)
Definition pytype := string.

(** A callable that converts matched text: a type called on the text, or
    a named function of the caller. *)
Inductive callable :=
| TypeCall (tp : pytype)
| Function (name : string).

(** The object a converter returns, kept symbolic: two converted values
    are equal when the same callable was applied to the same text. *)
Inductive pyvalue :=
| Converted (constructor : callable) (text : string).

(** The token classes and their slots. *)
Inductive TokenClass :=
| EndOfLineToken
| EndOfFileToken
| ScopeStartToken
| ScopeEndToken
| CommentToken (text : string)
| ValueToken (type : pytype) (value : pyvalue)
| SequenceToken (sequence : string).

Global Instance callable_eq_dec : EqDecision callable.
Proof. solve_decision. Defined.

Global Instance pyvalue_eq_dec : EqDecision pyvalue.
Proof. solve_decision. Defined.

Global Instance TokenClass_eq_dec : EqDecision TokenClass.
Proof. solve_decision. Defined.

(** A token object. The classes define neither [__eq__] nor [__hash__],
    so a token is a dictionary key by identity: [tok_id] is the number of
    token objects created before this one. *)
Record Token := { tok_id : nat; tok_class : TokenClass }.

(** The classes of the module as objects, that is the instances of
    [TokenMetaClass]: [Base] is the class [Token], the others are named
    after their class without the suffix. *)
Module TokenMetaClass.

Inductive t :=
| Base | EndOfLine | EndOfFile | ScopeStart | ScopeEnd | Comment | Value | Sequence.

Global Instance t_eq_dec : EqDecision t.
Proof. solve_decision. Defined.

(** The base named in the [class] statement; [Token] has none but
    [object]. *)
Definition base (c : t) : option t :=
  match c with
  | Base => None
  | EndOfFile => Some EndOfLine
  | _ => Some Base
  end.

(** The class and its bases, the class first. *)
Definition mro (c : t) : list t :=
  c :: match base c with
       | Some b => b :: match base b with Some b' => [b'] | None => [] end
       | None => []
       end.

(** [type(item)] *)
Definition type (item : Token) : t :=
  match tok_class item with
  | EndOfLineToken => EndOfLine
  | EndOfFileToken => EndOfFile
  | ScopeStartToken => ScopeStart
  | ScopeEndToken => ScopeEnd
  | CommentToken _ => Comment
  | ValueToken _ _ => Value
  | SequenceToken _ => Sequence
  end.

(** [isinstance(item, c)] *)
Definition isinstance (item : Token) (c : t) : bool :=
  bool_decide (c ∈ mro (type item)).

(** [__contains__(self, item)], that is [item in self]:
    [self is type(item)]. *)
Definition contains (self : t) (item : Token) : bool :=
  bool_decide (self = type item).

End TokenMetaClass.

(** What a processor hands to the driving loop: the [(token, consumed)]
    pairs of one call, in order; [None] is Python's [None]. *)
Definition emission := list (option Token * Z).

(** ** tokenprocessors.py *)

(** What the processors read of an [re.Match] object: [match.end()],
    [match.lastindex] and [match[i]]. *)
Record Match := {
  m_end : Z;
  lastindex : option Z;
  group : Z -> option string
}.

(** A compiled pattern seen through its [match(content, pos)] method. *)
Definition matcher := string -> Z -> option Match.

(** The part of [Pattern.match] every processor relies on: [pos] is cut
    to the text first, and a match ends between the cut position and the
    end of the text. *)
Definition match_contract (rm : matcher) : Prop :=
  forall content pos,
    rm content pos = rm content (Py.clamp content pos) /\
    forall m, rm content pos = Some m ->
      Py.clamp content pos <= m_end m <= Py.len content.

(** A pattern that matches no empty string. *)
Definition nonempty_match (rm : matcher) : Prop :=
  forall content pos m, rm content pos = Some m -> Py.clamp content pos < m_end m.

(** [match[j]] for a match with one group, number [i]. *)
Definition groups (whole : string) (i : Z) (captured : string) (j : Z) : option string :=
  if j =? 0 then Some whole else if j =? i then Some captured else None.

(** *** IndentScopeProcessor *)

Module IndentScopeProcessor.

Definition is_tab (c : ascii) : bool := Ascii.eqb c Py.TAB.
Definition is_space (c : ascii) : bool := Ascii.eqb c Py.SPACE.

(** [reScope = re.compile(r"\n(\t+)|\n( +)|\n([^\t ])")], matched at [pos]:
    a line feed, then a run of tabs (group 1), or a run of spaces
    (group 2), or one character that is neither (group 3). *)
Definition reScope (content : string) (pos : Z) : option Match :=
  let p := Py.clamp content pos in
  match Py.drop (Z.to_nat p) content with
  | String c0 (String c1 _ as tail) =>
      if negb (Ascii.eqb c0 Py.LF) then None
      else if is_tab c1 then
        let n := Py.run is_tab tail in
        Some {| m_end := p + 1 + Z.of_nat n; lastindex := Some 1;
                group := groups (String c0 (Py.take n tail)) 1 (Py.take n tail) |}
      else if is_space c1 then
        let n := Py.run is_space tail in
        Some {| m_end := p + 1 + Z.of_nat n; lastindex := Some 2;
                group := groups (String c0 (Py.take n tail)) 2 (Py.take n tail) |}
      else
        Some {| m_end := p + 2; lastindex := Some 3;
                group := groups (String c0 (String c1 EmptyString)) 3
                                (String c1 EmptyString) |}
  | _ => None
  end.

(** The instance attributes. *)
Record t := {
  allowMixed : bool;
  level : Z;
  mode : option Z;
  divider : Z
}.

(** [__init__] *)
Definition init (allowMixed : bool) : t :=
  {| allowMixed := allowMixed; level := 0; mode := None; divider := 0 |}.

Definition set_mode (self : t) (m : option Z) (d : Z) : t :=
  {| allowMixed := allowMixed self; level := level self; mode := m; divider := d |}.

Definition set_level (self : t) (l : Z) : t :=
  {| allowMixed := allowMixed self; level := l; mode := mode self;
     divider := divider self |}.

(** Lines 97-107 of [process]: the new level and the unit lock. *)
Definition lock (self : t) (offset : Z) (res : Match) : outcome (Z * t) :=
  let newLevel := m_end res - offset in
  if bool_decide (lastindex res = Some 3) then Ok (0, self)
  else match mode self with
       | None => Ok (newLevel, set_mode self (lastindex res) newLevel)
       | Some _ =>
           if bool_decide (mode self <> lastindex res)
           then Raise (TokenizerError "mixed indent")
           else Ok (newLevel, self)
       end.

(** Lines 109-129 of [process]: the pairs the generator yields. The
    token object is created once, before the [for], and the same object
    is yielded [difference // divider] times, each time with [newLevel]
    as its second component. *)
Definition yields (self : t) (newLevel : Z) (nid : nat)
  : outcome (emission * t * nat) :=
  if bool_decide (newLevel <> level self) then
    let difference := Z.abs (level self - newLevel) in
    if divider self =? 0 then Raise ZeroDivisionError
    else if bool_decide (difference mod divider self <> 0) then
      Raise (TokenizerError
               ("invalid indent multiply, should be " +:+ Py.str (divider self)))
    else
      let token :=
        {| tok_id := nid;
           tok_class := if level self <? newLevel then ScopeStartToken
                        else ScopeEndToken |} in
      Ok (repeat (Some token, newLevel) (Z.to_nat (difference / divider self)),
          set_level self newLevel, S nid)
  else if bool_decide (newLevel <> 0) then
    Ok ([(None, newLevel)],
        (if allowMixed self then set_mode self None (divider self) else self),
        nid)
  else Ok ([], self, nid).

(** [process(content, offset)], a generator: the driving loop runs it to
    its end before it calls any other processor, the body reads nothing
    the loop writes, and both [raise] statements come before the first
    [yield], so the pairs are given as one list together with the
    attributes after the last statement. [nid] counts the token objects
    created so far. *)
Definition process (self : t) (content : string) (offset : Z) (nid : nat)
  : outcome (emission * t * nat) :=
  match reScope content (offset - 1) with
  | None => Ok ([], self, nid)
  | Some res =>
      match lock self offset res with
      | Raise e => Raise e
      | Ok (newLevel, self') => yields self' newLevel nid
      end
  end.

(** [finalizer()]: one fresh [ScopeEndToken] per unit of [level]. *)
Definition finalizer (self : t) (nid : nat) : list Token * nat :=
  if 0 <? level self then
    (map (fun i => {| tok_id := (nid + i)%nat; tok_class := ScopeEndToken |})
         (seq 0 (Z.to_nat (level self))),
     (nid + Z.to_nat (level self))%nat)
  else ([], nid).

(** Once a unit is locked, or a scope is open, the indent width is
    positive. *)
Definition invariant (self : t) : Prop :=
  (is_Some (mode self) \/ level self <> 0) -> 0 < divider self.

End IndentScopeProcessor.

(** *** The processors that hold one compiled pattern *)

(** [NewLineProcessor], [ClassicScopeProcessor], [CommentProcessor],
    [ConsumingProcessor], [ValueProcessor] and [SequenceProcessor] have the
    same [process]: match the pattern at [offset]; on a match build the
    token from the match object and return it with
    [match.end() - offset]. *)
Module PatternProcessor.

Record t := {
  regex : matcher;
  token_of : Match -> outcome (option TokenClass)
}.

Definition process (self : t) (content : string) (offset : Z)
  : outcome (option (option TokenClass * Z)) :=
  match regex self content offset with
  | None => Ok None
  | Some m =>
      match token_of self m with
      | Raise e => Raise e
      | Ok token => Ok (Some (token, m_end m - offset))
      end
  end.

End PatternProcessor.

(** [re.compile(r"\r?\n")] *)
Definition reNewLine (content : string) (pos : Z) : option Match :=
  let p := Py.clamp content pos in
  match Py.drop (Z.to_nat p) content with
  | String c0 (String c1 _) =>
      if Ascii.eqb c0 Py.CR && Ascii.eqb c1 Py.LF then
        Some {| m_end := p + 2; lastindex := None;
                group := groups (String c0 (String c1 EmptyString)) 0 EmptyString |}
      else if Ascii.eqb c0 Py.LF then
        Some {| m_end := p + 1; lastindex := None;
                group := groups (String c0 EmptyString) 0 EmptyString |}
      else None
  | String c0 EmptyString =>
      if Ascii.eqb c0 Py.LF then
        Some {| m_end := p + 1; lastindex := None;
                group := groups (String c0 EmptyString) 0 EmptyString |}
      else None
  | EmptyString => None
  end.

Definition NewLineProcessor : PatternProcessor.t :=
  {| PatternProcessor.regex := reNewLine;
     PatternProcessor.token_of := fun _ => Ok (Some EndOfLineToken) |}.

(** [re.compile(rf"({re.escape(startCharacter)})|({re.escape(endCharacter)})")]:
    both arguments are matched literally, the start one first. *)
Definition reClassicScope (startCharacter endCharacter : string)
  (content : string) (pos : Z) : option Match :=
  let p := Py.clamp content pos in
  let rest := Py.drop (Z.to_nat p) content in
  if Py.startswith startCharacter rest then
    Some {| m_end := p + Py.len startCharacter; lastindex := Some 1;
            group := groups startCharacter 1 startCharacter |}
  else if Py.startswith endCharacter rest then
    Some {| m_end := p + Py.len endCharacter; lastindex := Some 2;
            group := groups endCharacter 2 endCharacter |}
  else None.

Definition ClassicScopeProcessor (startCharacter endCharacter : string)
  : PatternProcessor.t :=
  {| PatternProcessor.regex := reClassicScope startCharacter endCharacter;
     PatternProcessor.token_of := fun m =>
       Ok (Some (if bool_decide (lastindex m = Some 1) then ScopeStartToken
                 else ScopeEndToken)) |}.

(** [re.compile(pattern).match] for a pattern text that is handed to
    the [re] module as it is. *)
Definition engine := string -> matcher.

Definition not_LF (c : ascii) : bool := negb (Ascii.eqb c Py.LF).

(** A text in which no character is pattern syntax: as a pattern it
    matches itself. *)
Definition plain_text (s : string) : bool :=
  Py.all (fun c => negb (Py.mem c ".^$*+?{}[]\|()")) s.

(** [re.compile(rf"{commentCharacter}(.+)")]. The marker goes into the
    pattern unescaped. A marker that is plain text is matched as
    itself, followed by one or more characters other than a line feed,
    which are group 1. A marker with pattern syntax in it makes a
    pattern of its own, which is left to the [re] module. *)
Definition reComment (re_compile : engine) (commentCharacter : string) : matcher :=
  if plain_text commentCharacter then
    fun content pos =>
      let p := Py.clamp content pos in
      let rest := Py.drop (Z.to_nat p) content in
      if Py.startswith commentCharacter rest then
        let body := Py.drop (String.length commentCharacter) rest in
        let n := Py.run not_LF body in
        if (0 <? n)%nat then
          Some {| m_end := p + Py.len commentCharacter + Z.of_nat n;
                  lastindex := Some 1;
                  group := groups (commentCharacter +:+ Py.take n body) 1
                                  (Py.take n body) |}
        else None
      else None
  else re_compile (commentCharacter +:+ "(.+)").

Definition CommentProcessor (re_compile : engine) (commentCharacter : string)
  : PatternProcessor.t :=
  {| PatternProcessor.regex := reComment re_compile commentCharacter;
     PatternProcessor.token_of := fun m =>
       Ok (Some (CommentToken (default EmptyString (group m 1)))) |}.

(** A text that, put between the brackets of a character class, stands
    for the set of its characters: it is not empty and holds none of
    the characters that have a meaning of their own there (the
    backslash, the brackets, the caret of a negation and the hyphen of
    a range). *)
Definition plain_set (s : string) : bool :=
  negb (String.eqb s EmptyString)
  && Py.all (fun c => negb (Py.mem c "\][^-")) s.

(** [re.compile(rf"[{toConsume}]+")]. The characters go into the class
    unescaped. For a plain set the pattern is one or more characters of
    the set; any other text ([a-d], [^ab], an escape) makes a class of
    its own, which is left to the [re] module. *)
Definition reConsuming (re_compile : engine) (toConsume : string) : matcher :=
  if plain_set toConsume then
    fun content pos =>
      let p := Py.clamp content pos in
      let rest := Py.drop (Z.to_nat p) content in
      let n := Py.run (fun c => Py.mem c toConsume) rest in
      if (0 <? n)%nat then
        Some {| m_end := p + Z.of_nat n; lastindex := None;
                group := groups (Py.take n rest) 0 EmptyString |}
      else None
  else re_compile ("[" +:+ toConsume +:+ "]+").

Definition ConsumingProcessor (re_compile : engine) (toConsume : string)
  : PatternProcessor.t :=
  {| PatternProcessor.regex := reConsuming re_compile toConsume;
     PatternProcessor.token_of := fun _ => Ok None |}.

(** [SequenceProcessor.process] over a compiled alternation. *)
Definition SequenceProcessor (regex : matcher) : PatternProcessor.t :=
  {| PatternProcessor.regex := regex;
     PatternProcessor.token_of := fun m =>
       Ok (Some (SequenceToken (default EmptyString (group m 0)))) |}.

(** *** ValueProcessor *)

(** Value processors are built and merged before a text is tokenized.
    A merge works on a shallow copy, so the processor objects, the lists
    of semantic types and the dictionaries of converters live in a store
    and are reached by reference. *)
Module ValueProcessor.

(** A compiled pattern, by its attributes [pattern] and [flags]. The
    flags the [re] module adds on its own (for a [str] pattern, or from
    the pattern text) are left out: [re.compile] is taken to keep the
    flags it is given. *)
Record Regex := { pattern : string; flags : Z }.

Definition compile (pattern : string) (flags : Z) : Regex :=
  {| pattern := pattern; flags := flags |}.

(** The instance attributes: [__regex], and references to the list
    [__types] and to the dictionary [__constructors]. *)
Record t := { regex : Regex; types : nat; constructors : nat }.

Record store := {
  objects : gmap nat t;
  lists : gmap nat (list pytype);
  dicts : gmap nat (gmap pytype callable)
}.

(** [l[i]] with Python's negative indices. *)
Definition getitem {A} (l : list A) (i : Z) : option A :=
  let n := Z.of_nat (length l) in
  if i <? 0 then (if 0 <=? i + n then l !! Z.to_nat (i + n) else None)
  else l !! Z.to_nat i.

(** ["(" not in expression] *)
Fixpoint has_paren (expression : string) : bool :=
  match expression with
  | String c rest => Ascii.eqb c "("%char || has_paren rest
  | EmptyString => false
  end.

(** Lines 195-201: every expression without a parenthesis is put in a
    group. *)
Definition regexBuild (valueExpressions : list (string * pytype)) : list string :=
  map (fun x => if has_paren x.1 then x.1 else "(" +:+ x.1 +:+ ")") valueExpressions.

(** ['|'.join(parts)] *)
Fixpoint join (parts : list string) : string :=
  match parts with
  | [] => EmptyString
  | [p] => p
  | p :: rest => p +:+ "|" +:+ join rest
  end.

(** [__init__] with its [valueExpressions]; [constructors] is the
    reference of the caller's dictionary, or [None]. The new object, its
    list and, without a dictionary of the caller, its dictionary get
    unused references. *)
Definition init (valueExpressions : list (string * pytype)) (constructors : option nat)
  (h : store) : nat * store :=
  let types_ref := fresh (dom (lists h)) in
  let '(constructors_ref, dicts') :=
    match constructors with
    | None => let r := fresh (dom (dicts h)) in (r, <[r := ∅]> (dicts h))
    | Some r => (r, dicts h)
    end in
  let self := fresh (dom (objects h)) in
  (self,
   {| objects := <[self := {| regex := compile (join (regexBuild valueExpressions)) 0;
                              types := types_ref;
                              constructors := constructors_ref |}]> (objects h);
      lists := <[types_ref := map snd valueExpressions]> (lists h);
      dicts := dicts' |}).

(** [self | other]. [copy(self)] is a new object with the attributes of
    [self]; its pattern is replaced; [extend] and [update] then act on
    the list and the dictionary it shares with [self]. The result is
    [None] when a reference leads nowhere, which no Python program can
    bring about. *)
Definition or_ (self other : nat) (h : store) : option (nat * store) :=
  s ← objects h !! self;
  o ← objects h !! other;
  let newObj := fresh (dom (objects h)) in
  let newRegex := pattern (regex s) +:+ "|" +:+ pattern (regex o) in
  let objects' :=
    <[newObj := {| regex := compile newRegex (flags (regex s));
                   types := types s; constructors := constructors s |}]> (objects h) in
  ts ← lists h !! types s;
  to ← lists h !! types o;
  let lists' := <[types s := ts ++ to]> (lists h) in
  cs ← dicts h !! constructors s;
  co ← dicts h !! constructors o;
  let dicts' := <[constructors s := co ∪ cs]> (dicts h) in
  Some (newObj, {| objects := objects'; lists := lists'; dicts := dicts' |}).

Section Process.

(** The [re] module: [regex.match(content, pos)] for a compiled
    pattern. *)
Variable re_match : Regex -> string -> Z -> option Match.

(** Lines 209-215, from the match object on. [None - 1] is a
    [TypeError], an index outside the list an [IndexError]; the
    converter is applied to [match[index]], and a group that took no
    part in the match is taken to make it fail. *)
Definition token_of (h : store) (self : t) (m : Match) : outcome (option TokenClass) :=
  match lastindex m with
  | None => Raise TypeError
  | Some index =>
      match lists h !! types self with
      | None => Raise TypeError
      | Some l =>
          match getitem l (index - 1) with
          | None => Raise IndexError
          | Some tp =>
              let constructor :=
                match dicts h !! constructors self with
                | Some d => default (TypeCall tp) (d !! tp)
                | None => TypeCall tp
                end in
              match group m index with
              | None => Raise TypeError
              | Some text => Ok (Some (ValueToken tp (Converted constructor text)))
              end
          end
      end
  end.

(** The processor as the tokenizer sees it, in a store that no longer
    changes. *)
Definition processor (h : store) (self : t) : PatternProcessor.t :=
  {| PatternProcessor.regex := re_match (regex self);
     PatternProcessor.token_of := token_of h self |}.

(** [process(content, offset)] of the object at reference [self]. *)
Definition process (h : store) (self : nat) (content : string) (offset : Z)
  : option (outcome (option (option TokenClass * Z))) :=
  s ← objects h !! self;
  Some (PatternProcessor.process (processor h s) content offset).

End Process.

(** Every reference held by an object leads to a list or a
    dictionary. *)
Definition closed (h : store) : Prop :=
  forall l o, objects h !! l = Some o ->
    is_Some (lists h !! types o) /\ is_Some (dicts h !! constructors o).

(** The object a merge returns. *)
Definition merged (s o : t) : t :=
  {| regex := compile (pattern (regex s) +:+ "|" +:+ pattern (regex o)) (flags (regex s));
     types := types s; constructors := constructors s |}.

(** Every object of [h] is in [h'] with the same attributes. *)
Definition keeps_objects (h h' : store) : Prop :=
  forall l x, objects h !! l = Some x -> objects h' !! l = Some x.

End ValueProcessor.

(** *** The processor interface *)

Inductive TokenProcessor :=
| PatternBacked (p : PatternProcessor.t)
| IndentScope (p : IndentScopeProcessor.t).

(** What [process] returns: [None], one [(token, consumed)] tuple, or a
    generator of such tuples. *)
Inductive process_result :=
| NoResult
| Tuple (token : option Token) (consumed : Z)
| Generator (pairs : emission).

Definition process (tp : TokenProcessor) (content : string) (offset : Z) (nid : nat)
  : outcome (process_result * TokenProcessor * nat) :=
  match tp with
  | PatternBacked p =>
      match PatternProcessor.process p content offset with
      | Raise e => Raise e
      | Ok None => Ok (NoResult, tp, nid)
      | Ok (Some (None, consumed)) => Ok (Tuple None consumed, tp, nid)
      | Ok (Some (Some cls, consumed)) =>
          Ok (Tuple (Some {| tok_id := nid; tok_class := cls |}) consumed, tp, S nid)
      end
  | IndentScope p =>
      match IndentScopeProcessor.process p content offset nid with
      | Raise e => Raise e
      | Ok (pairs, p', nid') => Ok (Generator pairs, IndentScope p', nid')
      end
  end.

(** [finalizer()]: the base class returns [None]. *)
Definition finalizer (tp : TokenProcessor) (nid : nat) : list Token * nat :=
  match tp with
  | PatternBacked _ => ([], nid)
  | IndentScope p => IndentScopeProcessor.finalizer p nid
  end.

(** ** tokenizer.py *)

(** *** TokenMappingView *)

(** The three cached properties are functions of [(source, offset)]: the
    cache slots only save a second scan, so they are left out. *)
Module TokenMappingView.

Record t := { source : string; offset : Z }.

Definition lineNumber (self : t) : Z :=
  Py.count_upto Py.LF (source self) (offset self) + 1.

Definition left (self : t) : Z :=
  Py.rfind_upto Py.LF (source self) (offset self) + 1.

(** [self.__source[left : right]]; [right] is -1 when no line feed
    follows [offset]. *)
Definition line (self : t) : string :=
  let right := Py.find_from Py.LF (source self) (offset self) in
  Py.slice (source self) (left self) right.

(** Set by [line] as [offset - left], or computed by [lineOffset] as
    [offset - rfind - 1]: the same number. *)
Definition lineOffset (self : t) : Z :=
  offset self - Py.rfind_upto Py.LF (source self) (offset self) - 1.

Definition lineMarker (self : t) : string :=
  Py.str (lineNumber self) +:+ ":" +:+ Py.str (lineOffset self) +:+ ": ".

Definition pointerOffset (self : t) : Z :=
  let tabNumber := Py.count Py.TAB (line self) in
  lineOffset self + Py.len (lineMarker self) + tabNumber * 4 - 1.

Definition makePointer (self : t) : string :=
  let line := Py.replace Py.TAB "    " (line self) in
  lineMarker self +:+ line +:+ String Py.LF EmptyString
    +:+ Py.times Py.SPACE (pointerOffset self) +:+ "^".

End TokenMappingView.

(** *** TokenizerResult *)

Module TokenizerResult.

(** [__tokenMap] is a dictionary keyed by token objects, that is by
    their identity. *)
Record t := {
  source : option string;
  tokenMap : gmap nat Z;
  tokens : list Token
}.

Definition init (source : string) : t :=
  {| source := Some source; tokenMap := ∅; tokens := [] |}.

Definition addToken (self : t) (token : Token) (offset : Z) : t :=
  {| source := source self;
     tokenMap := <[tok_id token := offset]> (tokenMap self);
     tokens := tokens self ++ [token] |}.

Definition getTokenMapping (self : t) (token : Token)
  : outcome (option TokenMappingView.t) :=
  match source self with
  | None => Raise (TokenizerError "Tried to get a Token mapping without text source!")
  | Some src =>
      Ok (match tokenMap self !! tok_id token with
          | Some offset =>
              Some {| TokenMappingView.source := src; TokenMappingView.offset := offset |}
          | None => None
          end)
  end.

End TokenizerResult.

(** *** Tokenizer *)

Module Tokenizer.

Import TokenizerResult.

(** Lines 174-176: a lone tuple becomes a one-element sequence; [None]
    skips the [for], like a generator that yields nothing. *)
Definition pairs_of (res : process_result) : emission :=
  match res with
  | NoResult => []
  | Tuple token consumed => [(token, consumed)]
  | Generator pairs => pairs
  end.

(** Lines 178-184: [for token, consumed in res]. *)
Fixpoint apply_pairs (res : emission) (pos : Z) (result : TokenizerResult.t)
  : Z * TokenizerResult.t :=
  match res with
  | [] => (pos, result)
  | (token, consumed) :: rest =>
      let result' := match token with
                     | Some tok => addToken result tok pos
                     | None => result
                     end in
      apply_pairs rest (pos + consumed) result'
  end.

(** Lines 171-187, up to the [break]: the processors are asked in order
    at [pos]; the first one that hands over at least one pair ends the
    scan. The processors come back with the attributes they have after
    their call. *)
Fixpoint scan (tokenProcessors : list TokenProcessor) (source : string) (pos : Z)
  (nid : nat) : outcome (list TokenProcessor * nat * option emission) :=
  match tokenProcessors with
  | [] => Ok ([], nid, None)
  | tokenProcessor :: rest =>
      match process tokenProcessor source pos nid with
      | Raise e => Raise e
      | Ok (res, tokenProcessor', nid') =>
          match pairs_of res with
          | [] =>
              match scan rest source pos nid' with
              | Raise e => Raise e
              | Ok (rest', nid'', found) => Ok (tokenProcessor' :: rest', nid'', found)
              end
          | pairs => Ok (tokenProcessor' :: rest, nid', Some pairs)
          end
      end
  end.

(** The variables of [tokenize] while the loop runs. [rounds] is not in
    the source: it keeps, for every round that matched, the value of
    [pos] when the round began and the pairs that were applied. *)
Record state := {
  tokenProcessors : list TokenProcessor;
  pos : Z;
  result : TokenizerResult.t;
  created : nat;
  rounds : list (Z * emission)
}.

Definition start (tokenProcessors : list TokenProcessor) (source : string) : state :=
  {| tokenProcessors := tokenProcessors; pos := 0;
     result := TokenizerResult.init source; created := O; rounds := [] |}.

(** One turn of [while processed]; the flag is [processed] at the end
    of the turn. *)
Definition round (source : string) (st : state) : outcome (bool * state) :=
  match scan (tokenProcessors st) source (pos st) (created st) with
  | Raise e => Raise e
  | Ok (tps, nid, None) =>
      Ok (false, {| tokenProcessors := tps; pos := pos st; result := result st;
                    created := nid; rounds := rounds st |})
  | Ok (tps, nid, Some pairs) =>
      let '(pos', result') := apply_pairs pairs (pos st) (result st) in
      Ok (true, {| tokenProcessors := tps; pos := pos'; result := result';
                   created := nid; rounds := rounds st ++ [(pos st, pairs)] |})
  end.

(** Lines 168-187. The result is [None] when the fuel runs out first. *)
Fixpoint loop (fuel : nat) (source : string) (st : state) : option (outcome state) :=
  match fuel with
  | O => None
  | S fuel' =>
      match round source st with
      | Raise e => Some (Raise e)
      | Ok (false, st') => Some (Ok st')
      | Ok (true, st') => loop fuel' source st'
      end
  end.

(** Lines 193-201: every finalizer in order, its tokens added at
    [sourceLength]. *)
Fixpoint finalize (tokenProcessors : list TokenProcessor) (sourceLength : Z)
  (result : TokenizerResult.t) (nid : nat) : TokenizerResult.t * nat :=
  match tokenProcessors with
  | [] => (result, nid)
  | tokenProcessor :: rest =>
      let '(toks, nid') := finalizer tokenProcessor nid in
      finalize rest sourceLength
        (fold_left (fun r tok => addToken r tok sourceLength) toks result) nid'
  end.

(** Lines 189-205. *)
Definition finish (source : string) (st : state) : outcome state :=
  let sourceLength := Py.len source in
  if bool_decide (pos st <> sourceLength) then
    let mappingView :=
      {| TokenMappingView.source := source; TokenMappingView.offset := pos st |} in
    Raise (TokenizerError ("Unable to tokenize:" +:+ String Py.LF EmptyString
                             +:+ TokenMappingView.makePointer mappingView))
  else
    let '(result', nid) :=
      finalize (tokenProcessors st) sourceLength (result st) (created st) in
    Ok {| tokenProcessors := tokenProcessors st; pos := pos st;
          result := addToken result' {| tok_id := nid; tok_class := EndOfFileToken |}
                      sourceLength;
          created := S nid; rounds := rounds st |}.

(** [tokenize(source)] together with the final values of its variables. *)
Definition run (fuel : nat) (tokenProcessors : list TokenProcessor) (source : string)
  : option (outcome state) :=
  match loop fuel source (start tokenProcessors source) with
  | None => None
  | Some (Raise e) => Some (Raise e)
  | Some (Ok st) => Some (finish source st)
  end.

(** [tokenize(source)] for a [str] source. *)
Definition tokenize (fuel : nat) (tokenProcessors : list TokenProcessor)
  (source : string) : option (outcome TokenizerResult.t) :=
  match run fuel tokenProcessors source with
  | None => None
  | Some (Raise e) => Some (Raise e)
  | Some (Ok st) => Some (Ok (result st))
  end.

End Tokenizer.

(** * Vocabulary of the properties *)

(** ** Processors and progress *)

(** What the proofs ask of a processor handed to the tokenizer: a
    pattern obeys [Pattern.match], an indent processor is in a state its
    own code can reach. *)
Definition well_formed (tp : TokenProcessor) : Prop :=
  match tp with
  | PatternBacked p => match_contract (PatternProcessor.regex p)
  | IndentScope p => IndentScopeProcessor.invariant p
  end.

(** The pattern of the processor matches no empty string. *)
Definition productive (tp : TokenProcessor) : Prop :=
  match tp with
  | PatternBacked p => nonempty_match (PatternProcessor.regex p)
  | IndentScope _ => True
  end.

(** 1 for an indent processor with an open scope, else 0. *)
Definition open_scope (tp : TokenProcessor) : nat :=
  match tp with
  | PatternBacked _ => 0
  | IndentScope p => if bool_decide (IndentScopeProcessor.level p = 0) then 0 else 1
  end.

Definition open_scopes (tps : list TokenProcessor) : nat :=
  sum_list (map open_scope tps).

(** The number of rounds the loop can still make is bounded by this. *)
Definition potential (source : string) (st : Tokenizer.state) : nat :=
  (Z.to_nat (Py.len source - Tokenizer.pos st)
   * S (length (Tokenizer.tokenProcessors st))
   + open_scopes (Tokenizer.tokenProcessors st))%nat.

(** What the termination argument keeps from round to round. *)
Definition steady (st : Tokenizer.state) : Prop :=
  0 <= Tokenizer.pos st /\
  Forall well_formed (Tokenizer.tokenProcessors st) /\
  Forall productive (Tokenizer.tokenProcessors st).

(** A processor with nothing to say at [pos]: however many tokens were
    made before, its [process] hands over no pair. *)
Definition declines (tp : TokenProcessor) (source : string) (pos : Z) : Prop :=
  forall nid, exists res tp' nid',
    process tp source pos nid = Ok (res, tp', nid') /\ Tokenizer.pairs_of res = [].

(** ** Consumed spans *)

(** The span [(start, length)] of every pair of one round, in order:
    each pair starts where the one before it ended. *)
Fixpoint spans_of (pos : Z) (res : emission) : list (Z * Z) :=
  match res with
  | [] => []
  | (_, consumed) :: rest => (pos, consumed) :: spans_of (pos + consumed) rest
  end.

(** The spans of all the rounds of a run. *)
Definition consumed_spans (rounds : list (Z * emission)) : list (Z * Z) :=
  flat_map (fun r => spans_of r.1 r.2) rounds.

(** [tiles a spans b]: laid end to end from [a], the spans reach [b];
    each one starts where the one before ended and none has a negative
    length, so every offset from [a] up to [b] is in one span and no
    offset is in two. *)
Inductive tiles : Z -> list (Z * Z) -> Z -> Prop :=
| tiles_nil a : tiles a [] a
| tiles_cons a n rest b :
    0 <= n -> tiles (a + n) rest b -> tiles a ((a, n) :: rest) b.

(** The sum of the lengths of a list of spans. *)
Definition total_length (spans : list (Z * Z)) : Z :=
  foldr (fun s acc => s.2 + acc) 0 spans.

(** What holds of the loop variables between two rounds. *)
Definition covered (st : Tokenizer.state) : Prop :=
  tiles 0 (consumed_spans (Tokenizer.rounds st)) (Tokenizer.pos st).

(** ** Recorded offsets *)

(** The offset [apply_pairs] leaves in the position mapping for the
    token object [id]: that of the last pair of the round that carries
    it, when there is one. *)
Fixpoint recorded (res : emission) (pos : Z) (id : nat) : option Z :=
  match res with
  | [] => None
  | (token, consumed) :: rest =>
      match recorded rest (pos + consumed) id with
      | Some o => Some o
      | None =>
          match token with
          | Some tok => if bool_decide (tok_id tok = id) then Some pos else None
          | None => None
          end
      end
  end.

(** The consumed lengths of the pairs before the [i]-th, added up. *)
Definition consumed_before (i : nat) (res : emission) : Z :=
  foldr (fun pc acc => pc.2 + acc) 0 (take i res).

(** The position mapping agrees with a round: every token object of the
    round has the offset [recorded] computes for it. *)
Definition round_recorded (m : gmap nat Z) (r : Z * emission) : Prop :=
  forall id o, recorded r.2 r.1 id = Some o -> m !! id = Some o.

(** The mapping agrees with every round so far, and every key in it is
    an object that already exists. *)
Definition book_keeping (st : Tokenizer.state) : Prop :=
  Forall (round_recorded (TokenizerResult.tokenMap (Tokenizer.result st)))
         (Tokenizer.rounds st) /\
  forall id, is_Some (TokenizerResult.tokenMap (Tokenizer.result st) !! id) ->
             (id < Tokenizer.created st)%nat.

(** How many tokens of a list are of a given class. *)
Definition count_class (cls : TokenClass) (toks : list Token) : nat :=
  length (filter (fun tok => tok_class tok = cls) toks).

(** The position mapping and the token list of a result go together:
    the keys of the mapping are the token objects of the list, and
    every recorded offset lies between 0 and [hi]. *)
Definition mapped_within (r : TokenizerResult.t) (hi : Z) : Prop :=
  (forall id, is_Some (TokenizerResult.tokenMap r !! id) <->
              exists tok, tok ∈ TokenizerResult.tokens r /\ tok_id tok = id) /\
  (forall id o, TokenizerResult.tokenMap r !! id = Some o -> 0 <= o <= hi).

(** The token objects a list of pairs carries, one entry per pair that
    has a token. *)
Definition emitted (res : emission) : list Token :=
  omap fst res.

(** The width of the indentation a line starts with: the length of its
    leading run of tabs, or of spaces. *)
Definition indent_width (rest : string) : nat :=
  Nat.max (Py.run IndentScopeProcessor.is_tab rest)
          (Py.run IndentScopeProcessor.is_space rest).

(** ** Failures and the rendered pointer *)

(** The states the loop of [tokenize] goes through: the state it
    starts from, and the state after every round that matched. *)
Inductive visits (source : string) : Tokenizer.state -> Tokenizer.state -> Prop :=
| visits_here st : visits source st st
| visits_round st st1 st2 :
    Tokenizer.round source st = Ok (true, st1) -> visits source st1 st2 ->
    visits source st st2.

(** The two errors of an indent processor [p] called at [offset] with
    the match [res]: a unit is locked and the run is of the other kind;
    or the distance from the depth to the new level is no multiple of
    the indent width the call works with, which is the width [p] has
    after the lock step of this call, and the message names it. *)
Definition indent_failure (p : IndentScopeProcessor.t) (offset : Z) (res : Match)
  (e : exn) : Prop :=
  (is_Some (IndentScopeProcessor.mode p) /\ lastindex res <> Some 3 /\
   IndentScopeProcessor.mode p <> lastindex res /\
   e = TokenizerError "mixed indent") \/
  (exists newLevel p1,
     IndentScopeProcessor.lock p offset res = Ok (newLevel, p1) /\
     0 < IndentScopeProcessor.divider p1 /\
     Z.abs (IndentScopeProcessor.level p - newLevel)
       mod IndentScopeProcessor.divider p1 <> 0 /\
     e = TokenizerError ("invalid indent multiply, should be "
                           +:+ Py.str (IndentScopeProcessor.divider p1))).

(** The error of the loop at offset [pos]. *)
Definition unable_to_tokenize (source : string) (pos : Z) : exn :=
  TokenizerError
    ("Unable to tokenize:" +:+ String Py.LF EmptyString
       +:+ TokenMappingView.makePointer
             {| TokenMappingView.source := source; TokenMappingView.offset := pos |}).

(** The message of [e] ends with a pointer rendered for [source]. *)
Definition carries_pointer (source : string) (e : exn) : Prop :=
  exists head pos,
    e = TokenizerError
          (head +:+ TokenMappingView.makePointer
                      {| TokenMappingView.source := source;
                         TokenMappingView.offset := pos |}).

Fixpoint last_char (s : string) : option ascii :=
  match s with
  | EmptyString => None
  | String c EmptyString => Some c
  | String _ s' => last_char s'
  end.

Definition is_digit (c : ascii) : bool :=
  Py.mem c "0123456789".

(** The column of the token's first character in the first line of the
    diagnostic: the width of the marker, the offset in the line, and
    three more columns for every tab before the token, each tab being
    shown as four spaces. *)
Definition token_column (v : TokenMappingView.t) : Z :=
  Py.len (TokenMappingView.lineMarker v) + TokenMappingView.lineOffset v
  + 3 * Py.count Py.TAB
          (Py.take (Z.to_nat (TokenMappingView.lineOffset v)) (TokenMappingView.line v)).

(** ** Merged value processors *)

(** Two value processors classify alike in a store: for every engine,
    text and offset their [process] gives the same answer. *)
Definition classify_alike (h : ValueProcessor.store) (X Y : nat) : Prop :=
  forall re_match content offset,
    ValueProcessor.process re_match h X content offset
    = ValueProcessor.process re_match h Y content offset.

(** C7 as it is written, for three operands of a store: merged as
    [(A | B) | C] and as [A | (B | C)], each time from that store, they
    give processors that answer alike, for every engine, text and
    offset. *)
Definition merge_order_free (h : ValueProcessor.store) (A B C : nat) : Prop :=
  forall AB h1 X h2 BC h1' Y h2',
    ValueProcessor.or_ A B h = Some (AB, h1) ->
    ValueProcessor.or_ AB C h1 = Some (X, h2) ->
    ValueProcessor.or_ B C h = Some (BC, h1') ->
    ValueProcessor.or_ A BC h1' = Some (Y, h2') ->
    forall re_match content offset,
      ValueProcessor.process re_match h2 X content offset
      = ValueProcessor.process re_match h2' Y content offset.

(** ** Sample tokenizers and texts *)

Module Examples.

Definition nl : string := String Py.LF EmptyString.
Definition tab : string := String Py.TAB EmptyString.

(** The sample processors consume plain sets only, which are matched
    without the [re] module: this stands in its place. *)
Definition no_re : engine := fun _ _ _ => None.

(** [Tokenizer([NewLineProcessor, IndentScopeProcessor,
    ConsumingProcessor("abcd")])] *)
Definition processors : list TokenProcessor :=
  [PatternBacked NewLineProcessor;
   IndentScope (IndentScopeProcessor.init false);
   PatternBacked (ConsumingProcessor no_re "abcd")].

(** A line indented by one space, then a line indented by three. *)
Definition nested : string := nl +:+ " a" +:+ nl +:+ "   bcd".

(** The same indents before a text that no sample processor matches. *)
Definition hashes : string := nl +:+ " a" +:+ nl +:+ "   ###".

(** A line indented by one space, then a line at column 0. *)
Definition dedent : string := nl +:+ " a" +:+ nl +:+ "b".

(** A single line indented by two spaces. *)
Definition two_spaces : string := nl +:+ "  b".

(** A line indented by a tab, then a line indented by spaces. *)
Definition mixed : string := nl +:+ tab +:+ "a" +:+ nl +:+ "    b".

(** Scenario 2 of the spec: indents of two spaces, one level at a
    time. *)
Definition stepwise : string :=
  "a" +:+ nl +:+ "  b" +:+ nl +:+ "    c" +:+ nl +:+ "  d" +:+ nl.

End Examples.

Module MixedIndent.
Import IndentScopeProcessor.

(** A tolerant processor after a first line indented by two spaces. *)
Definition locked_to_spaces : t :=
  {| allowMixed := true; level := 2; mode := Some 2; divider := 2 |}.

(** Two spaces, then two tabs: the same depth in the other unit. *)
Definition same_depth_other_unit : string :=
  Examples.nl +:+ "  a" +:+ Examples.nl +:+ Examples.tab +:+ Examples.tab +:+ "b".

(** [Tokenizer([NewLineProcessor, IndentScopeProcessor(allowMixed=True),
    ConsumingProcessor("abcd")])] *)
Definition tolerant : list TokenProcessor :=
  [PatternBacked NewLineProcessor;
   IndentScope (init true);
   PatternBacked (ConsumingProcessor Examples.no_re "abcd")].

(** Two lines indented by two spaces, then a line indented by three
    tabs. *)
Definition released_then_tabs : string :=
  Examples.nl +:+ "  a" +:+ Examples.nl +:+ "  b" +:+ Examples.nl
  +:+ Examples.tab +:+ Examples.tab +:+ Examples.tab +:+ "c".

(** Spaces only, two to a level: two lines at the first level, one at
    the second. *)
Definition regular : string :=
  Examples.nl +:+ "  a" +:+ Examples.nl +:+ "  b" +:+ Examples.nl +:+ "    c".

(** C6 as it is written, for a call of [process] that matches a run of
    tabs or spaces: with a unit locked and mixing not tolerated the
    other kind is a mixed-indent error; with mixing tolerated every
    line whose depth is the current nonzero depth releases the lock. *)
Definition tolerant_release (self : t) (content : string) (offset : Z) : Prop :=
  forall res nid,
    reScope content (offset - 1) = Some res -> lastindex res <> Some 3 ->
    (allowMixed self = false -> is_Some (mode self) -> mode self <> lastindex res ->
     process self content offset nid = Raise (TokenizerError "mixed indent")) /\
    (allowMixed self = true -> m_end res - offset = level self -> level self <> 0 ->
     exists pairs self' nid',
       process self content offset nid = Ok (pairs, self', nid') /\ mode self' = None).

End MixedIndent.

(** ** Sample value processors *)

Module ValueExamples.
Import ValueProcessor.

(** The dictionary literal [{bool: lambda x: x.lower() == "true"}] of
    the caller, at reference 0. *)
Definition with_literal : store :=
  {| objects := ∅; lists := ∅;
     dicts := {[ 0%nat := {[ "bool" := Function "lambda x: x.lower() == 'true'" ]} ]} |}.

(** [NumberProcessor], [BooleanProcessor] and a processor for words,
    built one after the other. *)
Definition number := init [("-?\d*\.\d+", "float"); ("-?\d+", "int")] None with_literal.
Definition boolean := init [("[Tt]rue|[Ff]alse", "bool")] (Some 0%nat) number.2.
Definition word := init [("[a-z]+", "str")] None boolean.2.

Definition built : store := word.2.

(** Two dictionaries of the caller that convert [bool] each in its own
    way, at references 0 and 1. *)
Definition two_literals : store :=
  {| objects := ∅; lists := ∅;
     dicts := {[ 0%nat := {[ "bool" := Function "lambda x: x.lower() == 'true'" ]};
                 1%nat := {[ "bool" := Function "lambda x: x == 'yes'" ]} ]} |}.

(** A processor for booleans and one for words that are given the same
    dictionary, and a second processor for booleans with the other
    one. *)
Definition truth := init [("[Tt]rue|[Ff]alse", "bool")] (Some 0%nat) two_literals.
Definition yes_no := init [("yes|no", "bool")] (Some 1%nat) truth.2.
Definition name := init [("[a-z]+", "str")] (Some 0%nat) yes_no.2.

Definition sharing : store := name.2.

(** An engine that reports one match, of the group [index] with the
    text [text]. *)
Definition reports (index : Z) (text : string) : Regex -> matcher :=
  fun _ _ _ => Some {| m_end := 1; lastindex := Some index;
                       group := fun _ => Some text |}.

End ValueExamples.

(** ** The claims that do not hold as they are written *)

(** C2 as it is written: every pair of every round of a run consumes at
    least one character. *)
Definition every_pair_consumes (tps : list TokenProcessor) (source : string) : Prop :=
  forall fuel st,
    Tokenizer.run fuel tps source = Some (Ok st) ->
    Forall (fun r => Forall (fun pc => 0 < pc.2) r.2) (Tokenizer.rounds st).

(** C3 as it is written: every token of a round is recorded at the value
    [pos] had when the round began. *)
Definition anchored_at_round_start (tps : list TokenProcessor) (source : string) : Prop :=
  forall fuel st p res tok c,
    Tokenizer.run fuel tps source = Some (Ok st) ->
    (p, res) ∈ Tokenizer.rounds st -> (Some tok, c) ∈ res ->
    TokenizerResult.tokenMap (Tokenizer.result st) !! tok_id tok = Some p.

(** C9 as it is written: every failure of [tokenize] carries a rendered
    pointer. *)
Definition every_failure_points (tps : list TokenProcessor) (source : string) : Prop :=
  forall fuel e,
    Tokenizer.tokenize fuel tps source = Some (Raise e) -> carries_pointer source e.

(** * Properties *)

(** ** Strings and positions *)

Lemma len_nonneg (s : string) : 0 <= Py.len s.
Proof. unfold Py.len. lia. Qed.

Lemma length_drop (n : nat) (s : string) :
  String.length (Py.drop n s) = (String.length s - n)%nat.
Proof.
  revert s. induction n as [|n IH]; intros [|c s]; simpl; try lia. apply IH.
Qed.

Lemma run_le (P : ascii -> bool) (s : string) : (Py.run P s <= String.length s)%nat.
Proof. induction s as [|c s IH]; simpl; [lia|]. destruct (P c); lia. Qed.

Lemma startswith_length (p s : string) :
  Py.startswith p s = true -> (String.length p <= String.length s)%nat.
Proof.
  revert s. induction p as [|a p IH]; intros [|b s]; simpl; try lia; try discriminate.
  intros H. apply andb_true_iff in H as [_ H]. apply IH in H. lia.
Qed.

Lemma clamp_bounds (s : string) (pos : Z) : 0 <= Py.clamp s pos <= Py.len s.
Proof. pose proof (len_nonneg s). unfold Py.clamp. lia. Qed.

Lemma clamp_idem (s : string) (pos : Z) : Py.clamp s (Py.clamp s pos) = Py.clamp s pos.
Proof. pose proof (len_nonneg s). unfold Py.clamp. lia. Qed.

Lemma clamp_inside (s : string) (pos : Z) : 0 <= pos <= Py.len s -> Py.clamp s pos = pos.
Proof. unfold Py.clamp. lia. Qed.

Lemma clamp_past_end (s : string) (pos : Z) : Py.len s <= pos -> Py.clamp s pos = Py.len s.
Proof. pose proof (len_nonneg s). unfold Py.clamp. lia. Qed.

(** What is left of the text at a cut position. *)
Lemma length_rest (s : string) (pos : Z) :
  Z.of_nat (String.length (Py.drop (Z.to_nat (Py.clamp s pos)) s))
  = Py.len s - Py.clamp s pos.
Proof.
  pose proof (clamp_bounds s pos). rewrite length_drop. unfold Py.len in *. lia.
Qed.

(** ** The hand-written patterns keep the contract of [Pattern.match] *)

Ltac contract_start :=
  let content := fresh "content" in
  let pos := fresh "pos" in
  intros content pos; split;
  [ cbv beta delta [IndentScopeProcessor.reScope reNewLine reClassicScope];
    rewrite clamp_idem; reflexivity
  | pose proof (length_rest content pos);
    pose proof (clamp_bounds content pos) ].

Lemma reScope_contract : match_contract IndentScopeProcessor.reScope.
Proof.
  contract_start. intros m. unfold IndentScopeProcessor.reScope.
  destruct (Py.drop _ content) as [|c0 [|c1 tail]] eqn:E; try discriminate.
  simpl in H.
  pose proof (run_le IndentScopeProcessor.is_tab (String c1 tail)) as Ht.
  pose proof (run_le IndentScopeProcessor.is_space (String c1 tail)) as Hs.
  simpl String.length in Ht, Hs.
  repeat case_match; intros; simplify_eq; cbn [m_end]; lia.
Qed.

Lemma reNewLine_contract : match_contract reNewLine.
Proof.
  contract_start. intros m. unfold reNewLine.
  destruct (Py.drop _ content) as [|c0 [|c1 tail]] eqn:E; try discriminate;
    simpl in H; repeat case_match; intros; simplify_eq; simpl; lia.
Qed.

Lemma reNewLine_nonempty : nonempty_match reNewLine.
Proof.
  intros content pos m. unfold reNewLine.
  repeat case_match; intros; simplify_eq; simpl; lia.
Qed.

Lemma reClassicScope_contract (a b : string) : match_contract (reClassicScope a b).
Proof.
  contract_start. intros m. unfold reClassicScope.
  destruct (Py.startswith a _) eqn:Ea; [|destruct (Py.startswith b _) eqn:Eb];
    intros; simplify_eq; simpl.
  - apply startswith_length in Ea. pose proof (len_nonneg a). unfold Py.len in *. lia.
  - apply startswith_length in Eb. pose proof (len_nonneg b). unfold Py.len in *. lia.
Qed.

Lemma reClassicScope_nonempty (a b : string) :
  a <> EmptyString -> b <> EmptyString -> nonempty_match (reClassicScope a b).
Proof.
  intros Ha Hb content pos m. unfold reClassicScope.
  repeat case_match; intros; simplify_eq; simpl.
  - destruct a; [done|]. unfold Py.len. simpl. lia.
  - destruct b; [done|]. unfold Py.len. simpl. lia.
Qed.

Lemma reComment_contract (re_compile : engine) (c : string) :
  plain_text c = true -> match_contract (reComment re_compile c).
Proof.
  intros Hplain. unfold reComment. rewrite Hplain.
  contract_start. intros m.
  destruct (Py.startswith c _) eqn:Ec; [|discriminate].
  case_match; [|discriminate]. intros; simplify_eq; simpl.
  apply startswith_length in Ec.
  pose proof (run_le not_LF
    (Py.drop (String.length c) (Py.drop (Z.to_nat (Py.clamp content pos)) content))) as Hr.
  rewrite length_drop in Hr. unfold Py.len in *. lia.
Qed.

Lemma reComment_nonempty (re_compile : engine) (c : string) :
  plain_text c = true -> nonempty_match (reComment re_compile c).
Proof.
  intros Hplain. unfold reComment. rewrite Hplain. intros content pos m.
  repeat case_match; intros; simplify_eq; simpl.
  pose proof (len_nonneg c).
  match goal with H : (0 <? _)%nat = true |- _ => apply Nat.ltb_lt in H end. lia.
Qed.

Lemma reConsuming_contract (re_compile : engine) (set : string) :
  plain_set set = true -> match_contract (reConsuming re_compile set).
Proof.
  intros Hplain. unfold reConsuming. rewrite Hplain.
  contract_start. intros m.
  case_match; [|discriminate]. intros; simplify_eq; simpl.
  pose proof (run_le (fun c => Py.mem c set)
    (Py.drop (Z.to_nat (Py.clamp content pos)) content)) as Hr.
  lia.
Qed.

Lemma reConsuming_nonempty (re_compile : engine) (set : string) :
  plain_set set = true -> nonempty_match (reConsuming re_compile set).
Proof.
  intros Hplain. unfold reConsuming. rewrite Hplain. intros content pos m.
  case_match; [|discriminate]. intros; simplify_eq; simpl.
  match goal with H : (0 <? _)%nat = true |- _ => apply Nat.ltb_lt in H end. lia.
Qed.

(** With an engine that keeps the contract, value and sequence
    processors keep it too. *)
Lemma value_processor_contract (re_match : ValueProcessor.Regex -> matcher)
  (h : ValueProcessor.store) (self : ValueProcessor.t) :
  (forall r, match_contract (re_match r)) ->
  match_contract (PatternProcessor.regex (ValueProcessor.processor re_match h self)).
Proof. intros H. apply H. Qed.

Lemma sequence_processor_contract (regex : matcher) :
  match_contract regex -> match_contract (PatternProcessor.regex (SequenceProcessor regex)).
Proof. intros H. apply H. Qed.

(** ** One call of the indent processor *)

Module IndentFacts.
Import IndentScopeProcessor.

Lemma invariant_init (b : bool) : invariant (init b).
Proof. intros [[? H]|H]; simpl in *; done. Qed.

(** Where [reScope] can match, and what it then reports. *)
Lemma reScope_at (content : string) (offset : Z) (res : Match) :
  0 <= offset ->
  reScope content (offset - 1) = Some res ->
  offset < Py.len content /\
  (lastindex res = Some 3 \/
   ((lastindex res = Some 1 \/ lastindex res = Some 2) /\ 0 < m_end res - offset)).
Proof.
  intros Hoff. unfold reScope.
  pose proof (length_rest content (offset - 1)) as Hlen.
  pose proof (len_nonneg content) as Hn.
  destruct (Py.drop _ content) as [|c0 [|c1 tail]] eqn:E; try discriminate.
  simpl String.length in Hlen.
  assert (Hp : Py.clamp content (offset - 1) <= Py.len content - 2) by lia.
  assert (Hc : offset - 1 <= Py.clamp content (offset - 1) /\ offset < Py.len content)
    by (unfold Py.clamp in *; lia).
  destruct (negb _); [discriminate|].
  destruct (is_tab c1) eqn:Et; [|destruct (is_space c1) eqn:Es];
    intros; simplify_eq; cbn [m_end lastindex]; (split; [lia|]); auto.
  - right. split; [auto|]. simpl Py.run. rewrite Et. lia.
  - right. split; [auto|]. simpl Py.run. rewrite Es. lia.
Qed.

(** The lock step keeps the invariant and reports a level that is 0 for
    the third alternative and positive otherwise. *)
Lemma lock_spec (self self' : t) (offset newLevel : Z) (res : Match) :
  invariant self ->
  lastindex res = Some 3 \/
    ((lastindex res = Some 1 \/ lastindex res = Some 2) /\ 0 < m_end res - offset) ->
  lock self offset res = Ok (newLevel, self') ->
  invariant self' /\ level self' = level self /\ 0 <= newLevel /\
  (newLevel = 0 -> self' = self) /\ (0 < newLevel -> 0 < divider self').
Proof.
  intros Hinv Hres. unfold lock.
  destruct Hres as [H3|[H12 Hpos]].
  - rewrite bool_decide_eq_true_2 by done. intros; simplify_eq.
    split_and!; auto; lia.
  - rewrite bool_decide_eq_false_2 by (destruct H12 as [->| ->]; done).
    destruct (mode self) as [m|] eqn:Em.
    + case_bool_decide; [discriminate|]. intros; simplify_eq.
      split_and!; auto; lia.
    + intros; simplify_eq. split_and!; simpl; auto; try lia.
      intros _. simpl. lia.
Qed.

(** The pairs of one call all carry the new level. When there is none,
    nothing changed. *)
Lemma yields_spec (self self' : t) (newLevel : Z) (nid nid' : nat) (pairs : emission) :
  invariant self -> 0 <= newLevel -> (0 < newLevel -> 0 < divider self) ->
  yields self newLevel nid = Ok (pairs, self', nid') ->
  invariant self' /\
  Forall (fun pc => pc.2 = newLevel) pairs /\
  (pairs = [] -> self' = self /\ nid' = nid /\ newLevel = 0) /\
  (pairs <> [] -> newLevel = 0 -> level self <> 0 /\ level self' = 0).
Proof.
  intros Hinv Hnn Hdiv. unfold yields.
  case_bool_decide as Hne.
  - assert (0 < divider self) as Hd.
    { destruct (decide (newLevel = 0)) as [->|]; [apply Hinv; right; lia|lia]. }
    destruct (divider self =? 0) eqn:E0; [lia|].
    case_bool_decide as Hmod; [discriminate|].
    try apply dec_stable in Hmod.
    intros; simplify_eq. split_and!.
    + intros _. simpl. done.
    + apply Forall_forall. intros pc Hin. apply list_elem_of_In in Hin.
      apply repeat_spec in Hin. by subst.
    + intros Hnil. exfalso.
      assert (0 < Z.abs (level self - newLevel) / divider self).
      { apply Z.div_str_pos. split; [lia|].
        apply Z.mod_divide in Hmod; [|lia].
        apply Z.divide_pos_le in Hmod; lia. }
      destruct (Z.to_nat _) eqn:En in Hnil; [lia|discriminate].
    + intros _ ->. simpl. split; lia.
  - try apply dec_stable in Hne. case_bool_decide as Hz; intros; simplify_eq.
    + split_and!; try done.
      * destruct (allowMixed self); [|done].
        intros _. simpl. apply Hdiv. lia.
      * repeat constructor.
    + try apply dec_stable in Hz. split_and!; auto; done.
Qed.

Lemma process_spec (self self' : t) (content : string) (offset : Z)
  (nid nid' : nat) (pairs : emission) :
  invariant self -> 0 <= offset ->
  process self content offset nid = Ok (pairs, self', nid') ->
  invariant self' /\
  (exists newLevel, 0 <= newLevel /\ Forall (fun pc => pc.2 = newLevel) pairs /\
     (pairs <> [] -> newLevel = 0 -> level self <> 0 /\ level self' = 0)) /\
  (pairs = [] -> self' = self /\ nid' = nid) /\
  (pairs <> [] -> offset < Py.len content).
Proof.
  intros Hinv Hoff. unfold process.
  destruct (reScope content (offset - 1)) as [res|] eqn:Em.
  - apply reScope_at in Em as [Hlt Hres]; [|done].
    destruct (lock self offset res) as [[newLevel self1]|] eqn:El; [|discriminate].
    apply lock_spec in El as (Hinv1 & Hlev & Hnn & Hsame & Hdiv); [|done..].
    intros Hy. apply yields_spec in Hy as (Hinv' & Hall & Hnil & Hzero); [|done..].
    split_and!; [done| |..].
    + exists newLevel. split; [done|]. split; [done|].
      intros Hne Hz. specialize (Hsame Hz). subst self1. auto.
    + intros Hp. destruct (Hnil Hp) as (-> & -> & Hz). split; [|done]. auto.
    + done.
  - intros; simplify_eq. split_and!; [done| |done|done].
    exists 0. split; [lia|]. split; [constructor|done].
Qed.

End IndentFacts.

(** ** One call of any processor *)

Section ProcessFacts.
Context (source : string).
Implicit Types (tp : TokenProcessor) (pos : Z) (nid : nat) (res : process_result).

Lemma process_well_formed tp tp' pos nid nid' res :
  0 <= pos -> well_formed tp ->
  process tp source pos nid = Ok (res, tp', nid') -> well_formed tp'.
Proof.
  intros Hpos Hwf. destruct tp as [p|p]; simpl.
  - destruct (PatternProcessor.process p source pos) as [[[[cls|] c]|]|];
      intros; simplify_eq; done.
  - destruct (IndentScopeProcessor.process p source pos nid)
      as [[[pairs p'] n']|] eqn:E; intros; simplify_eq.
    apply IndentFacts.process_spec in E as (? & _); done.
Qed.

Lemma process_productive tp tp' pos nid nid' res :
  productive tp ->
  process tp source pos nid = Ok (res, tp', nid') -> productive tp'.
Proof.
  intros Hp. destruct tp as [p|p]; simpl.
  - destruct (PatternProcessor.process p source pos) as [[[[cls|] c]|]|];
      intros; simplify_eq; done.
  - destruct (IndentScopeProcessor.process p source pos nid)
      as [[[pairs p'] n']|]; intros; simplify_eq. done.
Qed.

(** A call that hands over no pair leaves the processor and the token
    counter as they were. *)
Lemma process_quiet tp tp' pos nid nid' res :
  0 <= pos -> well_formed tp ->
  process tp source pos nid = Ok (res, tp', nid') ->
  Tokenizer.pairs_of res = [] -> tp' = tp /\ nid' = nid.
Proof.
  intros Hpos Hwf. destruct tp as [p|p]; simpl.
  - destruct (PatternProcessor.process p source pos) as [[[[cls|] c]|]|];
      intros; simplify_eq; done.
  - destruct (IndentScopeProcessor.process p source pos nid)
      as [[[pairs p'] n']|] eqn:E; intros; simplify_eq.
    apply IndentFacts.process_spec in E as (_ & _ & Hq & _); [|done..].
    simpl in *. destruct (Hq ltac:(done)) as [-> ->]. done.
Qed.

(** Inside the text no consumed length is negative. *)
Lemma process_nonneg tp tp' pos nid nid' res :
  0 <= pos <= Py.len source -> well_formed tp ->
  process tp source pos nid = Ok (res, tp', nid') ->
  Forall (fun pc => 0 <= pc.2) (Tokenizer.pairs_of res).
Proof.
  intros Hpos Hwf. destruct tp as [p|p]; simpl.
  - unfold PatternProcessor.process.
    destruct (PatternProcessor.regex p source pos) as [m|] eqn:Em.
    + destruct (Hwf source pos) as [_ Hb]. specialize (Hb m Em).
      rewrite clamp_inside in Hb by done.
      destruct (PatternProcessor.token_of p m) as [[cls|]|];
        intros; simplify_eq; simpl; repeat constructor; simpl; lia.
    + intros; simplify_eq. constructor.
  - destruct (IndentScopeProcessor.process p source pos nid)
      as [[[pairs p'] n']|] eqn:E; intros; simplify_eq.
    apply IndentFacts.process_spec in E as (_ & (l & Hl & Hall & _) & _); [|done|lia].
    simpl. eapply Forall_impl; [exact Hall|]. simpl. intros; lia.
Qed.

(** A call that hands over pairs was made before the end of the text,
    and either every pair consumes something, or every pair consumes
    nothing and the call closed the scopes of an indent processor. *)
Lemma process_progress tp tp' pos nid nid' res :
  0 <= pos -> well_formed tp -> productive tp ->
  process tp source pos nid = Ok (res, tp', nid') ->
  Tokenizer.pairs_of res <> [] ->
  pos < Py.len source /\
  (Forall (fun pc => 0 < pc.2) (Tokenizer.pairs_of res) \/
   (Forall (fun pc => pc.2 = 0) (Tokenizer.pairs_of res) /\
    open_scope tp = 1%nat /\ open_scope tp' = 0%nat)).
Proof.
  intros Hpos Hwf Hprod. destruct tp as [p|p]; simpl.
  - unfold PatternProcessor.process.
    destruct (PatternProcessor.regex p source pos) as [m|] eqn:Em.
    + destruct (Hwf source pos) as [_ Hb]. specialize (Hb m Em).
      specialize (Hprod source pos m Em).
      assert (pos < Py.len source /\ 0 < m_end m - pos) as [? ?].
      { unfold Py.clamp in *. lia. }
      destruct (PatternProcessor.token_of p m) as [[cls|]|];
        intros; simplify_eq; simpl; (split; [done|]); left;
        repeat constructor; simpl; lia.
    + intros ? Hne; simplify_eq; done.
  - destruct (IndentScopeProcessor.process p source pos nid)
      as [[[pairs p'] n']|] eqn:E; intros ? Hne; simplify_eq.
    apply IndentFacts.process_spec in E as (_ & (l & Hl & Hall & Hz) & _ & Hlt);
      [|done..].
    simpl in *. split; [auto|].
    destruct (decide (l = 0)) as [->|Hnz].
    + right. destruct (Hz Hne eq_refl) as [H0 H1]. split; [done|].
      rewrite bool_decide_eq_false_2 by done.
      rewrite bool_decide_eq_true_2 by done. done.
    + left. eapply Forall_impl; [exact Hall|]. simpl. intros; lia.
Qed.

(** At or past the end of the text an indent processor sees no match. *)
Lemma reScope_past_end (offset : Z) :
  Py.len source <= offset -> IndentScopeProcessor.reScope source (offset - 1) = None.
Proof.
  intros Hp. unfold IndentScopeProcessor.reScope.
  pose proof (length_rest source (offset - 1)) as Hlen.
  pose proof (len_nonneg source).
  destruct (Py.drop _ source) as [|c0 [|c1 tail]]; try done.
  simpl String.length in Hlen. unfold Py.clamp in Hlen. lia.
Qed.

End ProcessFacts.

(** ** One scan of the processor list *)

Lemma open_scopes_le (tps : list TokenProcessor) : (open_scopes tps <= length tps)%nat.
Proof.
  unfold open_scopes. induction tps as [|tp tps IH]; simpl; [lia|].
  assert (open_scope tp <= 1)%nat; [|lia].
  destruct tp; simpl; [lia|]. case_bool_decide; lia.
Qed.

Section ScanFacts.
Context (source : string).
Implicit Types (tps : list TokenProcessor) (pos : Z) (nid : nat).

Ltac scan_step IH :=
  let E := fresh "E" in let Es := fresh "Es" in let Ep := fresh "Ep" in
  simpl;
  destruct (process _ source _ _) as [[[?res ?tp'] ?n1]|] eqn:E; [|discriminate];
  destruct (Tokenizer.pairs_of _) as [|?pc ?pcs] eqn:Ep;
  [ destruct (Tokenizer.scan _ source _ _) as [[[?rest' ?n2] ?f]|] eqn:Es;
    [|discriminate] | ];
  intros ?; simplify_eq.

Lemma scan_well_formed tps tps' pos nid nid' found :
  0 <= pos -> Forall well_formed tps ->
  Tokenizer.scan tps source pos nid = Ok (tps', nid', found) ->
  Forall well_formed tps' /\ length tps' = length tps.
Proof.
  intros Hpos. revert tps' nid nid' found.
  induction tps as [|tp tps IH]; intros tps' nid nid' found Hwf.
  - simpl. intros; simplify_eq. done.
  - apply Forall_cons in Hwf as [Hwf1 Hwf]. scan_step IH.
    + apply IH in Es as [? ?]; [|done]. simpl. split; [|lia].
      constructor; [|done]. eapply process_well_formed; eauto.
    + split; [|done]. constructor; [|done]. eapply process_well_formed; eauto.
Qed.

Lemma scan_productive tps tps' pos nid nid' found :
  Forall productive tps ->
  Tokenizer.scan tps source pos nid = Ok (tps', nid', found) ->
  Forall productive tps'.
Proof.
  revert tps' nid nid' found.
  induction tps as [|tp tps IH]; intros tps' nid nid' found Hwf.
  - simpl. intros; simplify_eq. done.
  - apply Forall_cons in Hwf as [Hwf1 Hwf]. scan_step IH.
    + apply IH in Es; [|done]. constructor; [|done].
      eapply process_productive; eauto.
    + constructor; [|done]. eapply process_productive; eauto.
Qed.

(** A scan in which no processor matched changed nothing. *)
Lemma scan_quiet tps tps' pos nid nid' :
  0 <= pos -> Forall well_formed tps ->
  Tokenizer.scan tps source pos nid = Ok (tps', nid', None) ->
  tps' = tps /\ nid' = nid.
Proof.
  intros Hpos. revert tps' nid nid'.
  induction tps as [|tp tps IH]; intros tps' nid nid' Hwf.
  - simpl. intros; simplify_eq. done.
  - apply Forall_cons in Hwf as [Hwf1 Hwf]. scan_step IH.
    apply process_quiet in E as [-> ->]; [|done..].
    apply IH in Es as [-> ->]; done.
Qed.

Lemma scan_nonneg tps tps' pos nid nid' pairs :
  0 <= pos <= Py.len source -> Forall well_formed tps ->
  Tokenizer.scan tps source pos nid = Ok (tps', nid', Some pairs) ->
  Forall (fun pc => 0 <= pc.2) pairs.
Proof.
  intros Hpos. revert tps' nid nid'.
  induction tps as [|tp tps IH]; intros tps' nid nid' Hwf.
  - simpl. intros; simplify_eq.
  - apply Forall_cons in Hwf as [Hwf1 Hwf]. scan_step IH.
    + eapply IH; eauto.
    + apply process_nonneg in E; [|done..]. by rewrite Ep in E.
Qed.

(** A scan that found pairs: they are not an empty list, the scan was
    made before the end of the text, and either all of them consume
    something or none does and one indent processor fewer has an open
    scope. *)
Lemma scan_progress tps tps' pos nid nid' pairs :
  0 <= pos -> Forall well_formed tps -> Forall productive tps ->
  Tokenizer.scan tps source pos nid = Ok (tps', nid', Some pairs) ->
  pairs <> [] /\ pos < Py.len source /\
  (Forall (fun pc => 0 < pc.2) pairs \/
   (Forall (fun pc => pc.2 = 0) pairs /\ (open_scopes tps' < open_scopes tps)%nat)).
Proof.
  intros Hpos. revert tps' nid nid'.
  induction tps as [|tp tps IH]; intros tps' nid nid' Hwf Hprod.
  - simpl. intros; simplify_eq.
  - apply Forall_cons in Hwf as [Hwf1 Hwf].
    apply Forall_cons in Hprod as [Hprod1 Hprod]. scan_step IH.
    + apply process_quiet in E as [-> ->]; [|done..].
      destruct (IH _ _ _ Hwf Hprod Es) as (? & ? & [?|[? ?]]); split_and!; auto.
      right. split; [done|]. unfold open_scopes in *. simpl. lia.
    + assert (Tokenizer.pairs_of res <> []) as Hne by (by rewrite Ep).
      destruct (process_progress _ _ _ _ _ _ _ Hpos Hwf1 Hprod1 E Hne)
        as (? & [?|(? & H1 & H0)]); rewrite Ep in *; split_and!; auto.
      right. split; [done|]. unfold open_scopes. simpl. lia.
Qed.

(** At or past the end of the text every pattern is matched at the end
    of the text, and the indent processors see nothing: the scan finds
    the same processor, with an empty match, wherever it starts. *)
Lemma scan_past_end tps pos nid :
  Py.len source <= pos -> Forall well_formed tps ->
  match Tokenizer.scan tps source pos nid with
  | Raise _ => forall q n, Py.len source <= q ->
      exists e, Tokenizer.scan tps source q n = Raise e
  | Ok (tps', nid', None) => True
  | Ok (tps', nid', Some pairs) =>
      tps' = tps /\
      forall q n, Py.len source <= q ->
        exists tok n', Tokenizer.scan tps source q n
                       = Ok (tps, n', Some [(tok, Py.len source - q)])
  end.
Proof.
  intros Hpos. revert nid.
  induction tps as [|tp tps IH]; intros nid Hwf; [done|].
  apply Forall_cons in Hwf as [Hwf1 Hwf].
  destruct tp as [p|p].
  - (* a pattern: the same match object at every such position *)
    assert (forall q, Py.len source <= q ->
              PatternProcessor.regex p source q
              = PatternProcessor.regex p source (Py.len source)) as Hsame.
    { intros q Hq. destruct (Hwf1 source q) as [-> _].
      by rewrite clamp_past_end. }
    assert (forall m, PatternProcessor.regex p source (Py.len source) = Some m ->
              m_end m = Py.len source) as Hend.
    { intros m Hm. destruct (Hwf1 source (Py.len source)) as [_ Hb].
      specialize (Hb m Hm). rewrite clamp_past_end in Hb by lia. lia. }
    simpl. unfold PatternProcessor.process. rewrite (Hsame pos Hpos).
    destruct (PatternProcessor.regex p source (Py.len source)) as [m|] eqn:Em.
    + rewrite (Hend m eq_refl).
      destruct (PatternProcessor.token_of p m) as [[cls|]|] eqn:Et; simpl.
      * split; [done|]. intros q n Hq. rewrite (Hsame q Hq), Et, (Hend m eq_refl).
        simpl. eauto.
      * split; [done|]. intros q n Hq. rewrite (Hsame q Hq), Et, (Hend m eq_refl).
        simpl. eauto.
      * intros q n Hq. rewrite (Hsame q Hq), Et. eauto.
    + simpl. specialize (IH nid Hwf).
      destruct (Tokenizer.scan tps source pos nid) as [[[rest' n2] [pairs|]]|]; [|done|].
      * destruct IH as [-> IH]. split; [done|]. intros q n Hq.
        rewrite (Hsame q Hq). simpl.
        destruct (IH q n Hq) as (tok & n' & ->). eauto.
      * intros q n Hq. rewrite (Hsame q Hq). simpl.
        destruct (IH q n Hq) as (e' & ->). eauto.
  - simpl. unfold IndentScopeProcessor.process.
    rewrite reScope_past_end by done. simpl. specialize (IH nid Hwf).
    destruct (Tokenizer.scan tps source pos nid) as [[[rest' n2] [pairs|]]|]; [|done|].
    + destruct IH as [-> IH]. split; [done|]. intros q n Hq.
      rewrite reScope_past_end by done. simpl.
      destruct (IH q n Hq) as (tok & n' & ->). eauto.
    + intros q n Hq. rewrite reScope_past_end by done. simpl.
      destruct (IH q n Hq) as (e' & ->). eauto.
Qed.

End ScanFacts.

(** ** Coverage of the text by the consumed spans *)

Lemma tiles_app a b c l l' : tiles a l b -> tiles b l' c -> tiles a (l ++ l') c.
Proof. induction 1; simpl; [done|]. intros. constructor; auto. Qed.

Lemma tiles_total a l b : tiles a l b -> b = a + total_length l.
Proof. induction 1; simpl; lia. Qed.

Lemma tiles_le a l b : tiles a l b -> a <= b.
Proof. induction 1; lia. Qed.

Lemma apply_pairs_tiles res pos result :
  Forall (fun pc => 0 <= pc.2) res ->
  tiles pos (spans_of pos res) (Tokenizer.apply_pairs res pos result).1.
Proof.
  revert pos result. induction res as [|[tok c] res IH]; intros pos result Hall.
  - constructor.
  - apply Forall_cons in Hall as [Hc Hall]. simpl in *. constructor; [done|].
    apply IH. done.
Qed.

Section LoopFacts.
Context (source : string).
Import Tokenizer.

Lemma covered_start tps : covered (start tps source).
Proof. constructor. Qed.

Lemma round_covered st st' b :
  covered st -> pos st <= Py.len source -> Forall well_formed (tokenProcessors st) ->
  round source st = Ok (b, st') ->
  covered st' /\ Forall well_formed (tokenProcessors st').
Proof.
  intros Hcov Hle Hwf. unfold round.
  pose proof (tiles_le _ _ _ Hcov) as Hpos.
  destruct (scan _ source _ _) as [[[tps nid] [pairs|]]|] eqn:Es; [| |discriminate].
  - destruct (apply_pairs pairs (pos st) (result st)) as [pos' result'] eqn:Ea.
    intros; simplify_eq. split.
    + unfold covered, consumed_spans. simpl. rewrite flat_map_app. simpl.
      rewrite app_nil_r. eapply tiles_app; [exact Hcov|].
      replace pos' with (apply_pairs pairs (pos st) (result st)).1 by (by rewrite Ea).
      apply apply_pairs_tiles. eapply scan_nonneg; eauto.
    + simpl. eapply scan_well_formed; eauto.
  - intros; simplify_eq. split; [done|]. simpl. eapply scan_well_formed; eauto.
Qed.

(** A loop that stands at the end of the text while some pattern matches
    the empty string there never leaves: every round applies the same
    empty match. *)
Lemma loop_stuck fuel st st' :
  pos st = Py.len source ->
  (forall q n, Py.len source <= q ->
     exists tok n', scan (tokenProcessors st) source q n
                    = Ok (tokenProcessors st, n', Some [(tok, Py.len source - q)])) ->
  loop fuel source st <> Some (Ok st').
Proof.
  revert st. induction fuel as [|fuel IH]; intros st Hpos Hscan; [done|].
  simpl. unfold round.
  destruct (Hscan (pos st) (created st) ltac:(lia)) as (tok & n' & ->).
  simpl. destruct tok; apply IH; simpl; (lia || done).
Qed.

(** Once [pos] has passed the end of the text the loop cannot end at the
    end of the text. *)
Lemma loop_overshoot fuel st st' :
  Forall well_formed (tokenProcessors st) -> Py.len source < pos st ->
  loop fuel source st = Some (Ok st') -> pos st' <> Py.len source.
Proof.
  intros Hwf Hpos. destruct fuel as [|fuel]; [done|]. simpl. unfold round.
  pose proof (scan_past_end source (tokenProcessors st) (pos st) (created st)
                ltac:(lia) Hwf) as Hs.
  destruct (scan _ source _ _) as [[[tps nid] [pairs|]]|] eqn:Es; [| |done].
  - destruct Hs as [-> Hs].
    destruct (Hs (pos st) (created st) ltac:(lia)) as (tok & n' & Es').
    rewrite Es in Es'. simplify_eq. simpl. intros Hl. exfalso.
    eapply loop_stuck; [| |exact Hl]; destruct tok; simpl; (lia || done).
  - intros; simplify_eq. simpl. lia.
Qed.

Lemma loop_covered fuel st st' :
  covered st -> pos st <= Py.len source -> Forall well_formed (tokenProcessors st) ->
  loop fuel source st = Some (Ok st') -> pos st' = Py.len source ->
  covered st'.
Proof.
  revert st. induction fuel as [|fuel IH]; intros st Hcov Hle Hwf; [done|].
  simpl. destruct (round source st) as [[[] st1]|] eqn:Er; [| |done].
  - apply round_covered in Er as [Hcov1 Hwf1]; [|done..].
    intros Hl Hend. destruct (decide (pos st1 <= Py.len source)).
    + eapply IH; eauto.
    + exfalso. eapply loop_overshoot; [| |exact Hl|exact Hend]; [done|lia].
  - apply round_covered in Er as [Hcov1 Hwf1]; [|done..].
    intros; simplify_eq. done.
Qed.

End LoopFacts.

(** The lengths the processors hand over, laid end to end from offset
    0, reach [len(text)] in a run that returns a result: none of them
    is negative and they add up to [len(text)]. This is a fact on the
    numbers only; whether the text under a span was matched is another
    matter, see [indent_skips_unmatched_text]. *)
Lemma tokenize_covers_text (fuel : nat) (tps : list TokenProcessor) (source : string)
  (st : Tokenizer.state) :
  Forall well_formed tps ->
  Tokenizer.run fuel tps source = Some (Ok st) ->
  tiles 0 (consumed_spans (Tokenizer.rounds st)) (Py.len source) /\
  total_length (consumed_spans (Tokenizer.rounds st)) = Py.len source.
Proof.
  intros Hwf. unfold Tokenizer.run.
  destruct (Tokenizer.loop fuel source _) as [[st1|]|] eqn:El; [|done..].
  unfold Tokenizer.finish. case_bool_decide as Hend; [done|].
  destruct (Tokenizer.finalize _ _ _ _) as [result' nid].
  intros; simplify_eq. simpl.
  assert (tiles 0 (consumed_spans (Tokenizer.rounds st1)) (Py.len source)) as Ht.
  { rewrite <- Hend. eapply loop_covered; [| | |exact El|exact Hend].
    - apply covered_start.
    - simpl. apply len_nonneg.
    - done. }
  split; [done|]. apply tiles_total in Ht. lia.
Qed.

(** ** Progress and termination of the driving loop *)

Lemma apply_pairs_advance res pos result :
  res <> [] -> Forall (fun pc => 0 < pc.2) res ->
  pos < (Tokenizer.apply_pairs res pos result).1.
Proof.
  revert pos result. induction res as [|[tok c] res IH]; intros pos result Hne Hall;
    [done|].
  apply Forall_cons in Hall as [Hc Hall]. simpl in *.
  destruct res as [|pc res']; [simpl; lia|].
  etransitivity; [|apply IH; done]. lia.
Qed.

Lemma apply_pairs_stay res pos result :
  Forall (fun pc => pc.2 = 0) res -> (Tokenizer.apply_pairs res pos result).1 = pos.
Proof.
  revert pos result. induction res as [|[tok c] res IH]; intros pos result Hall;
    [done|].
  apply Forall_cons in Hall as [Hc Hall]. simpl in *. subst c.
  rewrite IH by done. lia.
Qed.

Section Termination.
Context (source : string).
Import Tokenizer.

(** A round that matched started before the end of the text; it moved
    [pos] forward, or it left [pos] where it was and closed the scopes
    of one indent processor. *)
Lemma round_progress st st' :
  steady st -> round source st = Ok (true, st') ->
  steady st' /\
  length (tokenProcessors st') = length (tokenProcessors st) /\
  pos st < Py.len source /\
  (pos st < pos st' \/
   (pos st' = pos st /\
    (open_scopes (tokenProcessors st') < open_scopes (tokenProcessors st))%nat)).
Proof.
  intros (Hpos & Hwf & Hprod). unfold round.
  destruct (scan _ source _ _) as [[[tps nid] [pairs|]]|] eqn:Es; [|done..].
  destruct (apply_pairs pairs (pos st) (result st)) as [pos' result'] eqn:Ea.
  intros; simplify_eq. simpl.
  destruct (scan_well_formed _ _ _ _ _ _ _ Hpos Hwf Es) as [Hwf' Hlen].
  pose proof (scan_productive _ _ _ _ _ _ _ Hprod Es) as Hprod'.
  destruct (scan_progress _ _ _ _ _ _ _ Hpos Hwf Hprod Es) as (Hne & Hlt & Hcase).
  assert (pos' = (apply_pairs pairs (pos st) (result st)).1) as -> by (by rewrite Ea).
  assert (pos st < (apply_pairs pairs (pos st) (result st)).1 \/
          ((apply_pairs pairs (pos st) (result st)).1 = pos st /\
           (open_scopes tps < open_scopes (tokenProcessors st))%nat)) as Hmove.
  { destruct Hcase as [Hall|[Hall Hopen]].
    - left. by apply apply_pairs_advance.
    - right. split; [by apply apply_pairs_stay|done]. }
  split_and!; try done. unfold steady. simpl. split_and!; try done.
  destruct Hmove as [?|[-> _]]; lia.
Qed.

Lemma round_potential st st' :
  steady st -> round source st = Ok (true, st') ->
  (potential source st' < potential source st)%nat.
Proof.
  intros Hst Hr. destruct (round_progress _ _ Hst Hr) as (_ & Hlen & Hlt & Hmove).
  unfold potential. rewrite Hlen.
  pose proof (open_scopes_le (tokenProcessors st')) as Hle. rewrite Hlen in Hle.
  destruct Hmove as [Hadv|[Heq Hopen]].
  - assert (Z.to_nat (Py.len source - pos st')
            < Z.to_nat (Py.len source - pos st))%nat by lia.
    nia.
  - rewrite Heq. lia.
Qed.

Lemma round_quiet st st' :
  steady st -> round source st = Ok (false, st') -> steady st'.
Proof.
  intros (Hpos & Hwf & Hprod). unfold round.
  destruct (scan _ source _ _) as [[[tps nid] [pairs|]]|] eqn:Es; [| |done];
    [by destruct (apply_pairs _ _ _)|].
  intros; simplify_eq. apply scan_quiet in Es as [-> ->]; done.
Qed.

(** With more fuel than the potential the loop comes to its end. *)
Lemma loop_terminates fuel st :
  steady st -> (potential source st < fuel)%nat ->
  is_Some (loop fuel source st).
Proof.
  revert st. induction fuel as [|fuel IH]; intros st Hst Hfuel; [lia|].
  simpl. destruct (round source st) as [[[] st1]|] eqn:Er; [|eauto..].
  apply IH.
  - by destruct (round_progress _ _ Hst Er).
  - pose proof (round_potential _ _ Hst Er). lia.
Qed.

End Termination.

(** C2 (as amended). A pattern that matches no empty string reports a
    consumed length greater than 0; the pairs of the indent processor
    never have a negative length, and their length is 0 only when the
    call closed the scopes of that processor; every round that matched
    moved [pos] forward or left it in place and closed the scopes of one
    indent processor; the loop of [tokenize] ends for every text. *)
Theorem progress_and_termination (tps : list TokenProcessor) (source : string) :
  Forall well_formed tps -> Forall productive tps ->
  (forall tp tp' pos nid nid' res,
     tp ∈ tps -> 0 <= pos ->
     process tp source pos nid = Ok (res, tp', nid') ->
     Tokenizer.pairs_of res <> [] ->
     Forall (fun pc => 0 < pc.2) (Tokenizer.pairs_of res) \/
     (Forall (fun pc => pc.2 = 0) (Tokenizer.pairs_of res) /\
      open_scope tp = 1%nat /\ open_scope tp' = 0%nat)) /\
  (forall st st',
     steady st -> Tokenizer.round source st = Ok (true, st') ->
     Tokenizer.pos st < Tokenizer.pos st' \/
     (Tokenizer.pos st' = Tokenizer.pos st /\
      (open_scopes (Tokenizer.tokenProcessors st')
       < open_scopes (Tokenizer.tokenProcessors st))%nat)) /\
  (forall fuel,
     (Z.to_nat (Py.len source) * S (length tps) + open_scopes tps < fuel)%nat ->
     is_Some (Tokenizer.tokenize fuel tps source)).
Proof.
  intros Hwf Hprod. split_and!.
  - intros tp tp' pos nid nid' res Hin Hpos Hp Hne.
    rewrite Forall_forall in Hwf, Hprod.
    by destruct (process_progress source _ _ _ _ _ _ Hpos (Hwf _ Hin) (Hprod _ Hin) Hp Hne).
  - intros st st' Hst Hr. by destruct (round_progress source _ _ Hst Hr) as (_ & _ & _ & ?).
  - intros fuel Hfuel. unfold Tokenizer.tokenize, Tokenizer.run.
    destruct (loop_terminates source fuel (Tokenizer.start tps source)) as [r Hr].
    + split_and!; simpl; done.
    + unfold potential. simpl. rewrite Z.sub_0_r. done.
    + rewrite Hr. destruct r as [st|e]; [|eauto].
      destruct (Tokenizer.finish source st); eauto.
Qed.

Lemma empty_pattern_loops (fuel : nat) (source : string) (st : Tokenizer.state) :
  Tokenizer.tokenProcessors st
  = [PatternBacked (ClassicScopeProcessor EmptyString "}")] ->
  Tokenizer.loop fuel source st = None.
Proof.
  revert st. induction fuel as [|fuel IH]; intros st Htps; [done|].
  simpl. unfold Tokenizer.round. rewrite Htps. simpl.
  unfold PatternProcessor.process. simpl. apply IH. done.
Qed.

(** Why the patterns must match no empty string: a
    [ClassicScopeProcessor] built with an empty start marker matches
    everywhere without consuming anything, and [tokenize] never
    returns, whatever the text. *)
Lemma empty_pattern_never_ends (fuel : nat) (source : string) :
  Tokenizer.tokenize fuel [PatternBacked (ClassicScopeProcessor EmptyString "}")] source
  = None.
Proof.
  unfold Tokenizer.tokenize, Tokenizer.run.
  by rewrite empty_pattern_loops.
Qed.

(** ** The sample tokenizer *)

Lemma processors_well_formed : Forall well_formed Examples.processors.
Proof.
  apply Forall_cons_2; [apply reNewLine_contract|].
  apply Forall_cons_2; [apply IndentFacts.invariant_init|].
  apply Forall_cons_2; [by apply reConsuming_contract|].
  apply Forall_nil_2.
Qed.

Lemma processors_productive : Forall productive Examples.processors.
Proof.
  apply Forall_cons_2; [apply reNewLine_nonempty|].
  apply Forall_cons_2; [exact I|].
  apply Forall_cons_2; [by apply reConsuming_nonempty|].
  apply Forall_nil_2.
Qed.

(** Scenario 2 of the spec, as the spec lists its tokens: a scope start
    before the lines of [b] and of [c], a scope end before the line of
    [d], and two scope ends from the finalizer. *)
Example stepwise_tokens :
  match Tokenizer.tokenize 40 Examples.processors Examples.stepwise with
  | Some (Ok r) =>
      map tok_class (TokenizerResult.tokens r)
      = [EndOfLineToken; ScopeStartToken; EndOfLineToken; ScopeStartToken;
         EndOfLineToken; ScopeEndToken; EndOfLineToken;
         ScopeEndToken; ScopeEndToken; EndOfFileToken]
  | _ => False
  end.
Proof. vm_compute. reflexivity. Qed.

(** C1, at a text the code accepts. In [hashes] the second line is
    indented by three spaces after a first line indented by one. The
    round at offset 4 matches the line feed and the three spaces, up to
    offset 7, and the indent processor hands over its token twice, each
    time with the new level 3 as the consumed length: the second span,
    from 7 to 10, lies over the three [#], which no processor matches at
    any offset and in any state, and [tokenize] returns a result. The
    characters from 7 on are skipped. *)
Theorem indent_skips_unmatched_text :
  (forall pos, 7 <= pos <= 9 ->
     declines (PatternBacked NewLineProcessor) Examples.hashes pos /\
     (forall self, declines (IndentScope self) Examples.hashes pos) /\
     declines (PatternBacked (ConsumingProcessor Examples.no_re "abcd"))
       Examples.hashes pos) /\
  (exists m, IndentScopeProcessor.reScope Examples.hashes (4 - 1) = Some m /\
             m_end m = 7) /\
  match Tokenizer.run 20 Examples.processors Examples.hashes with
  | Some (Ok st) =>
      consumed_spans (Tokenizer.rounds st)
      = [(0, 1); (1, 1); (2, 1); (3, 1); (4, 3); (7, 3)] /\
      last (Tokenizer.rounds st)
      = Some (4, [(Some {| tok_id := 3; tok_class := ScopeStartToken |}, 3);
                  (Some {| tok_id := 3; tok_class := ScopeStartToken |}, 3)]) /\
      Tokenizer.pos st = Py.len Examples.hashes
  | _ => False
  end.
Proof.
  split_and!.
  - intros pos Hpos.
    assert (pos = 7 \/ pos = 8 \/ pos = 9) as [->|[->| ->]] by lia;
      (split_and!; [intros nid|intros self nid|intros nid]);
      [ exists NoResult, (PatternBacked NewLineProcessor), nid
      | exists (Generator []), (IndentScope self), nid
      | exists NoResult, (PatternBacked (ConsumingProcessor Examples.no_re "abcd")), nid
      | exists NoResult, (PatternBacked NewLineProcessor), nid
      | exists (Generator []), (IndentScope self), nid
      | exists NoResult, (PatternBacked (ConsumingProcessor Examples.no_re "abcd")), nid
      | exists NoResult, (PatternBacked NewLineProcessor), nid
      | exists (Generator []), (IndentScope self), nid
      | exists NoResult, (PatternBacked (ConsumingProcessor Examples.no_re "abcd")), nid ];
      (split; [vm_compute; reflexivity|reflexivity]).
  - eexists. split; [vm_compute; reflexivity|reflexivity].
  - vm_compute. split_and!; reflexivity.
Qed.

Lemma progress_and_termination_witness :
  is_Some (Tokenizer.tokenize 40 Examples.processors Examples.dedent).
Proof.
  apply (progress_and_termination Examples.processors Examples.dedent
           processors_well_formed processors_productive).
  vm_compute. lia.
Defined.

(** Against C2 as it is written: the line at column 0 of [dedent] makes
    the indent processor hand over its [ScopeEndToken] with a consumed
    length of 0. *)
Lemma dedent_consumes_nothing :
  ~ every_pair_consumes Examples.processors Examples.dedent.
Proof.
  intros H.
  destruct (Tokenizer.run 20 Examples.processors Examples.dedent) as [[st|e]|] eqn:E;
    [|vm_compute in E; discriminate..].
  specialize (H _ _ E). vm_compute in E. simplify_eq. simpl in H.
  rewrite Forall_lookup in H. specialize (H 4%nat _ eq_refl). simpl in H.
  apply Forall_cons in H as [H _]. simpl in H. lia.
Qed.

(** ** The offsets recorded for the tokens of a round *)

Lemma apply_pairs_map res pos result id :
  TokenizerResult.tokenMap (Tokenizer.apply_pairs res pos result).2 !! id
  = match recorded res pos id with
    | Some o => Some o
    | None => TokenizerResult.tokenMap result !! id
    end.
Proof.
  revert pos result. induction res as [|[[tok|] c] res IH]; intros pos result; simpl.
  - done.
  - rewrite IH. destruct (recorded res (pos + c) id); [done|]. simpl.
    case_bool_decide as Hid.
    + rewrite Hid. apply lookup_insert_eq.
    + by apply lookup_insert_ne.
  - rewrite IH. by destruct (recorded res (pos + c) id).
Qed.

Lemma recorded_None res pos id :
  (forall tok c, (Some tok, c) ∈ res -> tok_id tok <> id) -> recorded res pos id = None.
Proof.
  revert pos. induction res as [|[[tok|] c] res IH]; intros pos Hall; simpl; [done|..].
  - rewrite IH by (intros; eapply Hall; right; eauto).
    rewrite bool_decide_eq_false_2; [done|]. eapply Hall. left.
  - rewrite IH by (intros; eapply Hall; right; eauto). done.
Qed.

Lemma recorded_Some res pos id o :
  recorded res pos id = Some o -> exists tok c, (Some tok, c) ∈ res /\ tok_id tok = id.
Proof.
  revert pos o. induction res as [|[tok c] res IH]; intros pos o; simpl; [done|].
  destruct (recorded res (pos + c) id) eqn:E.
  - intros _. destruct (IH _ _ E) as (tok' & c' & ? & ?). exists tok', c'.
    split; [by right|done].
  - destruct tok as [tok|]; [|done]. case_bool_decide; [|done].
    intros _. exists tok, c. split; [left|done].
Qed.

(** The last pair that carries a token object decides its offset: the
    start of the round plus what the pairs before it consumed. *)
Lemma recorded_last res pos i tok c :
  res !! i = Some (Some tok, c) ->
  (forall j tok' c', (i < j)%nat -> res !! j = Some (Some tok', c') ->
     tok_id tok' <> tok_id tok) ->
  recorded res pos (tok_id tok) = Some (pos + consumed_before i res).
Proof.
  revert pos i. induction res as [|[tok0 c0] res IH]; intros pos i Hi Hlast; [done|].
  destruct i as [|i]; simpl in *.
  - simplify_eq. rewrite recorded_None.
    + rewrite bool_decide_eq_true_2 by done. f_equal. unfold consumed_before. simpl. lia.
    + intros tok' c' Hin. apply list_elem_of_lookup in Hin as [j Hj].
      eapply (Hlast (S j)); [lia|]. done.
  - rewrite (IH (pos + c0) i Hi).
    + f_equal. unfold consumed_before. simpl. lia.
    + intros j tok' c' Hj. apply (Hlast (S j)). lia.
Qed.

(** Token objects are numbered in the order of their creation. *)
Lemma process_ids tp tp' source pos nid nid' res :
  process tp source pos nid = Ok (res, tp', nid') ->
  (nid <= nid')%nat /\
  forall tok c, (Some tok, c) ∈ Tokenizer.pairs_of res -> (nid <= tok_id tok < nid')%nat.
Proof.
  destruct tp as [p|p]; simpl.
  - destruct (PatternProcessor.process p source pos) as [[[[cls|] c]|]|];
      intros; simplify_eq; simpl; (split; [lia|]); intros tok c' Hin.
    + apply list_elem_of_singleton in Hin. simplify_eq. simpl. lia.
    + apply list_elem_of_singleton in Hin. simplify_eq.
    + by apply elem_of_nil in Hin.
  - unfold IndentScopeProcessor.process.
    destruct (IndentScopeProcessor.reScope _ _) as [m|].
    + destruct (IndentScopeProcessor.lock _ _ _) as [[l p1]|]; [|done].
      unfold IndentScopeProcessor.yields.
      repeat case_match; intros; simplify_eq; simpl; (split; [lia|]);
        intros tok c' Hin;
        first [ apply list_elem_of_In, repeat_spec in Hin; simplify_eq; simpl; lia
              | apply list_elem_of_singleton in Hin; simplify_eq
              | by apply elem_of_nil in Hin ].
    + intros; simplify_eq. split; [lia|]. intros tok c' Hin.
      by apply elem_of_nil in Hin.
Qed.

Lemma scan_ids tps tps' source pos nid nid' found :
  Tokenizer.scan tps source pos nid = Ok (tps', nid', found) ->
  (nid <= nid')%nat /\
  forall pairs tok c, found = Some pairs -> (Some tok, c) ∈ pairs ->
    (nid <= tok_id tok < nid')%nat.
Proof.
  revert tps' nid nid' found.
  induction tps as [|tp tps IH]; intros tps' nid nid' found; simpl.
  - intros; simplify_eq. split; [lia|]. intros; simplify_eq.
  - destruct (process tp source pos nid) as [[[res tp1] n1]|] eqn:E; [|done].
    apply process_ids in E as [Hle Hids].
    destruct (Tokenizer.pairs_of res) as [|pc pcs] eqn:Ep.
    + destruct (Tokenizer.scan tps source pos n1) as [[[rest' n2] f]|] eqn:Es; [|done].
      intros; simplify_eq. apply IH in Es as [Hle' Hids'].
      split; [lia|]. intros pairs tok c Hf Hin.
      specialize (Hids' pairs tok c Hf Hin). lia.
    + intros; simplify_eq. split; [lia|]. intros pairs tok c Hf Hin. simplify_eq.
      eauto.
Qed.

Section BookKeeping.
Context (source : string).
Import Tokenizer.

Lemma book_keeping_start tps : book_keeping (start tps source).
Proof.
  split; [constructor|]. simpl. intros id [o Ho]. by rewrite lookup_empty in Ho.
Qed.

Lemma round_book_keeping st st' b :
  book_keeping st -> round source st = Ok (b, st') -> book_keeping st'.
Proof.
  intros [Hrounds Hdom]. unfold round.
  destruct (scan _ source _ _) as [[[tps nid] [pairs|]]|] eqn:Es; [| |done].
  - destruct (apply_pairs pairs (pos st) (result st)) as [pos' result'] eqn:Ea.
    apply scan_ids in Es as [Hle Hids].
    assert (forall id, TokenizerResult.tokenMap result' !! id
              = match recorded pairs (pos st) id with
                | Some o => Some o
                | None => TokenizerResult.tokenMap (result st) !! id
                end) as Hmap.
    { intros id. rewrite <- apply_pairs_map. by rewrite Ea. }
    intros; simplify_eq. split; simpl.
    + apply Forall_app. split.
      * eapply Forall_impl; [exact Hrounds|]. intros r Hr id o Ho.
        rewrite Hmap. specialize (Hr id o Ho).
        rewrite recorded_None; [done|].
        intros tok c Hin Heq. specialize (Hids pairs tok c eq_refl Hin).
        specialize (Hdom id ltac:(eauto)). lia.
      * apply Forall_singleton. intros id o Ho. simpl in Ho.
        rewrite Hmap. by rewrite Ho.
    + intros id. rewrite Hmap. destruct (recorded pairs (pos st) id) eqn:Er.
      * intros _. apply recorded_Some in Er as (tok & c & Hin & <-).
        specialize (Hids pairs tok c eq_refl Hin). lia.
      * intros Hs. specialize (Hdom id Hs). lia.
  - apply scan_ids in Es as [Hle _]. intros; simplify_eq. split; simpl; [done|].
    intros id Hs. specialize (Hdom id Hs). lia.
Qed.

Lemma loop_book_keeping fuel st st' :
  book_keeping st -> loop fuel source st = Some (Ok st') -> book_keeping st'.
Proof.
  revert st. induction fuel as [|fuel IH]; intros st Hbk; [done|]. simpl.
  destruct (round source st) as [[[] st1]|] eqn:Er; [| |done].
  - apply IH. eapply round_book_keeping; eauto.
  - intros; simplify_eq. eapply round_book_keeping; eauto.
Qed.

End BookKeeping.

Lemma finalizer_ids tp nid toks nid' :
  finalizer tp nid = (toks, nid') ->
  (nid <= nid')%nat /\ Forall (fun tok => (nid <= tok_id tok)%nat) toks.
Proof.
  destruct tp as [p|p]; simpl.
  - intros; simplify_eq. split; [lia|constructor].
  - unfold IndentScopeProcessor.finalizer. case_match; intros; simplify_eq.
    + split; [lia|]. apply Forall_forall. intros tok Hin.
      apply list_elem_of_In, in_map_iff in Hin as (i & <- & _). simpl. lia.
    + split; [lia|constructor].
Qed.

Lemma fold_addToken_lookup toks offset result id :
  Forall (fun tok => tok_id tok <> id) toks ->
  TokenizerResult.tokenMap
    (fold_left (fun r tok => TokenizerResult.addToken r tok offset) toks result) !! id
  = TokenizerResult.tokenMap result !! id.
Proof.
  revert result. induction toks as [|tok toks IH]; intros result Hall; [done|].
  apply Forall_cons in Hall as [Hne Hall]. simpl. rewrite IH by done.
  simpl. by apply lookup_insert_ne.
Qed.

(** The finalizers only add entries for token objects of their own. *)
Lemma finalize_lookup tps sourceLength result nid result' nid' id :
  (id < nid)%nat ->
  Tokenizer.finalize tps sourceLength result nid = (result', nid') ->
  (nid <= nid')%nat /\
  TokenizerResult.tokenMap result' !! id = TokenizerResult.tokenMap result !! id.
Proof.
  revert result nid. induction tps as [|tp tps IH]; intros result nid Hid; simpl.
  - intros; simplify_eq. split; [lia|done].
  - destruct (finalizer tp nid) as [toks n1] eqn:Ef.
    apply finalizer_ids in Ef as [Hle Hids].
    intros Hf. apply IH in Hf as [Hle' ->]; [|lia]. split; [lia|].
    apply fold_addToken_lookup. eapply Forall_impl; [exact Hids|].
    simpl. intros; lia.
Qed.

(** What the loop writes into the position mapping: a token of a round
    is recorded at the value of [pos] at the start of the round plus the
    consumed lengths of the pairs the round applied before the last
    pair that carries this token object. *)
Lemma recorded_at_running_offset (fuel : nat) (tps : list TokenProcessor)
  (source : string) (st : Tokenizer.state) (p : Z) (res : emission) (i : nat)
  (tok : Token) (c : Z) :
  Tokenizer.run fuel tps source = Some (Ok st) ->
  (p, res) ∈ Tokenizer.rounds st ->
  res !! i = Some (Some tok, c) ->
  (forall j tok' c', (i < j)%nat -> res !! j = Some (Some tok', c') ->
     tok_id tok' <> tok_id tok) ->
  TokenizerResult.tokenMap (Tokenizer.result st) !! tok_id tok
  = Some (p + consumed_before i res).
Proof.
  unfold Tokenizer.run.
  destruct (Tokenizer.loop fuel source _) as [[st1|]|] eqn:El; [|done..].
  apply loop_book_keeping in El as [Hrounds Hdom]; [|apply book_keeping_start].
  unfold Tokenizer.finish. case_bool_decide; [done|].
  destruct (Tokenizer.finalize _ _ _ _) as [result' nid] eqn:Ef.
  intros ? Hin Hi Hlast; simplify_eq. simpl in *.
  rewrite Forall_forall in Hrounds.
  pose proof (Hrounds _ Hin _ _ (recorded_last res p i tok c Hi Hlast)) as Hm.
  simpl in Hm.
  assert (tok_id tok < Tokenizer.created st1)%nat as Hlt by (apply Hdom; eauto).
  apply (finalize_lookup _ _ _ _ _ _ _ Hlt) in Ef as [Hle Hsame].
  rewrite lookup_insert_ne by lia. by rewrite Hsame.
Qed.

(** The round of [nested] that begins at offset 4 hands over two pairs
    of length 3; the token of the second is recorded at offset 7. *)
Lemma nested_not_anchored :
  ~ anchored_at_round_start Examples.processors Examples.nested.
Proof.
  intros H.
  destruct (Tokenizer.run 20 Examples.processors Examples.nested) as [[st|e]|] eqn:E;
    [|vm_compute in E; discriminate..].
  pose (tok := {| tok_id := 3; tok_class := ScopeStartToken |}).
  specialize (H 20%nat st 4 [(Some tok, 3); (Some tok, 3)] tok 3 E).
  vm_compute in E. simplify_eq.
  assert (Some 7 = Some 4) as Habs; [|discriminate].
  apply H.
  - apply list_elem_of_lookup. exists 4%nat. reflexivity.
  - left.
Qed.

(** C3, at a text the code accepts. The second line of [nested] is
    indented by three spaces after a first line indented by one. The
    round at offset 4 matches the line feed before it and the three
    spaces, from offset 3 up to offset 7, and the indent processor hands
    over its [ScopeStartToken] twice, each time with the consumed length
    3. [tokenize] adds the first length to [pos] before it records the
    second pair, so the token is recorded at offset 7, the first
    character after the indentation that made it, and not at offset 4,
    where the round began and where it was captured. *)
Theorem scope_start_recorded_past_its_indent :
  (exists m, IndentScopeProcessor.reScope Examples.nested (4 - 1) = Some m /\
             m_end m = 7) /\
  match Tokenizer.run 20 Examples.processors Examples.nested with
  | Some (Ok st) =>
      last (Tokenizer.rounds st)
      = Some (4, [(Some {| tok_id := 3; tok_class := ScopeStartToken |}, 3);
                  (Some {| tok_id := 3; tok_class := ScopeStartToken |}, 3)]) /\
      TokenizerResult.tokenMap (Tokenizer.result st) !! 3%nat = Some 7
  | _ => False
  end /\
  ~ anchored_at_round_start Examples.processors Examples.nested.
Proof.
  split_and!.
  - eexists. split; [vm_compute; reflexivity|reflexivity].
  - vm_compute. split; reflexivity.
  - exact nested_not_anchored.
Qed.

(** C4, at a text the code accepts: the two [ScopeStartToken]s of the
    doubly indented line of [nested] are one object, so the token list
    has nine entries and the position mapping eight, and the one entry
    of that object holds the offset of its second emission. *)
Theorem nested_shares_a_mapping_entry :
  match Tokenizer.tokenize 20 Examples.processors Examples.nested with
  | Some (Ok r) =>
      length (TokenizerResult.tokens r) = 9%nat /\
      size (TokenizerResult.tokenMap r) = 8%nat /\
      TokenizerResult.tokens r !! 3%nat
        = Some {| tok_id := 3; tok_class := ScopeStartToken |} /\
      TokenizerResult.tokens r !! 4%nat
        = Some {| tok_id := 3; tok_class := ScopeStartToken |} /\
      TokenizerResult.tokenMap r !! 3%nat = Some 7
  | _ => False
  end.
Proof. vm_compute. repeat split; reflexivity. Qed.

(** ** Balance of the scope tokens *)

(** C5, at a text the code accepts: the first indent of [two_spaces] is
    two spaces wide, so it opens one scope and leaves [level] at 2; the
    finalizer then yields one [ScopeEndToken] per unit of [level], two
    of them. The run has one scope start and two scope ends. *)
Theorem two_spaces_unbalanced :
  let opened := {| IndentScopeProcessor.allowMixed := false;
                   IndentScopeProcessor.level := 2;
                   IndentScopeProcessor.mode := Some 2;
                   IndentScopeProcessor.divider := 2 |} in
  IndentScopeProcessor.process (IndentScopeProcessor.init false) Examples.two_spaces 1 0
  = Ok ([(Some {| tok_id := 0; tok_class := ScopeStartToken |}, 2)], opened, 1%nat) /\
  IndentScopeProcessor.finalizer opened 1
  = ([{| tok_id := 1; tok_class := ScopeEndToken |};
      {| tok_id := 2; tok_class := ScopeEndToken |}], 3%nat) /\
  match Tokenizer.tokenize 20 Examples.processors Examples.two_spaces with
  | Some (Ok r) =>
      count_class ScopeStartToken (TokenizerResult.tokens r) = 1%nat /\
      count_class ScopeEndToken (TokenizerResult.tokens r) = 2%nat
  | _ => False
  end.
Proof. vm_compute. repeat split; reflexivity. Qed.

(** ** The unit lock of the indent processor *)

Section MixedIndentFacts.
Import IndentScopeProcessor MixedIndent.

Lemma locked_to_spaces_reached :
  process (init true) same_depth_other_unit 1 0
  = Ok ([(Some {| tok_id := 0; tok_class := ScopeStartToken |}, 2)],
        locked_to_spaces, 1%nat).
Proof. reflexivity. Qed.

(** The line of two tabs has the current depth, 2, and the processor
    tolerates mixing, yet the call is a mixed-indent error. *)
Lemma tolerant_still_fails : ~ tolerant_release locked_to_spaces same_depth_other_unit 5.
Proof.
  intros H.
  destruct (reScope same_depth_other_unit (5 - 1)) as [res|] eqn:E;
    [|vm_compute in E; discriminate].
  destruct (H res 1%nat E) as [_ Hrel].
  - vm_compute in E. simplify_eq. done.
  - destruct Hrel as (pairs & self' & nid' & Hp & _).
    + reflexivity.
    + vm_compute in E. simplify_eq. reflexivity.
    + done.
    + vm_compute in Hp. discriminate.
Qed.

End MixedIndentFacts.

(** The unit lock, for a call of [process] that matches a run of tabs
    or spaces: while a unit is locked, a run of the other kind is a
    mixed-indent error, whether or not mixing is tolerated; when mixing
    is tolerated, a run that passes this check and whose length is the
    current depth is skipped and leaves no unit locked; and a call made
    while no unit is locked adopts the kind and the length of its run,
    of either kind, and is never a mixed-indent error. *)
Lemma indent_unit_lock (self : IndentScopeProcessor.t) (content : string) (offset : Z)
  (nid : nat) (res : Match) :
  IndentScopeProcessor.reScope content (offset - 1) = Some res ->
  lastindex res <> Some 3 ->
  let newLevel := m_end res - offset in
  (is_Some (IndentScopeProcessor.mode self) ->
   IndentScopeProcessor.mode self <> lastindex res ->
   IndentScopeProcessor.process self content offset nid
   = Raise (TokenizerError "mixed indent")) /\
  (IndentScopeProcessor.allowMixed self = true ->
   IndentScopeProcessor.mode self = None \/
     IndentScopeProcessor.mode self = lastindex res ->
   newLevel = IndentScopeProcessor.level self -> newLevel <> 0 ->
   exists self',
     IndentScopeProcessor.process self content offset nid
     = Ok ([(None, newLevel)], self', nid) /\
     IndentScopeProcessor.mode self' = None /\
     IndentScopeProcessor.level self' = IndentScopeProcessor.level self) /\
  (IndentScopeProcessor.mode self = None ->
   IndentScopeProcessor.lock self offset res
   = Ok (newLevel, IndentScopeProcessor.set_mode self (lastindex res) newLevel) /\
   IndentScopeProcessor.process self content offset nid
   <> Raise (TokenizerError "mixed indent")).
Proof.
  intros Hm H3 newLevel. unfold IndentScopeProcessor.process. rewrite Hm.
  unfold IndentScopeProcessor.lock.
  rewrite bool_decide_eq_false_2 by done. fold newLevel. split_and!.
  - intros [m Hmode] Hne. rewrite Hmode in *.
    rewrite bool_decide_eq_true_2 by done. done.
  - intros Hallow Hmode Hsame Hnz.
    assert (forall s, IndentScopeProcessor.allowMixed s = true ->
              IndentScopeProcessor.level s = newLevel ->
              IndentScopeProcessor.yields s newLevel nid
              = Ok ([(None, newLevel)],
                    IndentScopeProcessor.set_mode s None (IndentScopeProcessor.divider s),
                    nid)) as Hy.
    { intros s Ha Hl. unfold IndentScopeProcessor.yields.
      rewrite bool_decide_eq_false_2 by (rewrite Hl; auto).
      rewrite bool_decide_eq_true_2 by done. by rewrite Ha. }
    destruct (IndentScopeProcessor.mode self) as [m|] eqn:Em.
    + destruct Hmode as [?|Heq]; [done|].
      rewrite bool_decide_eq_false_2 by (rewrite Heq; auto).
      rewrite Hy by done. eauto.
    + rewrite Hy by done. eexists. split; [done|]. done.
  - intros Hmode. rewrite Hmode. split; [done|].
    unfold IndentScopeProcessor.yields.
    repeat case_match; discriminate.
Qed.

(** After a release the next run sets the indent width to its own
    length, so a deeper line never fits: its distance to the current
    depth is shorter than the run. *)
Lemma released_then_deeper_fails (self : IndentScopeProcessor.t) (content : string)
  (offset : Z) (nid : nat) (res : Match) :
  IndentScopeProcessor.reScope content (offset - 1) = Some res ->
  lastindex res <> Some 3 ->
  IndentScopeProcessor.mode self = None ->
  0 < IndentScopeProcessor.level self < m_end res - offset ->
  IndentScopeProcessor.process self content offset nid
  = Raise (TokenizerError ("invalid indent multiply, should be "
                             +:+ Py.str (m_end res - offset))).
Proof.
  intros Hm H3 Hmode Hlev. unfold IndentScopeProcessor.process. rewrite Hm.
  unfold IndentScopeProcessor.lock.
  rewrite bool_decide_eq_false_2 by done. rewrite Hmode.
  unfold IndentScopeProcessor.yields. simpl.
  rewrite bool_decide_eq_true_2 by lia.
  destruct (m_end res - offset =? 0) eqn:E0; [lia|].
  rewrite bool_decide_eq_true_2; [done|].
  rewrite Z.abs_neq by lia. rewrite Z.mod_small by lia. lia.
Qed.

(** C6, at texts that mix the units under a processor made with
    [allowMixed=True]. A line indented by spaces after one indented by
    a tab is a mixed-indent error; so is a line of two tabs after a line
    of two spaces, which has the current depth; after two lines of two
    spaces, of which the second releases the lock, a line of three tabs
    fails as an invalid indent multiple. The release harms texts that
    do not mix at all: [regular], indented by two spaces to a level, is
    refused when mixing is allowed and accepted when it is not. *)
Theorem allow_mixed_refuses_mixing :
  Tokenizer.tokenize 20 MixedIndent.tolerant Examples.mixed
  = Some (Raise (TokenizerError "mixed indent")) /\
  Tokenizer.tokenize 20 MixedIndent.tolerant MixedIndent.same_depth_other_unit
  = Some (Raise (TokenizerError "mixed indent")) /\
  ~ MixedIndent.tolerant_release MixedIndent.locked_to_spaces
      MixedIndent.same_depth_other_unit 5 /\
  Tokenizer.tokenize 20 MixedIndent.tolerant MixedIndent.released_then_tabs
  = Some (Raise (TokenizerError "invalid indent multiply, should be 3")) /\
  Tokenizer.tokenize 20 MixedIndent.tolerant MixedIndent.regular
  = Some (Raise (TokenizerError "invalid indent multiply, should be 4")) /\
  match Tokenizer.tokenize 20 Examples.processors MixedIndent.regular with
  | Some (Ok r) =>
      map tok_class (TokenizerResult.tokens r)
      = [EndOfLineToken; ScopeStartToken; EndOfLineToken; EndOfLineToken;
         ScopeStartToken; ScopeEndToken; ScopeEndToken; ScopeEndToken;
         ScopeEndToken; EndOfFileToken]
  | _ => False
  end.
Proof.
  split_and!; try (vm_compute; reflexivity).
  exact tolerant_still_fails.
Qed.

(** ** What makes [tokenize] fail *)

Lemma last_char_app (s : string) (c : ascii) (t : string) :
  last_char (s +:+ String c t) = last_char (String c t).
Proof.
  induction s as [|d s IH]; [done|].
  change (String d s +:+ String c t) with (String d (s +:+ String c t)).
  simpl last_char at 1. rewrite IH.
  destruct (s +:+ String c t) eqn:E; [|done].
  destruct s; discriminate.
Qed.

Lemma append_assoc (a b c : string) : (a +:+ b) +:+ c = a +:+ (b +:+ c).
Proof.
  induction a as [|x a IH]; [reflexivity|].
  change (String x ((a +:+ b) +:+ c) = String x (a +:+ b +:+ c)). congruence.
Qed.

(** A rendered pointer ends with the caret. *)
Lemma pointer_ends_with_caret (head : string) (v : TokenMappingView.t) :
  last_char (head +:+ TokenMappingView.makePointer v) = Some "^"%char.
Proof.
  unfold TokenMappingView.makePointer. cbv zeta.
  rewrite <- !append_assoc. by rewrite last_char_app.
Qed.

Lemma digits_last (d : Decimal.uint) (c : ascii) :
  last_char (NilEmpty.string_of_uint d) = Some c -> is_digit c = true.
Proof.
  induction d; simpl; [done|..];
    (destruct (NilEmpty.string_of_uint d) eqn:E;
     [intros; simplify_eq; reflexivity|exact IHd]).
Qed.

(** [str(n)] is not empty and ends with a digit. *)
Lemma str_last (n : Z) :
  exists c t, Py.str n = String c t /\
    forall x, last_char (Py.str n) = Some x -> is_digit x = true.
Proof.
  unfold Py.str, NilZero.string_of_int.
  assert (forall d, exists c t, NilZero.string_of_uint d = String c t /\
            forall x, last_char (NilZero.string_of_uint d) = Some x ->
                      is_digit x = true) as Hu.
  { intros d. pose proof (digits_last d) as Hd. unfold NilZero.string_of_uint.
    destruct d; try (eexists _, _; split; [reflexivity|]); try exact Hd.
    intros x Hx. simpl in Hx. simplify_eq. reflexivity. }
  destruct (Z.to_int n) as [d|d].
  - apply Hu.
  - destruct (Hu d) as (c & t & Hs & Hl). eexists _, _. split; [reflexivity|].
    rewrite Hs in *. exact Hl.
Qed.

Section Failures.
Context (source : string).
Import Tokenizer.

(** How a call of the indent processor fails. *)
Lemma indent_process_fails self pos nid e :
  IndentScopeProcessor.invariant self -> 0 <= pos ->
  IndentScopeProcessor.process self source pos nid = Raise e ->
  exists res,
    IndentScopeProcessor.reScope source (pos - 1) = Some res /\
    indent_failure self pos res e.
Proof.
  intros Hinv Hpos. unfold IndentScopeProcessor.process.
  destruct (IndentScopeProcessor.reScope source (pos - 1)) as [res|] eqn:Em; [|done].
  pose proof Em as Hat. apply IndentFacts.reScope_at in Hat as [_ Hres]; [|done].
  exists res. split; [done|].
  destruct (IndentScopeProcessor.lock self pos res) as [[newLevel self1]|e1] eqn:El.
  - pose proof El as Hl.
    apply IndentFacts.lock_spec in Hl as (Hinv1 & Hlev & Hnn & _ & Hdiv); [|done..].
    match goal with
    | Hy : IndentScopeProcessor.yields _ _ _ = _ |- _ => revert Hy
    end.
    unfold IndentScopeProcessor.yields.
    case_bool_decide as Hne; [|case_bool_decide; done].
    assert (0 < IndentScopeProcessor.divider self1) as Hd.
    { destruct (decide (newLevel = 0)) as [->|]; [apply Hinv1; right; lia|lia]. }
    destruct (_ =? 0) eqn:E0; [lia|].
    case_bool_decide as Hmod; [|done]. intros; simplify_eq. right.
    exists newLevel, self1. rewrite <- Hlev. done.
  - intros; simplify_eq. left. revert El. unfold IndentScopeProcessor.lock.
    case_bool_decide as H3; [done|].
    destruct (IndentScopeProcessor.mode self) as [m|] eqn:Emode; [|done].
    case_bool_decide as Hne; [|done]. intros; simplify_eq. eauto.
Qed.

(** An indent error never ends like a rendered pointer. *)
Lemma indent_failure_no_pointer p offset res e :
  indent_failure p offset res e -> ~ carries_pointer source e.
Proof.
  intros Hf (head & pos & ->).
  pose proof (pointer_ends_with_caret head
    {| TokenMappingView.source := source; TokenMappingView.offset := pos |}) as Hlast.
  destruct Hf as [(_ & _ & _ & Heq)|(newLevel & p1 & _ & _ & _ & Heq)];
    injection Heq as Heq; rewrite Heq in Hlast.
  - discriminate.
  - destruct (str_last (IndentScopeProcessor.divider p1)) as (c & t & Hs & Hl).
    rewrite Hs in *. rewrite last_char_app in Hlast. specialize (Hl _ Hlast).
    discriminate.
Qed.

(** A scan fails in the first processor that fails, after every
    processor before it handed over nothing. *)
Lemma scan_fails tps pos nid e :
  scan tps source pos nid = Raise e ->
  exists front tp back front' n1,
    tps = front ++ tp :: back /\
    scan front source pos nid = Ok (front', n1, None) /\
    process tp source pos n1 = Raise e.
Proof.
  revert nid. induction tps as [|tp tps IH]; intros nid; simpl; [done|].
  destruct (process tp source pos nid) as [[[res tp1] n1]|e1] eqn:E.
  - destruct (pairs_of res) eqn:Ep; [|done].
    destruct (scan tps source pos n1) as [[[? ?] ?]|e2] eqn:Es; [done|].
    intros; simplify_eq.
    destruct (IH _ Es) as (front & w & back & front' & n2 & -> & Hf & Hw).
    exists (tp :: front), w, back, (tp1 :: front'), n2. split_and!; [done| |done].
    simpl. by rewrite E, Ep, Hf.
  - intros; simplify_eq. exists [], tp, tps, [], nid. done.
Qed.

(** [pos] never becomes negative. *)
Lemma round_pos st st' b :
  0 <= pos st -> Forall well_formed (tokenProcessors st) ->
  round source st = Ok (b, st') -> 0 <= pos st'.
Proof.
  intros Hpos Hwf. unfold round.
  destruct (scan _ source _ _) as [[[tps nid] [pairs|]]|] eqn:Es; [| |done].
  - destruct (apply_pairs pairs (pos st) (result st)) as [pos' result'] eqn:Ea.
    intros; simplify_eq. simpl.
    replace pos' with (apply_pairs pairs (pos st) (result st)).1 by (by rewrite Ea).
    destruct (decide (pos st <= Py.len source)) as [Hle|Hgt].
    + pose proof (apply_pairs_tiles pairs (pos st) (result st)
                    (scan_nonneg _ _ _ _ _ _ _ (conj Hpos Hle) Hwf Es)) as Ht.
      apply tiles_le in Ht. lia.
    + pose proof (scan_past_end source (tokenProcessors st) (pos st) (created st)
                    ltac:(lia) Hwf) as Hs.
      rewrite Es in Hs. destruct Hs as [_ Hs].
      destruct (Hs (pos st) (created st) ltac:(lia)) as (tok & n' & Es').
      rewrite Es in Es'. simplify_eq. pose proof (len_nonneg source).
      destruct tok; simpl; lia.
  - intros; simplify_eq. done.
Qed.

Lemma round_keeps_well_formed st st' b :
  0 <= pos st -> Forall well_formed (tokenProcessors st) ->
  round source st = Ok (b, st') -> Forall well_formed (tokenProcessors st').
Proof.
  intros Hpos Hwf. unfold round.
  destruct (scan _ source _ _) as [[[tps nid] found]|] eqn:Es; [|done].
  pose proof (scan_well_formed _ _ _ _ _ _ _ Hpos Hwf Es) as [? _].
  destruct found; [destruct (apply_pairs _ _ _)|]; intros; simplify_eq; done.
Qed.

(** Where the loop is when it stops: in a state it visits, with the scan
    of that state failing, or finding nothing. *)
Lemma loop_stops fuel st0 r :
  0 <= pos st0 -> Forall well_formed (tokenProcessors st0) ->
  loop fuel source st0 = Some r ->
  exists st,
    visits source st0 st /\ 0 <= pos st /\ Forall well_formed (tokenProcessors st) /\
    match r with
    | Raise e => scan (tokenProcessors st) source (pos st) (created st) = Raise e
    | Ok st' =>
        pos st' = pos st /\
        exists tps' nid',
          scan (tokenProcessors st) source (pos st) (created st) = Ok (tps', nid', None)
    end.
Proof.
  revert st0. induction fuel as [|fuel IH]; intros st0 Hpos Hwf; [done|].
  simpl. destruct (round source st0) as [[b st1]|e1] eqn:Er.
  - destruct b.
    + intros Hl. destruct (IH st1) as (st & Hv & Hrest); [| |exact Hl|].
      * eapply round_pos; eauto.
      * eapply round_keeps_well_formed; eauto.
      * exists st. split; [|done]. econstructor; eauto.
    + intros; simplify_eq. exists st0. split; [constructor|].
      split; [done|]. split; [done|].
      revert Er. unfold round.
      destruct (scan _ source _ _) as [[[tps nid] [pairs|]]|] eqn:Es;
        [destruct (apply_pairs _ _ _); done| |done].
      intros; simplify_eq. simpl. eauto.
  - intros; simplify_eq. exists st0. split; [constructor|].
    split; [done|]. split; [done|].
    revert Er. unfold round.
    destruct (scan _ source _ _) as [[[tps nid] found]|e2] eqn:Es.
    + destruct found; [destruct (apply_pairs _ _ _)|]; done.
    + intros; simplify_eq. done.
Qed.

End Failures.

(** C9 (as amended). A failure of [tokenize] comes about in a state the
    loop visits, at the offset [pos] of that state, in one of three
    ways. Every processor was asked at that offset and none handed over
    a pair, and the offset is not the end of the text: the error is a
    [TokenizerError] whose message is the line "Unable to tokenize:" and
    the pointer rendered for that very offset. Or the processors were
    asked in order, the ones before the failing one handed over nothing,
    and the failing one is an indent processor: the error is its own
    [TokenizerError], "mixed indent" when a unit is locked and the run
    at that offset is of the other kind, or "invalid indent multiply,
    should be" and the indent width this call works with, and it
    carries no pointer. Or the failing one is a pattern processor that
    matched at that offset and raised while it made its token from the
    match: that exception leaves [tokenize] as it is. *)
Theorem tokenize_failures (fuel : nat) (tps : list TokenProcessor) (source : string)
  (e : exn) :
  Forall well_formed tps ->
  Tokenizer.tokenize fuel tps source = Some (Raise e) ->
  exists st,
    visits source (Tokenizer.start tps source) st /\ 0 <= Tokenizer.pos st /\
    (((exists tps' nid',
         Tokenizer.scan (Tokenizer.tokenProcessors st) source (Tokenizer.pos st)
           (Tokenizer.created st) = Ok (tps', nid', None)) /\
      Tokenizer.pos st <> Py.len source /\
      e = unable_to_tokenize source (Tokenizer.pos st) /\
      carries_pointer source e) \/
     (exists front tp back front' n1,
        Tokenizer.tokenProcessors st = front ++ tp :: back /\
        Tokenizer.scan front source (Tokenizer.pos st) (Tokenizer.created st)
        = Ok (front', n1, None) /\
        process tp source (Tokenizer.pos st) n1 = Raise e /\
        match tp with
        | IndentScope p =>
            (exists res,
               IndentScopeProcessor.reScope source (Tokenizer.pos st - 1) = Some res /\
               indent_failure p (Tokenizer.pos st) res e) /\
            ~ carries_pointer source e
        | PatternBacked p =>
            exists m,
              PatternProcessor.regex p source (Tokenizer.pos st) = Some m /\
              PatternProcessor.token_of p m = Raise e
        end)).
Proof.
  intros Hwf. unfold Tokenizer.tokenize, Tokenizer.run.
  destruct (Tokenizer.loop fuel source _) as [[st'|e1]|] eqn:El; [| |done].
  - apply loop_stops in El as (st & Hv & Hpos & _ & Heq & Hscan); [|simpl; done..].
    unfold Tokenizer.finish. case_bool_decide as Hend;
      [|by destruct (Tokenizer.finalize _ _ _ _)].
    intros; simplify_eq. exists st. split; [done|]. split; [done|]. left.
    rewrite Heq in *. split_and!; [done..|].
    exists ("Unable to tokenize:" +:+ String Py.LF EmptyString), (Tokenizer.pos st).
    unfold unable_to_tokenize. by rewrite append_assoc.
  - apply loop_stops in El as (st & Hv & Hpos & Hwf' & Hscan); [|simpl; done..].
    intros; simplify_eq. exists st. split; [done|]. split; [done|]. right.
    apply scan_fails in Hscan as (front & tp & back & front' & n1 & Htps & Hf & Hp).
    exists front, tp, back, front', n1. split_and!; [done..|].
    rewrite Htps in Hwf'. apply Forall_app in Hwf' as [_ Hwf'].
    apply Forall_cons in Hwf' as [Hwf1 _].
    destruct tp as [p|p]; simpl in Hp.
    + unfold PatternProcessor.process in Hp.
      destruct (PatternProcessor.regex p source (Tokenizer.pos st)) as [m|]; [|done].
      exists m. split; [done|].
      destruct (PatternProcessor.token_of p m) as [[cls|]|e1]; by simplify_eq.
    + destruct (IndentScopeProcessor.process p source (Tokenizer.pos st) n1)
        as [[[? ?] ?]|e1] eqn:E; [done|]. simplify_eq.
      destruct (indent_process_fails source p _ _ _ Hwf1 Hpos E) as (res & Hm & Hfail).
      split; [eauto|]. eapply indent_failure_no_pointer; eauto.
Qed.

Lemma tokenize_failures_witness :
  let e := TokenizerError "mixed indent" in
  exists st,
    visits Examples.mixed (Tokenizer.start Examples.processors Examples.mixed) st /\
    0 <= Tokenizer.pos st /\
    (((exists tps' nid',
         Tokenizer.scan (Tokenizer.tokenProcessors st) Examples.mixed (Tokenizer.pos st)
           (Tokenizer.created st) = Ok (tps', nid', None)) /\
      Tokenizer.pos st <> Py.len Examples.mixed /\
      e = unable_to_tokenize Examples.mixed (Tokenizer.pos st) /\
      carries_pointer Examples.mixed e) \/
     (exists front tp back front' n1,
        Tokenizer.tokenProcessors st = front ++ tp :: back /\
        Tokenizer.scan front Examples.mixed (Tokenizer.pos st) (Tokenizer.created st)
        = Ok (front', n1, None) /\
        process tp Examples.mixed (Tokenizer.pos st) n1 = Raise e /\
        match tp with
        | IndentScope p =>
            (exists res,
               IndentScopeProcessor.reScope Examples.mixed (Tokenizer.pos st - 1)
               = Some res /\
               indent_failure p (Tokenizer.pos st) res e) /\
            ~ carries_pointer Examples.mixed e
        | PatternBacked p =>
            exists m,
              PatternProcessor.regex p Examples.mixed (Tokenizer.pos st) = Some m /\
              PatternProcessor.token_of p m = Raise e
        end)).
Proof.
  intros e.
  apply (tokenize_failures 20 Examples.processors Examples.mixed e
           processors_well_formed).
  vm_compute. reflexivity.
Defined.

(** Against C9 as it is written: the second indent of [mixed] is made of
    spaces after a first one made of a tab; the error that leaves
    [tokenize] is the indent processor's, and its message is just
    "mixed indent". *)
Lemma mixed_indent_has_no_pointer :
  ~ every_failure_points Examples.processors Examples.mixed.
Proof.
  intros H.
  destruct (H 20%nat (TokenizerError "mixed indent")) as (head & pos & Heq).
  - vm_compute. reflexivity.
  - injection Heq as Heq.
    pose proof (pointer_ends_with_caret head
      {| TokenMappingView.source := Examples.mixed;
         TokenMappingView.offset := pos |}) as Hlast.
    rewrite <- Heq in Hlast. discriminate.
Qed.

(** ** The rendered pointer *)

(** C8, at views the code can build: for the token [b] of the line [ab]
    the caret is put in column 5, under [a], while the token is in
    column 6; for the token [a] of a line with a tab after it the caret
    is put in column 8 while the token is in column 5. *)
Theorem pointer_misses_token :
  let second := {| TokenMappingView.source := "ab" +:+ Examples.nl;
                   TokenMappingView.offset := 1 |} in
  let before_tab := {| TokenMappingView.source := "a" +:+ Examples.tab +:+ "b"
                                                   +:+ Examples.nl;
                       TokenMappingView.offset := 0 |} in
  TokenMappingView.makePointer second = "1:1: ab" +:+ Examples.nl +:+ "     ^" /\
  TokenMappingView.pointerOffset second = 5 /\ token_column second = 6 /\
  TokenMappingView.makePointer before_tab
  = "1:0: a    b" +:+ Examples.nl +:+ "        ^" /\
  TokenMappingView.pointerOffset before_tab = 8 /\ token_column before_tab = 5.
Proof. vm_compute. repeat split; reflexivity. Qed.

(** ** Merging value processors *)

Module MergeFacts.
Import ValueProcessor.

Lemma fresh_object (h : store) : objects h !! fresh (dom (objects h)) = None.
Proof. apply not_elem_of_dom. apply is_fresh. Qed.

(** With all references in place a merge returns a new object and
    changes one list and one dictionary. *)
Lemma or_spec (h : store) (self other : nat) (s o : t)
  (ts to : list pytype) (cs co : gmap pytype callable) :
  objects h !! self = Some s -> objects h !! other = Some o ->
  lists h !! types s = Some ts -> lists h !! types o = Some to ->
  dicts h !! constructors s = Some cs -> dicts h !! constructors o = Some co ->
  or_ self other h
  = Some (fresh (dom (objects h)),
          {| objects := <[fresh (dom (objects h)) := merged s o]> (objects h);
             lists := <[types s := ts ++ to]> (lists h);
             dicts := <[constructors s := co ∪ cs]> (dicts h) |}).
Proof.
  intros Hs Ho Hts Hto Hcs Hco. unfold or_.
  rewrite Hs. simpl. rewrite Ho. simpl. rewrite Hts. simpl. rewrite Hto. simpl.
  rewrite Hcs. simpl. rewrite Hco. simpl. reflexivity.
Qed.

(** In a closed store a merge of two objects succeeds; the store stays
    closed, keeps its objects, and holds the merged object. *)
Lemma or_closed (h : store) (self other : nat) (s o : t) :
  closed h -> objects h !! self = Some s -> objects h !! other = Some o ->
  exists n h',
    or_ self other h = Some (n, h') /\ closed h' /\ keeps_objects h h' /\
    objects h' !! n = Some (merged s o).
Proof.
  intros Hcl Hs Ho.
  destruct (Hcl _ _ Hs) as [[ts Hts] [cs Hcs]].
  destruct (Hcl _ _ Ho) as [[to Hto] [co Hco]].
  eexists _, _. split; [eapply or_spec; eauto|]. split_and!.
  - intros l x. simpl. intros Hl.
    assert (is_Some (lists h !! types x) /\ is_Some (dicts h !! constructors x))
      as [Hlx Hdx].
    { apply lookup_insert_Some in Hl as [[_ <-]|[_ Hl]]; [|by eapply Hcl].
      simpl. split; eauto. }
    split.
    + destruct (decide (types s = types x)) as [->|Hne].
      * rewrite lookup_insert_eq. eauto.
      * by rewrite lookup_insert_ne.
    + destruct (decide (constructors s = constructors x)) as [->|Hne].
      * rewrite lookup_insert_eq. eauto.
      * by rewrite lookup_insert_ne.
  - intros l x Hl. simpl. rewrite lookup_insert_ne; [done|].
    intros <-. by rewrite fresh_object in Hl.
  - simpl. apply lookup_insert_eq.
Qed.



(** [process] reads the store only through the list and the dictionary
    of the object. *)
Lemma process_store (re_match : Regex -> string -> Z -> option Match)
  (h h' : store) (X Y : nat) (x : t) (content : string) (offset : Z) :
  objects h !! X = Some x -> objects h' !! Y = Some x ->
  lists h !! types x = lists h' !! types x ->
  dicts h !! constructors x = dicts h' !! constructors x ->
  process re_match h X content offset = process re_match h' Y content offset.
Proof.
  intros HX HY Hl Hd. unfold process. rewrite HX, HY. simpl. f_equal.
  unfold PatternProcessor.process. simpl.
  destruct (re_match (regex x) content offset) as [m|]; [|done].
  unfold token_of. by rewrite Hl, Hd.
Qed.


(** [(A | B) | C] in a closed store. *)
Lemma merge_left (h : store) (A B C : nat) (a b c : t) :
  closed h ->
  objects h !! A = Some a -> objects h !! B = Some b -> objects h !! C = Some c ->
  exists AB h1 X h2,
    or_ A B h = Some (AB, h1) /\ or_ AB C h1 = Some (X, h2) /\
    closed h2 /\ keeps_objects h h2 /\
    objects h2 !! X = Some (merged (merged a b) c).
Proof.
  intros Hcl Ha Hb Hc.
  destruct (or_closed h A B a b Hcl Ha Hb) as (AB & h1 & H1 & Hcl1 & Hk1 & HAB).
  destruct (or_closed h1 AB C _ c Hcl1 HAB (Hk1 _ _ Hc))
    as (X & h2 & H2 & Hcl2 & Hk2 & HX).
  exists AB, h1, X, h2. split_and!; try done.
  intros l x Hl. apply Hk2, Hk1, Hl.
Qed.

(** [A | (B | C)] in a closed store. *)
Lemma merge_right (h : store) (A B C : nat) (a b c : t) :
  closed h ->
  objects h !! A = Some a -> objects h !! B = Some b -> objects h !! C = Some c ->
  exists BC h1 Y h2,
    or_ B C h = Some (BC, h1) /\ or_ A BC h1 = Some (Y, h2) /\
    closed h2 /\ keeps_objects h h2 /\
    objects h2 !! Y = Some (merged a (merged b c)).
Proof.
  intros Hcl Ha Hb Hc.
  destruct (or_closed h B C b c Hcl Hb Hc) as (BC & h1 & H1 & Hcl1 & Hk1 & HBC).
  destruct (or_closed h1 A BC a _ Hcl1 (Hk1 _ _ Ha) HBC)
    as (Y & h2 & H2 & Hcl2 & Hk2 & HY).
  exists BC, h1, Y, h2. split_and!; try done.
  intros l x Hl. apply Hk2, Hk1, Hl.
Qed.

End MergeFacts.




(** The dictionary matters as well: [truth] and [name] hold one
    dictionary, [yes_no] another that converts [bool] in its own way.
    After [(truth | yes_no) | name] a [bool] is converted as [yes_no]
    does, after [truth | (yes_no | name)] as [truth] does. *)
Lemma shared_converters_order_matters :
  ~ merge_order_free ValueExamples.sharing ValueExamples.truth.1 ValueExamples.yes_no.1
      ValueExamples.name.1.
Proof.
  intros H.
  destruct (ValueProcessor.or_ ValueExamples.truth.1 ValueExamples.yes_no.1
              ValueExamples.sharing) as [[AB h1]|] eqn:E1;
    [|vm_compute in E1; discriminate].
  destruct (ValueProcessor.or_ ValueExamples.yes_no.1 ValueExamples.name.1
              ValueExamples.sharing) as [[BC h1']|] eqn:E1';
    [|vm_compute in E1'; discriminate].
  destruct (ValueProcessor.or_ AB ValueExamples.name.1 h1) as [[X h2]|] eqn:E2;
    [|vm_compute in E1; simplify_eq; vm_compute in E2; discriminate].
  destruct (ValueProcessor.or_ ValueExamples.truth.1 BC h1') as [[Y h2']|] eqn:E2';
    [|vm_compute in E1'; simplify_eq; vm_compute in E2'; discriminate].
  specialize (H _ _ _ _ _ _ _ _ E1 E2 E1' E2' (ValueExamples.reports 1 "true")
                "true" 0).
  vm_compute in E1, E1'. injection E1 as <- <-. injection E1' as <- <-.
  vm_compute in E2, E2'. injection E2 as <- <-. injection E2' as <- <-.
  vm_compute in H. discriminate H.
Qed.

(** And so does the list of [A] when [C] holds it: with
    [NumberProcessor] as [A] and as [C] the list is float, int, bool,
    float, int, bool after [(A | B) | A] and float, int, bool, float, int
    after [A | (B | A)], neither of them the types of the three operands
    from left to right once. The two differ in their sixth entry, which
    an engine that reports a sixth group brings out. *)
Lemma shared_types_order_matters :
  ~ merge_order_free ValueExamples.built ValueExamples.number.1 ValueExamples.boolean.1
      ValueExamples.number.1.
Proof.
  intros H.
  destruct (ValueProcessor.or_ ValueExamples.number.1 ValueExamples.boolean.1
              ValueExamples.built) as [[AB h1]|] eqn:E1;
    [|vm_compute in E1; discriminate].
  destruct (ValueProcessor.or_ ValueExamples.boolean.1 ValueExamples.number.1
              ValueExamples.built) as [[BC h1']|] eqn:E1';
    [|vm_compute in E1'; discriminate].
  destruct (ValueProcessor.or_ AB ValueExamples.number.1 h1) as [[X h2]|] eqn:E2;
    [|vm_compute in E1; simplify_eq; vm_compute in E2; discriminate].
  destruct (ValueProcessor.or_ ValueExamples.number.1 BC h1') as [[Y h2']|] eqn:E2';
    [|vm_compute in E1'; simplify_eq; vm_compute in E2'; discriminate].
  specialize (H _ _ _ _ _ _ _ _ E1 E2 E1' E2' (ValueExamples.reports 6 "true")
                "true" 0).
  vm_compute in E1, E1'. injection E1 as <- <-. injection E1' as <- <-.
  vm_compute in E2, E2'. injection E2 as <- <-. injection E2' as <- <-.
  vm_compute in H. discriminate H.
Qed.

(** ** The sample value processors *)






(** * Further properties of the code *)

(** ** More on strings *)

Lemma take_drop_str (n : nat) (s : string) : Py.take n s +:+ Py.drop n s = s.
Proof.
  revert s. induction n as [|n IH]; intros [|c s]; try reflexivity.
  change (String c (Py.take n s +:+ Py.drop n s) = String c s). by rewrite IH.
Qed.

Lemma count_app (c : ascii) (a b : string) :
  Py.count c (a +:+ b) = Py.count c a + Py.count c b.
Proof.
  induction a as [|d a IH]; [reflexivity|].
  change (Py.count c (String d (a +:+ b)) = Py.count c (String d a) + Py.count c b).
  simpl. rewrite IH. lia.
Qed.

Lemma count_nonneg (c : ascii) (s : string) : 0 <= Py.count c s.
Proof. induction s as [|d s IH]; simpl; [lia|]. destruct (Ascii.eqb d c); lia. Qed.

Lemma count_take_drop (c : ascii) (n : nat) (s : string) :
  Py.count c s = Py.count c (Py.take n s) + Py.count c (Py.drop n s).
Proof. by rewrite <- count_app, take_drop_str. Qed.

Lemma count_take_le (c : ascii) (n : nat) (s : string) :
  Py.count c (Py.take n s) <= Py.count c s.
Proof.
  rewrite (count_take_drop c n s). pose proof (count_nonneg c (Py.drop n s)). lia.
Qed.

Lemma count_take_mono (c : ascii) (n m : nat) (s : string) :
  (n <= m)%nat -> Py.count c (Py.take n s) <= Py.count c (Py.take m s).
Proof.
  revert m s. induction n as [|n IH]; intros m s Hle.
  - simpl. apply count_nonneg.
  - destruct m as [|m]; [lia|]. destruct s as [|d s]; simpl; [lia|].
    specialize (IH m s ltac:(lia)). lia.
Qed.

Lemma drop_drop_str (n m : nat) (s : string) :
  Py.drop n (Py.drop m s) = Py.drop (m + n) s.
Proof.
  revert s. induction m as [|m IH]; intros s; [reflexivity|].
  destruct s as [|c s]; simpl; [by destruct n|]. apply IH.
Qed.

Lemma drop_take_str (n m : nat) (s : string) :
  Py.drop n (Py.take m s) = Py.take (m - n) (Py.drop n s).
Proof.
  revert m s. induction n as [|n IH]; intros m s.
  - simpl. by rewrite Nat.sub_0_r.
  - destruct m as [|m]; destruct s as [|c s]; simpl; try reflexivity.
    + by destruct (m - n)%nat.
    + apply IH.
Qed.

Lemma take_add_str (a b : nat) (s : string) :
  Py.take (a + b) s = Py.take a s +:+ Py.take b (Py.drop a s).
Proof.
  revert s. induction a as [|a IH]; intros s; [reflexivity|].
  destruct s as [|c s]; simpl; [by destruct b|].
  change (String c (Py.take (a + b) s) = String c (Py.take a s +:+ Py.take b (Py.drop a s))).
  by rewrite IH.
Qed.

Lemma drop_all_str (n : nat) (s : string) :
  (String.length s <= n)%nat -> Py.drop n s = EmptyString.
Proof.
  revert s. induction n as [|n IH]; intros [|c s]; simpl; try reflexivity; try lia.
  intros. apply IH. lia.
Qed.

(** The first occurrence: nothing before it, the character at it. *)
Lemma index_Some (c : ascii) (s : string) (j : nat) :
  Py.index c s = Some j ->
  Py.count c (Py.take j s) = 0 /\ exists rest, Py.drop j s = String c rest.
Proof.
  revert j. induction s as [|d s IH]; intros j; simpl; [done|].
  destruct (Ascii.eqb d c) eqn:E.
  - intros; simplify_eq. apply Ascii.eqb_eq in E as ->. simpl. eauto.
  - destruct (Py.index c s) as [i|]; [|done]. intros; simplify_eq.
    destruct (IH i eq_refl) as [H0 Hrest]. simpl. rewrite E. split; [lia|done].
Qed.

Lemma index_None (c : ascii) (s : string) : Py.index c s = None -> Py.count c s = 0.
Proof.
  induction s as [|d s IH]; simpl; [done|].
  destruct (Ascii.eqb d c); [done|]. destruct (Py.index c s); [done|].
  intros _. rewrite IH by done. lia.
Qed.

(** The last occurrence: the character at it, nothing after it. *)
Lemma rindex_Some (c : ascii) (s : string) (i : nat) :
  Py.rindex c s = Some i ->
  (i < String.length s)%nat /\ Py.count c (Py.drop (S i) s) = 0 /\
  exists rest, Py.drop i s = String c rest.
Proof.
  revert i. induction s as [|d s IH]; intros i; simpl; [done|].
  destruct (Py.rindex c s) as [k|] eqn:Er.
  - intros; simplify_eq. destruct (IH k eq_refl) as (? & ? & ?). split_and!; [lia|done..].
  - destruct (Ascii.eqb d c) eqn:E; [|done]. intros; simplify_eq.
    apply Ascii.eqb_eq in E as ->. split_and!; [lia| |eauto].
    simpl. clear IH. revert Er. induction s as [|e s IH]; simpl; [done|].
    destruct (Py.rindex c s); [done|]. destruct (Ascii.eqb e c); [done|].
    intros _. rewrite IH by done. lia.
Qed.

Lemma rindex_None (c : ascii) (s : string) : Py.rindex c s = None -> Py.count c s = 0.
Proof.
  induction s as [|d s IH]; simpl; [done|].
  destruct (Py.rindex c s); [done|]. destruct (Ascii.eqb d c); [done|].
  intros _. rewrite IH by done. lia.
Qed.

Lemma length_take_str (n : nat) (s : string) :
  String.length (Py.take n s) = Nat.min n (String.length s).
Proof.
  revert s. induction n as [|n IH]; intros [|c s]; simpl; try lia. rewrite IH. lia.
Qed.

Lemma length_app_str (a b : string) :
  String.length (a +:+ b) = (String.length a + String.length b)%nat.
Proof.
  induction a as [|c a IH]; [reflexivity|].
  change (String.length (String c (a +:+ b)) = (S (String.length a) + String.length b)%nat).
  simpl. by rewrite IH.
Qed.

Lemma take_app_str (a b : string) : Py.take (String.length a) (a +:+ b) = a.
Proof.
  induction a as [|c a IH]; [by destruct b|].
  change (String c (Py.take (String.length a) (a +:+ b)) = String c a). by rewrite IH.
Qed.

Lemma drop_app_str (a b : string) : Py.drop (String.length a) (a +:+ b) = b.
Proof. induction a as [|c a IH]; [reflexivity|]. exact IH. Qed.

Lemma last_of_one (k : nat) (t : string) :
  String.length t = S k -> exists c, Py.drop k t = String c EmptyString.
Proof.
  revert t. induction k as [|k IH]; intros [|c t] Hl; simpl in *; try lia.
  - destruct t; [eauto|simpl in Hl; lia].
  - apply IH. lia.
Qed.

(** ** The position view *)

Section ViewFacts.
Context (source : string) (offset : Z).
Let v := {| TokenMappingView.source := source; TokenMappingView.offset := offset |}.
Let before : nat := Z.to_nat (Z.min offset (Py.len source)).

Lemma slice_prefix : 0 <= offset -> Py.slice source 0 offset = Py.take before source.
Proof.
  intros Ho. pose proof (len_nonneg source). unfold Py.slice, Py.bound. simpl.
  destruct (offset <? 0) eqn:E; [lia|].
  replace (Z.max 0 (Z.min 0 (Py.len source))) with 0 by lia. simpl.
  f_equal. unfold before. lia.
Qed.

(** [left]: just after the last line feed before [offset], or 0; no line
    feed lies between it and [offset]. *)
Lemma left_spec :
  0 <= offset ->
  exists l : nat,
    TokenMappingView.left v = Z.of_nat l /\ (l <= before)%nat /\
    Py.count Py.LF (Py.take (before - l) (Py.drop l source)) = 0 /\
    (l = 0%nat \/ exists rest, Py.drop (l - 1) source = String Py.LF rest).
Proof.
  intros Ho. unfold TokenMappingView.left, Py.rfind_upto. simpl.
  rewrite slice_prefix by done.
  assert (before <= String.length source)%nat as Hb.
  { unfold before, Py.len. lia. }
  destruct (Py.rindex Py.LF (Py.take before source)) as [i|] eqn:Er.
  - apply rindex_Some in Er as (Hi & Hc & rest & Hd). rewrite length_take_str in Hi.
    exists (S i). split_and!; [lia|lia| |].
    + by rewrite <- drop_take_str.
    + right. simpl. rewrite Nat.sub_0_r. rewrite drop_take_str in Hd.
      destruct (Py.drop i source) as [|c0 rest0]; [by destruct (before - i)%nat|].
      destruct (before - i)%nat; [done|]. simpl in Hd. simplify_eq. eauto.
  - apply rindex_None in Er. exists 0%nat. split_and!; [done|lia| |by left].
    simpl. by rewrite Nat.sub_0_r.
Qed.

(** [right]: the first line feed at or after [offset], or -1 when
    there is none. *)
Lemma find_spec :
  0 <= offset ->
  (Py.find_from Py.LF source offset = -1 /\
   Py.count Py.LF (Py.drop before source) = 0) \/
  (exists (j : nat) rest,
     Py.find_from Py.LF source offset = offset + Z.of_nat j /\
     offset + Z.of_nat j < Py.len source /\
     Py.count Py.LF (Py.take j (Py.drop before source)) = 0 /\
     Py.drop (before + j) source = String Py.LF rest).
Proof.
  intros Ho. pose proof (len_nonneg source) as Hn. unfold Py.find_from.
  destruct (Py.len source <? offset) eqn:E.
  - left. split; [done|]. rewrite drop_all_str; [done|].
    unfold before, Py.len in *. lia.
  - assert (Py.bound source offset = offset) as ->.
    { unfold Py.bound. destruct (offset <? 0) eqn:E0; lia. }
    assert (before = Z.to_nat offset) as Hb by (unfold before; lia).
    rewrite <- Hb.
    destruct (Py.index Py.LF (Py.drop before source)) as [j|] eqn:Ei.
    + right. apply index_Some in Ei as [Hc [rest Hd]].
      exists j, rest. rewrite drop_drop_str in Hd. split_and!; try done.
      pose proof (length_drop (before + j) source) as Hl. rewrite Hd in Hl.
      simpl in Hl. unfold Py.len. lia.
    + left. split; [done|]. by apply index_None.
Qed.

(** The line, by its two ends. *)
Lemma line_spec :
  0 <= offset ->
  exists l : nat,
    TokenMappingView.left v = Z.of_nat l /\ (l <= before)%nat /\
    Py.count Py.LF (Py.take (before - l) (Py.drop l source)) = 0 /\
    ((exists (j : nat) rest,
        Py.find_from Py.LF source offset = offset + Z.of_nat j /\
        offset + Z.of_nat j < Py.len source /\
        Py.count Py.LF (Py.take j (Py.drop before source)) = 0 /\
        Py.drop (before + j) source = String Py.LF rest /\
        TokenMappingView.line v = Py.take (before + j - l) (Py.drop l source)) \/
     (Py.find_from Py.LF source offset = -1 /\
      Py.count Py.LF (Py.drop before source) = 0 /\
      TokenMappingView.line v
      = Py.take (String.length source - 1 - l) (Py.drop l source))).
Proof.
  intros Ho. destruct (left_spec Ho) as (l & Hl & Hle & Hc & _).
  pose proof (len_nonneg source) as Hn.
  assert (before <= String.length source)%nat as Hb by (unfold before, Py.len; lia).
  exists l. split_and!; try done.
  unfold TokenMappingView.line. simpl. fold v. rewrite Hl.
  assert (Py.bound source (Z.of_nat l) = Z.of_nat l) as Hbl.
  { unfold Py.bound, Py.len. destruct (Z.of_nat l <? 0) eqn:E0; lia. }
  destruct (find_spec Ho) as [[Hf H0]|(j & rest & Hf & Hlt & H0 & Hd)].
  - right. split_and!; try done. rewrite Hf. unfold Py.slice. rewrite Hbl.
    rewrite Nat2Z.id. f_equal. unfold Py.bound, Py.len. simpl. lia.
  - left. exists j, rest. split_and!; try done. rewrite Hf. unfold Py.slice.
    rewrite Hbl, Nat2Z.id. f_equal.
    assert (Py.bound source (offset + Z.of_nat j) = offset + Z.of_nat j) as ->.
    { unfold Py.bound. destruct (offset + Z.of_nat j <? 0) eqn:E0; lia. }
    unfold before. lia.
Qed.

End ViewFacts.

(** X1. Line numbers start at 1, never decrease with the offset and
    never exceed one more than the number of line feeds of the text. *)
Theorem line_number_monotone (source : string) (o1 o2 : Z) :
  0 <= o1 <= o2 ->
  1 <= TokenMappingView.lineNumber
         {| TokenMappingView.source := source; TokenMappingView.offset := o1 |}
    <= TokenMappingView.lineNumber
         {| TokenMappingView.source := source; TokenMappingView.offset := o2 |} /\
  TokenMappingView.lineNumber
    {| TokenMappingView.source := source; TokenMappingView.offset := o2 |}
  <= 1 + Py.count Py.LF source.
Proof.
  intros [H1 H2]. unfold TokenMappingView.lineNumber, Py.count_upto. simpl.
  rewrite !slice_prefix by lia.
  pose proof (count_nonneg Py.LF
    (Py.take (Z.to_nat (Z.min o1 (Py.len source))) source)).
  pose proof (count_take_mono Py.LF (Z.to_nat (Z.min o1 (Py.len source)))
    (Z.to_nat (Z.min o2 (Py.len source))) source ltac:(lia)).
  pose proof (count_take_le Py.LF (Z.to_nat (Z.min o2 (Py.len source))) source).
  lia.
Qed.

Lemma line_number_monotone_witness :
  1 <= TokenMappingView.lineNumber
         {| TokenMappingView.source := Examples.dedent; TokenMappingView.offset := 1 |}
    <= TokenMappingView.lineNumber
         {| TokenMappingView.source := Examples.dedent; TokenMappingView.offset := 4 |} /\
  TokenMappingView.lineNumber
    {| TokenMappingView.source := Examples.dedent; TokenMappingView.offset := 4 |}
  <= 1 + Py.count Py.LF Examples.dedent.
Proof. apply (line_number_monotone Examples.dedent 1 4). lia. Defined.

(** The step shared by the facts on line feeds: [line_spec] gives the
    two shapes of a line, and neither holds a line feed. *)
Ltac line_feed_free source offset Ho :=
  let l := fresh "l" in let Hle := fresh "Hle" in let Hc := fresh "Hc" in
  let Hline := fresh "Hline" in let before := fresh "before" in
  let j := fresh "j" in let rest := fresh "rest" in let H0 := fresh "H0" in
  let Hu := fresh "Hu" in
  destruct (line_spec source offset Ho) as (l & _ & Hle & Hc & Hline);
  set (before := Z.to_nat (Z.min offset (Py.len source))) in *;
  destruct Hline as [(j & rest & _ & _ & H0 & _ & ->)|(_ & H0 & ->)];
  [ replace (before + j - l)%nat with ((before - l) + j)%nat by lia;
    rewrite take_add_str, count_app, Hc, drop_drop_str;
    replace (l + (before - l))%nat with before by lia; lia
  | pose proof (count_take_le Py.LF (String.length source - 1 - l) (Py.drop l source))
      as Hu;
    pose proof (count_nonneg Py.LF
      (Py.take (String.length source - 1 - l) (Py.drop l source)));
    rewrite (count_take_drop Py.LF (before - l) (Py.drop l source)) in Hu;
    rewrite Hc, drop_drop_str in Hu;
    replace (l + (before - l))%nat with before in Hu by lia; lia ].

(** X2. The line of a view never contains a line feed. *)
Theorem line_has_no_line_feed (source : string) (offset : Z) :
  0 <= offset ->
  Py.count Py.LF
    (TokenMappingView.line
       {| TokenMappingView.source := source; TokenMappingView.offset := offset |}) = 0.
Proof. intros Ho. line_feed_free source offset Ho. Qed.

Lemma line_has_no_line_feed_witness :
  Py.count Py.LF
    (TokenMappingView.line
       {| TokenMappingView.source := Examples.nested; TokenMappingView.offset := 2 |}) = 0.
Proof. apply (line_has_no_line_feed Examples.nested 2). lia. Defined.

(** X3. When a line feed follows the offset, the line of a view is the
    whole line: it starts at the beginning of the text or just after a
    line feed, and it runs up to the next line feed. *)
Theorem line_is_whole_line (source : string) (offset r : Z) :
  0 <= offset ->
  Py.find_from Py.LF source offset = r -> 0 <= r ->
  let v := {| TokenMappingView.source := source; TokenMappingView.offset := offset |} in
  let l := Z.to_nat (TokenMappingView.left v) in
  (exists rest, Py.drop l source = TokenMappingView.line v +:+ String Py.LF rest) /\
  (l = 0%nat \/ exists rest, Py.drop (l - 1) source = String Py.LF rest) /\
  0 <= TokenMappingView.lineOffset v <= Py.len (TokenMappingView.line v).
Proof.
  intros Ho Hf Hr v l0.
  destruct (left_spec source offset Ho) as (l' & Hl' & _ & _ & Hstart).
  destruct (line_spec source offset Ho) as (l & Hl & Hle & Hc & Hline).
  fold v in Hl, Hl', Hline. assert (l' = l) as -> by lia.
  assert (l0 = l) as -> by (unfold l0; rewrite Hl; lia).
  set (before := Z.to_nat (Z.min offset (Py.len source))) in *.
  destruct Hline as [(j & rest & Hf' & Hlt & H0 & Hd & Hline)|(Hf' & _)]; [|lia].
  split_and!; [|done| |].
  - exists rest. rewrite Hline.
    rewrite <- (take_drop_str (before + j - l) (Py.drop l source)) at 1.
    f_equal. rewrite drop_drop_str.
    replace (l + (before + j - l))%nat with (before + j)%nat by lia. done.
  - unfold TokenMappingView.lineOffset. simpl.
    unfold TokenMappingView.left in Hl. simpl in Hl. unfold before in Hle. lia.
  - unfold TokenMappingView.lineOffset. simpl.
    unfold TokenMappingView.left in Hl. simpl in Hl.
    rewrite Hline. unfold Py.len. rewrite length_take_str, length_drop.
    unfold before, Py.len in *. lia.
Qed.

Lemma line_is_whole_line_witness :
  let v := {| TokenMappingView.source := Examples.nested; TokenMappingView.offset := 2 |} in
  let l := Z.to_nat (TokenMappingView.left v) in
  (exists rest, Py.drop l Examples.nested
                = TokenMappingView.line v +:+ String Py.LF rest) /\
  (l = 0%nat \/ exists rest, Py.drop (l - 1) Examples.nested = String Py.LF rest) /\
  0 <= TokenMappingView.lineOffset v <= Py.len (TokenMappingView.line v).
Proof.
  apply (line_is_whole_line Examples.nested 2 3); [lia|reflexivity|lia].
Defined.

(** X4. When no line feed follows the offset, the line of a view stops
    one character short: the last character of the text is left out. *)
Theorem line_drops_last_character (source : string) (offset : Z) :
  0 <= offset ->
  Py.find_from Py.LF source offset = -1 ->
  let v := {| TokenMappingView.source := source; TokenMappingView.offset := offset |} in
  TokenMappingView.left v < Py.len source ->
  exists c, c <> Py.LF /\
    Py.drop (Z.to_nat (TokenMappingView.left v)) source
    = TokenMappingView.line v +:+ String c EmptyString.
Proof.
  intros Ho Hf v Hlt.
  destruct (line_spec source offset Ho) as (l & Hl & Hle & Hc & Hline).
  fold v in Hl, Hline. rewrite Hl, Nat2Z.id.
  set (before := Z.to_nat (Z.min offset (Py.len source))) in *.
  destruct Hline as [(j & rest & Hf' & _)|(_ & H0 & Hline)];
    [pose proof (len_nonneg source); lia|].
  assert (l < String.length source)%nat as Hl' by (unfold Py.len in Hlt; lia).
  destruct (last_of_one (String.length source - 1 - l) (Py.drop l source)) as [c Hd].
  { rewrite length_drop. lia. }
  assert (Py.drop l source = TokenMappingView.line v +:+ String c EmptyString) as Heq.
  { rewrite Hline.
    rewrite <- (take_drop_str (String.length source - 1 - l) (Py.drop l source)) at 1.
    by rewrite Hd. }
  exists c. split; [|done].
  (* no line feed from [l] on *)
  assert (Py.count Py.LF (Py.drop l source) = 0) as Hnone.
  { rewrite (count_take_drop Py.LF (before - l) (Py.drop l source)).
    rewrite Hc, drop_drop_str.
    replace (l + (before - l))%nat with before by lia. lia. }
  rewrite Heq, count_app in Hnone. simpl in Hnone.
  pose proof (count_nonneg Py.LF (TokenMappingView.line v)).
  intros ->. rewrite Ascii.eqb_refl in Hnone. lia.
Qed.

Lemma line_drops_last_character_witness :
  exists c, c <> Py.LF /\
    Py.drop (Z.to_nat (TokenMappingView.left
                         {| TokenMappingView.source := Examples.nested;
                            TokenMappingView.offset := 7 |})) Examples.nested
    = TokenMappingView.line {| TokenMappingView.source := Examples.nested;
                               TokenMappingView.offset := 7 |}
      +:+ String c EmptyString.
Proof.
  apply (line_drops_last_character Examples.nested 7); [lia|reflexivity|].
  vm_compute. reflexivity.
Defined.

Lemma replace_app (c : ascii) (by_ a b : string) :
  Py.replace c by_ (a +:+ b) = Py.replace c by_ a +:+ Py.replace c by_ b.
Proof.
  induction a as [|d a IH]; [reflexivity|].
  change (Py.replace c by_ (String d (a +:+ b))
          = Py.replace c by_ (String d a) +:+ Py.replace c by_ b).
  simpl. rewrite IH. destruct (Ascii.eqb d c); [by rewrite append_assoc|done].
Qed.

Lemma length_expand_tabs (t : string) :
  Py.len (Py.replace Py.TAB "    " t) = Py.len t + 3 * Py.count Py.TAB t.
Proof.
  unfold Py.len. induction t as [|d t IH]; [reflexivity|]. simpl.
  destruct (Ascii.eqb d Py.TAB).
  - rewrite length_app_str. simpl String.length. lia.
  - simpl String.length. lia.
Qed.

Lemma count_expand_tabs (c : ascii) (t : string) :
  c <> Py.SPACE ->
  Py.count c (Py.replace Py.TAB "    " t) = if Ascii.eqb c Py.TAB then 0 else Py.count c t.
Proof.
  intros Hc. assert (Ascii.eqb Py.SPACE c = false) as Hs.
  { apply Ascii.eqb_neq. congruence. }
  induction t as [|d t IH]; simpl; [by destruct (Ascii.eqb c Py.TAB)|].
  destruct (Ascii.eqb d Py.TAB) eqn:Ed.
  - apply Ascii.eqb_eq in Ed as ->. rewrite count_app, IH.
    change (Py.count c "    ") with
      ((if Ascii.eqb Py.SPACE c then 1 else 0) + ((if Ascii.eqb Py.SPACE c then 1 else 0)
       + ((if Ascii.eqb Py.SPACE c then 1 else 0)
          + ((if Ascii.eqb Py.SPACE c then 1 else 0) + 0)))).
    rewrite Hs. rewrite (Ascii.eqb_sym Py.TAB c).
    destruct (Ascii.eqb c Py.TAB); lia.
  - simpl. rewrite IH. destruct (Ascii.eqb c Py.TAB) eqn:Ec; [|done].
    apply Ascii.eqb_eq in Ec as ->. rewrite Ed. lia.
Qed.

(** X5. In the first line of a rendered pointer the token starts at the
    column [token_column]: marker, offset in the line, three more
    columns per tab before the token. The caret is put in that very
    column exactly when the line has a single tab and the tab comes
    before the token. *)
Theorem caret_under_token (v : TokenMappingView.t) :
  0 <= TokenMappingView.lineOffset v <= Py.len (TokenMappingView.line v) ->
  let lo := Z.to_nat (TokenMappingView.lineOffset v) in
  let shown := TokenMappingView.lineMarker v
               +:+ Py.replace Py.TAB "    " (TokenMappingView.line v) in
  Py.drop (Z.to_nat (token_column v)) shown
  = Py.replace Py.TAB "    " (Py.drop lo (TokenMappingView.line v)) /\
  (TokenMappingView.pointerOffset v = token_column v <->
   Py.count Py.TAB (TokenMappingView.line v) = 1 /\
   Py.count Py.TAB (Py.take lo (TokenMappingView.line v)) = 1).
Proof.
  intros Hlo lo shown. split.
  - unfold shown.
    rewrite <- (take_drop_str lo (TokenMappingView.line v)) at 1.
    rewrite replace_app, <- append_assoc.
    set (head := TokenMappingView.lineMarker v
                 +:+ Py.replace Py.TAB "    " (Py.take lo (TokenMappingView.line v))).
    assert (Z.to_nat (token_column v) = String.length head) as ->; [|apply drop_app_str].
    unfold head, token_column. rewrite length_app_str.
    pose proof (length_expand_tabs (Py.take lo (TokenMappingView.line v))) as He.
    pose proof (count_nonneg Py.TAB (Py.take lo (TokenMappingView.line v))).
    unfold Py.len in *. rewrite length_take_str in He. fold lo. lia.
  - unfold TokenMappingView.pointerOffset, token_column. fold lo.
    pose proof (count_take_le Py.TAB lo (TokenMappingView.line v)).
    pose proof (count_nonneg Py.TAB (Py.take lo (TokenMappingView.line v))).
    lia.
Qed.

Lemma caret_under_token_witness :
  let v := {| TokenMappingView.source := Examples.mixed; TokenMappingView.offset := 2 |} in
  TokenMappingView.pointerOffset v = token_column v.
Proof.
  intros v.
  apply (caret_under_token v); [vm_compute; split; discriminate|].
  split; reflexivity.
Defined.

Lemma count_digits (c : ascii) (d : Decimal.uint) :
  is_digit c = false -> Py.count c (NilEmpty.string_of_uint d) = 0.
Proof.
  intros Hc. induction d; cbn [NilEmpty.string_of_uint Py.count]; [done|..];
    rewrite IHd;
    (match goal with |- (if Ascii.eqb ?x c then _ else _) + _ = _ =>
       destruct (Ascii.eqb_spec x c) as [<-|_]; [discriminate Hc|done] end).
Qed.

(** [str(n)] holds digits and at most a sign. *)
Lemma count_str (c : ascii) (n : Z) :
  is_digit c = false -> c <> "-"%char -> Py.count c (Py.str n) = 0.
Proof.
  intros Hc Hm. unfold Py.str, NilZero.string_of_int.
  assert (forall d, Py.count c (NilZero.string_of_uint d) = 0) as Hu.
  { intros d. pose proof (count_digits c d Hc) as Hd. unfold NilZero.string_of_uint.
    destruct d; try exact Hd. cbn [Py.count].
    destruct (Ascii.eqb_spec "0"%char c) as [<-|_]; [discriminate Hc|done]. }
  destruct (Z.to_int n) as [d|d]; [apply Hu|]. cbn [Py.count]. rewrite Hu.
  destruct (Ascii.eqb_spec "-"%char c) as [<-|_]; done.
Qed.

Lemma count_times (c d : ascii) (n : Z) :
  Py.count c (Py.times d n) = if Ascii.eqb d c then Z.max 0 n else 0.
Proof.
  unfold Py.times. destruct (Z.to_nat n) as [|k] eqn:E.
  - simpl. destruct (Ascii.eqb d c); lia.
  - assert (n = Z.of_nat (S k)) as -> by lia. clear E.
    induction k as [|k IH].
    + simpl. destruct (Ascii.eqb d c); lia.
    + change (repeat d (S (S k))) with (d :: repeat d (S k)).
      cbn [string_of_list_ascii Py.count]. rewrite IH.
      destruct (Ascii.eqb d c); lia.
Qed.

Lemma count_marker (c : ascii) (v : TokenMappingView.t) :
  is_digit c = false -> c <> "-"%char -> c <> ":"%char -> c <> Py.SPACE ->
  Py.count c (TokenMappingView.lineMarker v) = 0.
Proof.
  intros Hd Hm Hc Hs. unfold TokenMappingView.lineMarker.
  rewrite !count_app, !count_str by done. cbn [Py.count].
  destruct (Ascii.eqb_spec ":"%char c) as [<-|_]; [done|].
  destruct (Ascii.eqb_spec " "%char c) as [<-|_]; done.
Qed.

(** X6. The pointer of a position that is not negative is a text of
    exactly two lines, and no tab is left in it: the one line feed is
    the one between the line and the caret. *)
Theorem pointer_has_two_lines (v : TokenMappingView.t) :
  0 <= TokenMappingView.offset v ->
  Py.count Py.LF (TokenMappingView.makePointer v) = 1 /\
  Py.count Py.TAB (TokenMappingView.makePointer v) = 0.
Proof.
  intros Ho. unfold TokenMappingView.makePointer. cbv zeta.
  rewrite !count_app, !count_marker, !count_times, !count_expand_tabs by done.
  destruct v as [source offset]. simpl in Ho.
  assert (Py.count Py.LF
            (TokenMappingView.line
               {| TokenMappingView.source := source; TokenMappingView.offset := offset |})
          = 0) as -> by line_feed_free source offset Ho.
  done.
Qed.

Lemma pointer_has_two_lines_witness :
  Py.count Py.LF (TokenMappingView.makePointer
    {| TokenMappingView.source := Examples.mixed; TokenMappingView.offset := 2 |}) = 1.
Proof.
  apply (pointer_has_two_lines
    {| TokenMappingView.source := Examples.mixed; TokenMappingView.offset := 2 |}).
  simpl. lia.
Defined.

(** ** The result of a run *)

Lemma mapped_within_le (r : TokenizerResult.t) (hi hi' : Z) :
  hi <= hi' -> mapped_within r hi -> mapped_within r hi'.
Proof.
  intros Hle [Hdom Hrange]. split; [done|].
  intros id o Ho. specialize (Hrange id o Ho). lia.
Qed.

Lemma mapped_within_add (r : TokenizerResult.t) (tok : Token) (o hi : Z) :
  0 <= o <= hi -> mapped_within r hi ->
  mapped_within (TokenizerResult.addToken r tok o) hi.
Proof.
  intros Ho [Hdom Hrange]. split; simpl.
  - intros id. destruct (decide (tok_id tok = id)) as [<-|Hne].
    + rewrite lookup_insert_eq. split; [|eauto]. intros _. exists tok.
      split; [|done]. apply elem_of_app. right. by apply list_elem_of_singleton.
    + rewrite lookup_insert_ne by done. rewrite Hdom. split.
      * intros (t & Hin & Hid). exists t. split; [|done].
        apply elem_of_app. by left.
      * intros (t & Hin & Hid). apply elem_of_app in Hin as [Hin|Hin]; [eauto|].
        apply list_elem_of_singleton in Hin as ->. done.
  - intros id o'. destruct (decide (tok_id tok = id)) as [<-|Hne].
    + rewrite lookup_insert_eq. intros; simplify_eq. done.
    + rewrite lookup_insert_ne by done. apply Hrange.
Qed.

Lemma apply_pairs_within (res : emission) (pos : Z) (r : TokenizerResult.t) :
  Forall (fun pc => 0 <= pc.2) res -> 0 <= pos -> mapped_within r pos ->
  pos <= (Tokenizer.apply_pairs res pos r).1 /\
  TokenizerResult.source (Tokenizer.apply_pairs res pos r).2 = TokenizerResult.source r /\
  mapped_within (Tokenizer.apply_pairs res pos r).2 (Tokenizer.apply_pairs res pos r).1.
Proof.
  revert pos r. induction res as [|[tok c] res IH]; intros pos r Hall Hpos Hm; [done|].
  apply Forall_cons in Hall as [Hc Hall]. simpl in *.
  set (r' := match tok with
             | Some t => TokenizerResult.addToken r t pos
             | None => r
             end).
  assert (mapped_within r' (pos + c) /\ TokenizerResult.source r' = TokenizerResult.source r)
    as [Hm' Hs'].
  { destruct tok as [t|]; simpl; (split; [|done]).
    - apply mapped_within_le with pos; [lia|]. apply mapped_within_add; [lia|done].
    - apply mapped_within_le with pos; [lia|done]. }
  destruct (IH (pos + c) r' Hall ltac:(lia) Hm') as (Hle & Hs & Hw).
  split_and!; [lia|congruence|done].
Qed.

Lemma fold_addToken_within (toks : list Token) (o : Z) (r : TokenizerResult.t) :
  0 <= o -> mapped_within r o ->
  let r' := fold_left (fun r tok => TokenizerResult.addToken r tok o) toks r in
  mapped_within r' o /\ TokenizerResult.source r' = TokenizerResult.source r.
Proof.
  intros Ho. revert r. induction toks as [|tok toks IH]; intros r Hm; [done|].
  simpl. destruct (IH (TokenizerResult.addToken r tok o)) as [Hw Hs].
  - apply mapped_within_add; [lia|done].
  - done.
Qed.

Lemma finalize_within (tps : list TokenProcessor) (o : Z) (r r' : TokenizerResult.t)
  (nid nid' : nat) :
  0 <= o -> mapped_within r o ->
  Tokenizer.finalize tps o r nid = (r', nid') ->
  mapped_within r' o /\ TokenizerResult.source r' = TokenizerResult.source r.
Proof.
  intros Ho. revert r nid. induction tps as [|tp tps IH]; intros r nid Hm; simpl.
  - intros; simplify_eq. done.
  - destruct (finalizer tp nid) as [toks n1].
    destruct (fold_addToken_within toks o r Ho Hm) as [Hw Hs].
    intros Hf. apply IH in Hf as [Hw' Hs']; [|done]. split; [done|congruence].
Qed.

Section ResultFacts.
Context (source : string).
Import Tokenizer.

Lemma round_within st st' b :
  0 <= pos st <= Py.len source -> Forall well_formed (tokenProcessors st) ->
  mapped_within (result st) (pos st) ->
  round source st = Ok (b, st') ->
  pos st <= pos st' /\ Forall well_formed (tokenProcessors st') /\
  TokenizerResult.source (result st') = TokenizerResult.source (result st) /\
  mapped_within (result st') (pos st').
Proof.
  intros Hpos Hwf Hm. unfold round.
  destruct (scan _ source _ _) as [[[tps nid] [pairs|]]|] eqn:Es; [| |discriminate].
  - destruct (apply_pairs pairs (pos st) (result st)) as [pos' result'] eqn:Ea.
    intros; simplify_eq. simpl.
    destruct (apply_pairs_within pairs (pos st) (result st)) as (Hle & Hs & Hw);
      [eapply scan_nonneg; eauto|lia|done|].
    rewrite Ea in *. simpl in *. split_and!; [done| |done..].
    eapply scan_well_formed; eauto; lia.
  - intros; simplify_eq. simpl. split_and!; [lia| |done..].
    eapply scan_well_formed; eauto; lia.
Qed.

Lemma loop_within fuel st st' :
  0 <= pos st <= Py.len source -> Forall well_formed (tokenProcessors st) ->
  mapped_within (result st) (pos st) ->
  loop fuel source st = Some (Ok st') -> pos st' = Py.len source ->
  TokenizerResult.source (result st') = TokenizerResult.source (result st) /\
  mapped_within (result st') (pos st').
Proof.
  revert st. induction fuel as [|fuel IH]; intros st Hpos Hwf Hm; [done|].
  simpl. destruct (round source st) as [[[] st1]|] eqn:Er; [| |done].
  - apply round_within in Er as (Hle & Hwf1 & Hs1 & Hm1); [|done..].
    intros Hl Hend. destruct (decide (pos st1 <= Py.len source)).
    + destruct (IH st1) as [Hs Hw]; [lia|done..|]. split; [congruence|done].
    + exfalso. eapply loop_overshoot; [| |exact Hl|exact Hend]; [done|lia].
  - apply round_within in Er as (Hle & Hwf1 & Hs1 & Hm1); [|done..].
    intros; simplify_eq. done.
Qed.

End ResultFacts.

(** X7. In a result of [tokenize] every token of the token list has a
    mapping view, the view is one of the tokenized text, and its offset
    lies between 0 and the length of the text; a token object that is
    not in the list has no mapping view; the list ends
    with the end-of-file token, which is recorded at the length of the
    text. *)
Theorem result_is_mapped (fuel : nat) (tps : list TokenProcessor) (source : string)
  (r : TokenizerResult.t) :
  Forall well_formed tps ->
  Tokenizer.tokenize fuel tps source = Some (Ok r) ->
  (forall tok, tok ∈ TokenizerResult.tokens r ->
     exists o, 0 <= o <= Py.len source /\
       TokenizerResult.getTokenMapping r tok
       = Ok (Some {| TokenMappingView.source := source;
                     TokenMappingView.offset := o |})) /\
  (forall tok,
     (forall tok', tok' ∈ TokenizerResult.tokens r -> tok_id tok' <> tok_id tok) ->
     TokenizerResult.getTokenMapping r tok = Ok None) /\
  (exists front eof,
     TokenizerResult.tokens r = front ++ [eof] /\
     tok_class eof = EndOfFileToken /\
     TokenizerResult.getTokenMapping r eof
     = Ok (Some {| TokenMappingView.source := source;
                   TokenMappingView.offset := Py.len source |})).
Proof.
  intros Hwf. unfold Tokenizer.tokenize, Tokenizer.run.
  destruct (Tokenizer.loop fuel source _) as [[st1|]|] eqn:El; [|done..].
  unfold Tokenizer.finish. case_bool_decide as Hend; [done|].
  destruct (Tokenizer.finalize _ _ _ _) as [result' nid] eqn:Ef.
  intros; simplify_eq. simpl.
  pose proof (len_nonneg source) as Hlen.
  destruct (loop_within source fuel (Tokenizer.start tps source) st1) as [Hs Hm];
    [simpl; lia|done|..|exact El|done|].
  { split; simpl; [|intros id o; by rewrite lookup_empty].
    intros id. rewrite lookup_empty. split; [by intros []|].
    intros (tok & Hin & _). by apply elem_of_nil in Hin. }
  rewrite Hend in Hm. simpl in Hs.
  apply finalize_within in Ef as [Hw Hs']; [|done..].
  set (eof := {| tok_id := nid; tok_class := EndOfFileToken |}).
  pose proof (mapped_within_add result' eof (Py.len source) (Py.len source)
                ltac:(lia) Hw) as [Hdom Hrange].
  assert (TokenizerResult.source
            (TokenizerResult.addToken result' eof (Py.len source)) = Some source) as Hsrc.
  { simpl. congruence. }
  split_and!.
  - intros tok Hin. unfold TokenizerResult.getTokenMapping. rewrite Hsrc.
    destruct (proj2 (Hdom (tok_id tok))) as [o Ho]; [eauto|].
    exists o. split; [eapply Hrange; exact Ho|]. by rewrite Ho.
  - intros tok Hids. unfold TokenizerResult.getTokenMapping. rewrite Hsrc.
    destruct (TokenizerResult.tokenMap _ !! tok_id tok) as [o|] eqn:Eo; [|done].
    destruct (proj1 (Hdom (tok_id tok))) as (tok' & Hin & Hid); [eauto|].
    by destruct (Hids tok' Hin).
  - exists (TokenizerResult.tokens result'), eof. split_and!; [done..|].
    unfold TokenizerResult.getTokenMapping. rewrite Hsrc. simpl.
    by rewrite lookup_insert_eq.
Qed.

Lemma result_is_mapped_witness :
  match Tokenizer.tokenize 20 Examples.processors Examples.nested with
  | Some (Ok r) =>
      exists front eof,
        TokenizerResult.tokens r = front ++ [eof] /\
        tok_class eof = EndOfFileToken /\
        TokenizerResult.getTokenMapping r eof
        = Ok (Some {| TokenMappingView.source := Examples.nested;
                      TokenMappingView.offset := Py.len Examples.nested |})
  | _ => False
  end.
Proof.
  destruct (Tokenizer.tokenize 20 Examples.processors Examples.nested) as [[r|e]|] eqn:E;
    [|vm_compute in E; discriminate..].
  apply (result_is_mapped 20 Examples.processors Examples.nested r
           processors_well_formed E).
Defined.

(** ** Which processor answers *)

(** X8. The processors are asked in list order and the first that hands
    over a pair wins: the list splits into the processors before the
    winner, which were all asked and handed over nothing, the winner,
    whose pairs are the ones applied, and the processors after it, which
    are not asked and stay as they were. For well formed processors and
    an offset that is not negative the ones before the winner are
    unchanged too, and no token object was created for them. *)
Theorem first_match_wins (tps tps' : list TokenProcessor) (source : string) (pos : Z)
  (nid nid' : nat) (pairs : emission) :
  Tokenizer.scan tps source pos nid = Ok (tps', nid', Some pairs) ->
  exists front tp back front' tp' n1 res,
    tps = front ++ tp :: back /\ tps' = front' ++ tp' :: back /\
    Tokenizer.scan front source pos nid = Ok (front', n1, None) /\
    process tp source pos n1 = Ok (res, tp', nid') /\
    Tokenizer.pairs_of res = pairs /\ pairs <> [] /\
    (0 <= pos -> Forall well_formed tps -> front' = front /\ n1 = nid).
Proof.
  revert tps' nid. induction tps as [|tp tps IH]; intros tps' nid; simpl; [done|].
  destruct (process tp source pos nid) as [[[res tp'] n']|] eqn:Ep; [|done].
  destruct (Tokenizer.pairs_of res) as [|pc pcs] eqn:Er.
  - destruct (Tokenizer.scan tps source pos n') as [[[rest' n2] f]|] eqn:Es; [|done].
    intros; simplify_eq.
    destruct (IH _ _ Es) as (front & w & back & front' & w' & n1 & r & -> & -> & Hf
                             & Hw & Hr & Hne & Hsame).
    exists (tp :: front), w, back, (tp' :: front'), w', n1, r.
    split_and!; try done.
    + simpl. by rewrite Ep, Er, Hf.
    + intros Hpos Hwf. apply Forall_cons in Hwf as [Hwf1 Hwf].
      apply process_quiet in Ep as [-> ->]; [|done..].
      destruct (Hsame Hpos Hwf) as [-> ->]. done.
  - intros; simplify_eq.
    exists [], tp, tps, [], tp', nid, res. split_and!; done.
Qed.

Lemma first_match_wins_witness :
  exists front tp back front' tp' n1 res,
    Examples.processors = front ++ tp :: back /\
    [PatternBacked NewLineProcessor;
     IndentScope (IndentScopeProcessor.set_level
                    (IndentScopeProcessor.set_mode (IndentScopeProcessor.init false)
                       (Some 2) 1) 1);
     PatternBacked (ConsumingProcessor Examples.no_re "abcd")] = front' ++ tp' :: back /\
    Tokenizer.scan front Examples.nested 1 1 = Ok (front', n1, None) /\
    process tp Examples.nested 1 n1 = Ok (res, tp', 2%nat) /\
    Tokenizer.pairs_of res
    = [(Some {| tok_id := 1; tok_class := ScopeStartToken |}, 1)] /\
    [(Some {| tok_id := 1; tok_class := ScopeStartToken |}, 1)] <> [] /\
    (0 <= 1 -> Forall well_formed Examples.processors -> front' = front /\ n1 = 1%nat).
Proof.
  apply (first_match_wins Examples.processors _ Examples.nested 1 1 2
           [(Some {| tok_id := 1; tok_class := ScopeStartToken |}, 1)]).
  vm_compute. reflexivity.
Defined.

(** ** The indent processor, call by call *)

Lemma emitted_repeat (tok : Token) (c : Z) (k : nat) :
  emitted (repeat (Some tok, c) k) = repeat tok k.
Proof.
  induction k as [|k IH]; [done|].
  change (emitted ((Some tok, c) :: repeat (Some tok, c) k) = tok :: repeat tok k).
  by rewrite <- IH.
Qed.

Lemma count_class_repeat (cls : TokenClass) (tok : Token) (k : nat) :
  count_class cls (repeat tok k) = if decide (tok_class tok = cls) then k else 0%nat.
Proof.
  unfold count_class. induction k as [|k IH]; simpl; [by destruct (decide _)|].
  rewrite filter_cons. destruct (decide (tok_class tok = cls)); simpl; by rewrite IH.
Qed.

(** X9. One call of the indent processor moves the level by the indent
    width times the number of scope tokens it hands over: up for
    [ScopeStartToken]s, down for [ScopeEndToken]s, never both in one
    call; the level is never negative; a call that hands over no scope
    token hands over at most one pair. *)
Theorem indent_level_accounting (self self' : IndentScopeProcessor.t) (content : string)
  (offset : Z) (nid nid' : nat) (pairs : emission) :
  IndentScopeProcessor.invariant self -> 0 <= IndentScopeProcessor.level self ->
  0 <= offset ->
  IndentScopeProcessor.process self content offset nid = Ok (pairs, self', nid') ->
  let starts := Z.of_nat (count_class ScopeStartToken (emitted pairs)) in
  let ends := Z.of_nat (count_class ScopeEndToken (emitted pairs)) in
  0 <= IndentScopeProcessor.level self' /\
  IndentScopeProcessor.level self'
  = IndentScopeProcessor.level self
    + IndentScopeProcessor.divider self' * (starts - ends) /\
  (starts = 0 \/ ends = 0) /\
  Z.of_nat (length pairs) <= Z.max 1 (starts + ends).
Proof.
  intros Hinv Hlev Hoff. unfold IndentScopeProcessor.process.
  destruct (IndentScopeProcessor.reScope content (offset - 1)) as [res|] eqn:Em;
    [|intros; simplify_eq; cbv zeta; unfold count_class, emitted; simpl; lia].
  apply IndentFacts.reScope_at in Em as [_ Hres]; [|done].
  destruct (IndentScopeProcessor.lock self offset res) as [[newLevel self1]|] eqn:El;
    [|discriminate].
  apply IndentFacts.lock_spec in El as (Hinv1 & Hl1 & Hnn & _ & Hdiv); [|done..].
  unfold IndentScopeProcessor.yields. case_bool_decide as Hne.
  - assert (0 < IndentScopeProcessor.divider self1) as Hd.
    { destruct (decide (newLevel = 0)) as [->|]; [apply Hinv1; right; lia|lia]. }
    destruct (IndentScopeProcessor.divider self1 =? 0) eqn:E0; [lia|].
    case_bool_decide as Hmod; [discriminate|].
    assert (Z.abs (IndentScopeProcessor.level self1 - newLevel)
              mod IndentScopeProcessor.divider self1 = 0) as Hm
      by (destruct (decide (Z.abs (IndentScopeProcessor.level self1 - newLevel)
                              mod IndentScopeProcessor.divider self1 = 0)); done).
    apply Z.div_exact in Hm; [|lia].
    set (k := Z.abs (IndentScopeProcessor.level self1 - newLevel)
              / IndentScopeProcessor.divider self1) in *.
    assert (0 <= k) by (apply Z.div_pos; lia).
    intros; simplify_eq. cbv zeta. rewrite emitted_repeat, !count_class_repeat.
    rewrite repeat_length. simpl.
    destruct (IndentScopeProcessor.level self1 <? newLevel) eqn:Elt; simpl.
    + destruct (decide (ScopeStartToken = ScopeStartToken)); [|done].
      destruct (decide (ScopeStartToken = ScopeEndToken)); [done|].
      rewrite Z2Nat.id by done. split_and!; [lia|nia|lia|lia].
    + destruct (decide (ScopeEndToken = ScopeStartToken)); [done|].
      destruct (decide (ScopeEndToken = ScopeEndToken)); [|done].
      rewrite Z2Nat.id by done. split_and!; [lia|nia|lia|lia].
  - assert (newLevel = IndentScopeProcessor.level self1) as Heq
      by (destruct (decide (newLevel = IndentScopeProcessor.level self1)); done).
    case_bool_decide; intros; simplify_eq; cbv zeta; unfold count_class, emitted; simpl.
    + destruct (IndentScopeProcessor.allowMixed self1); simpl; lia.
    + lia.
Qed.

Lemma indent_level_accounting_witness :
  let self := IndentScopeProcessor.set_level
                (IndentScopeProcessor.set_mode (IndentScopeProcessor.init false)
                   (Some 2) 1) 1 in
  let tok := {| tok_id := 3; tok_class := ScopeStartToken |} in
  3 = 1 + 1 * (Z.of_nat (count_class ScopeStartToken (emitted [(Some tok, 3); (Some tok, 3)]))
               - Z.of_nat (count_class ScopeEndToken
                             (emitted [(Some tok, 3); (Some tok, 3)]))).
Proof.
  intros self tok.
  apply (indent_level_accounting self (IndentScopeProcessor.set_level self 3)
           Examples.nested 4 3 4 [(Some tok, 3); (Some tok, 3)]).
  - intros _. simpl. lia.
  - simpl. lia.
  - lia.
  - vm_compute. reflexivity.
Defined.

(** X10. Once the indent unit is locked in a processor that does not
    allow mixing, no call changes the unit or the indent width; whether
    mixing is allowed never changes. *)
Theorem indent_lock_is_permanent (self self' : IndentScopeProcessor.t) (content : string)
  (offset : Z) (nid nid' : nat) (pairs : emission) :
  IndentScopeProcessor.process self content offset nid = Ok (pairs, self', nid') ->
  IndentScopeProcessor.allowMixed self' = IndentScopeProcessor.allowMixed self /\
  (IndentScopeProcessor.allowMixed self = false ->
   is_Some (IndentScopeProcessor.mode self) ->
   IndentScopeProcessor.mode self' = IndentScopeProcessor.mode self /\
   IndentScopeProcessor.divider self' = IndentScopeProcessor.divider self).
Proof.
  unfold IndentScopeProcessor.process.
  destruct (IndentScopeProcessor.reScope content (offset - 1)) as [res|];
    [|intros; simplify_eq; done].
  destruct (IndentScopeProcessor.lock self offset res) as [[newLevel self1]|] eqn:El;
    [|discriminate].
  assert (IndentScopeProcessor.allowMixed self1 = IndentScopeProcessor.allowMixed self /\
          (is_Some (IndentScopeProcessor.mode self) -> self1 = self)) as [Ha Hsame].
  { unfold IndentScopeProcessor.lock in El. case_bool_decide; [by simplify_eq|].
    destruct (IndentScopeProcessor.mode self) as [m|].
    - case_bool_decide; [done|]. by simplify_eq.
    - simplify_eq. split; [done|]. by intros []. }
  unfold IndentScopeProcessor.yields. case_bool_decide.
  - destruct (IndentScopeProcessor.divider self1 =? 0); [done|].
    case_bool_decide; [done|]. intros; simplify_eq. simpl. split; [done|].
    intros _ Hm. by rewrite (Hsame Hm).
  - case_bool_decide; intros; simplify_eq.
    + destruct (IndentScopeProcessor.allowMixed self1) eqn:Eam; simpl.
      * split; [congruence|]. intros Hf. congruence.
      * split; [congruence|]. intros _ Hm. by rewrite (Hsame Hm).
    + split; [done|]. intros _ Hm. by rewrite (Hsame Hm).
Qed.

Lemma indent_lock_is_permanent_witness :
  let self := IndentScopeProcessor.set_level
                (IndentScopeProcessor.set_mode (IndentScopeProcessor.init false)
                   (Some 2) 1) 1 in
  IndentScopeProcessor.mode (IndentScopeProcessor.set_level self 3) = Some 2 /\
  IndentScopeProcessor.divider (IndentScopeProcessor.set_level self 3) = 1.
Proof.
  intros self.
  pose (tok := {| tok_id := 3; tok_class := ScopeStartToken |}).
  apply (indent_lock_is_permanent self (IndentScopeProcessor.set_level self 3)
           Examples.nested 4 3 4 [(Some tok, 3); (Some tok, 3)]).
  - vm_compute. reflexivity.
  - reflexivity.
  - simpl. eauto.
Defined.

Lemma finalizer_level_tokens (self : IndentScopeProcessor.t) (nid : nat) :
  let toks := (IndentScopeProcessor.finalizer self nid).1 in
  length toks = Z.to_nat (IndentScopeProcessor.level self) /\
  count_class ScopeEndToken toks = length toks.
Proof.
  unfold IndentScopeProcessor.finalizer.
  destruct (0 <? IndentScopeProcessor.level self) eqn:El; cbv zeta; simpl;
    [|split; [lia|done]].
  set (n := Z.to_nat (IndentScopeProcessor.level self)).
  rewrite length_map, length_seq. split; [done|].
  unfold count_class. clearbody n. generalize 0%nat.
  induction n as [|n IH]; intros s; [done|].
  cbn [seq map]. rewrite filter_cons. cbn [tok_class].
  destruct (decide _); [|done]. cbn [length]. by rewrite IH.
Qed.

(** X11. The finalizer hands over as many tokens as the level counts,
    all of them [ScopeEndToken]s and each a new object, distinct from the
    others and from every token made before. *)
Theorem finalizer_closes_level (self : IndentScopeProcessor.t) (nid : nat) :
  let toks := (IndentScopeProcessor.finalizer self nid).1 in
  let nid' := (IndentScopeProcessor.finalizer self nid).2 in
  length toks = Z.to_nat (IndentScopeProcessor.level self) /\
  count_class ScopeEndToken toks = length toks /\
  NoDup (map tok_id toks) /\
  Forall (fun tok => (nid <= tok_id tok < nid')%nat) toks /\
  nid' = (nid + length toks)%nat.
Proof.
  destruct (finalizer_level_tokens self nid) as [Hlen Hcls]. cbv zeta.
  split; [done|]. split; [done|]. clear Hlen Hcls.
  unfold IndentScopeProcessor.finalizer.
  destruct (0 <? IndentScopeProcessor.level self) eqn:El; simpl.
  - set (n := Z.to_nat (IndentScopeProcessor.level self)).
    rewrite length_map, length_seq. split_and!; [| |done].
    + rewrite map_map. simpl.
      apply NoDup_fmap_2; [intros ? ?; lia|]. apply NoDup_seq.
    + apply Forall_forall. intros tok Hin.
      apply list_elem_of_In, in_map_iff in Hin as (i & <- & Hi).
      apply in_seq in Hi. simpl. lia.
  - split_and!; [constructor|constructor|lia].
Qed.

Lemma lock_level (self self' : IndentScopeProcessor.t) (offset newLevel : Z) (res : Match) :
  IndentScopeProcessor.lock self offset res = Ok (newLevel, self') ->
  newLevel = if bool_decide (lastindex res = Some 3) then 0 else m_end res - offset.
Proof.
  unfold IndentScopeProcessor.lock. case_bool_decide; [by intros; simplify_eq|].
  destruct (IndentScopeProcessor.mode self); [case_bool_decide|]; by intros; simplify_eq.
Qed.

Lemma yields_level (self self' : IndentScopeProcessor.t) (newLevel : Z) (nid nid' : nat)
  (pairs : emission) :
  IndentScopeProcessor.yields self newLevel nid = Ok (pairs, self', nid') ->
  Forall (fun pc => pc.2 = newLevel) pairs.
Proof.
  unfold IndentScopeProcessor.yields. case_bool_decide.
  - destruct (_ =? 0); [done|]. case_bool_decide; [done|]. intros; simplify_eq.
    apply Forall_forall. intros pc Hin. apply list_elem_of_In, repeat_spec in Hin.
    by subst.
  - case_bool_decide; intros; simplify_eq; repeat constructor.
Qed.

(** X12. Past the first character of the text the indent processor
    answers only right after a line feed, and every pair it hands over
    then carries, as its consumed length, the width of the indentation
    that follows that line feed: the length of the run of tabs or of
    spaces the line starts with. *)
Theorem indent_answers_after_line_feed (self self' : IndentScopeProcessor.t)
  (content : string) (offset : Z) (nid nid' : nat) (pairs : emission) :
  1 <= offset ->
  IndentScopeProcessor.process self content offset nid = Ok (pairs, self', nid') ->
  pairs <> [] ->
  exists rest,
    Py.drop (Z.to_nat (offset - 1)) content = String Py.LF rest /\
    rest <> EmptyString /\
    Forall (fun pc => pc.2 = Z.of_nat (indent_width rest)) pairs.
Proof.
  intros Hoff. unfold IndentScopeProcessor.process.
  destruct (IndentScopeProcessor.reScope content (offset - 1)) as [res|] eqn:Em;
    [|by intros; simplify_eq].
  destruct (IndentScopeProcessor.lock self offset res) as [[newLevel self1]|] eqn:El;
    [|discriminate].
  apply lock_level in El. intros Hy _. apply yields_level in Hy.
  unfold IndentScopeProcessor.reScope in Em.
  pose proof (length_rest content (offset - 1)) as Hlen.
  pose proof (len_nonneg content) as Hn.
  destruct (Py.drop (Z.to_nat (Py.clamp content (offset - 1))) content)
    as [|c0 [|c1 tail]] eqn:E; try discriminate.
  simpl String.length in Hlen.
  assert (Py.clamp content (offset - 1) = offset - 1) as Hc
    by (unfold Py.clamp in *; lia).
  rewrite Hc in *.
  destruct (Ascii.eqb_spec c0 Py.LF) as [->|]; [|discriminate]. simpl in Em.
  exists (String c1 tail). split; [done|]. split; [done|].
  assert (newLevel = Z.of_nat (indent_width (String c1 tail))) as <-; [|done].
  unfold indent_width. simpl Py.run.
  unfold IndentScopeProcessor.is_tab, IndentScopeProcessor.is_space in *.
  destruct (Ascii.eqb_spec c1 Py.TAB) as [->|Ht].
  - simplify_eq. simpl. lia.
  - destruct (Ascii.eqb_spec c1 Py.SPACE) as [->|Hs]; simplify_eq; simpl; lia.
Qed.

Lemma indent_answers_after_line_feed_witness :
  exists rest,
    Py.drop (Z.to_nat (4 - 1)) Examples.nested = String Py.LF rest /\
    rest <> EmptyString /\
    Forall (fun pc => pc.2 = Z.of_nat (indent_width rest))
      [(Some {| tok_id := 3; tok_class := ScopeStartToken |}, 3);
       (Some {| tok_id := 3; tok_class := ScopeStartToken |}, 3)].
Proof.
  apply (indent_answers_after_line_feed
           (IndentScopeProcessor.set_level
              (IndentScopeProcessor.set_mode (IndentScopeProcessor.init false)
                 (Some 2) 1) 1)
           (IndentScopeProcessor.set_level
              (IndentScopeProcessor.set_level
                 (IndentScopeProcessor.set_mode (IndentScopeProcessor.init false)
                    (Some 2) 1) 1) 3)
           Examples.nested 4 3 4).
  - lia.
  - vm_compute. reflexivity.
  - discriminate.
Defined.

(** ** The processors without state *)

Lemma run_take (P : ascii -> bool) (s : string) :
  Py.run P (Py.take (Py.run P s) s) = Py.run P s.
Proof. induction s as [|c s IH]; [done|]. simpl. destruct (P c) eqn:E; simpl; [|done]. by rewrite E, IH. Qed.

Lemma run_drop (P : ascii -> bool) (s : string) :
  Py.run P (Py.drop (Py.run P s) s) = 0%nat.
Proof. induction s as [|c s IH]; [done|]. simpl. destruct (P c) eqn:E; simpl; [done|]. by rewrite E. Qed.

Lemma startswith_take (p s : string) :
  Py.startswith p s = true -> Py.take (String.length p) s = p.
Proof.
  revert s. induction p as [|a p IH]; intros [|b s]; simpl; try done.
  intros H. apply andb_true_iff in H as [Hab H]. apply Ascii.eqb_eq in Hab as ->.
  by rewrite IH.
Qed.

Lemma startswith_trans (p q s : string) :
  Py.startswith p q = true -> Py.startswith q s = true -> Py.startswith p s = true.
Proof.
  revert q s. induction p as [|a p IH]; intros [|b q] [|c s]; simpl; try done.
  intros H1 H2. apply andb_true_iff in H1 as [Hab H1].
  apply andb_true_iff in H2 as [Hbc H2].
  apply Ascii.eqb_eq in Hab as ->. rewrite Hbc. simpl. eauto.
Qed.

Lemma count_run_not_LF (s : string) :
  Py.count Py.LF (Py.take (Py.run not_LF s) s) = 0.
Proof.
  induction s as [|c s IH]; [done|]. simpl. unfold not_LF at 1.
  destruct (Ascii.eqb c Py.LF) eqn:E; simpl; [done|]. rewrite E. lia.
Qed.

(** X13. At an offset inside the text [NewLineProcessor] answers exactly
    for a line feed, consuming it, and for a carriage return followed by
    a line feed, consuming both; a carriage return alone is not a new
    line. The token is an [EndOfLineToken]. *)
Theorem new_line_is_lf_or_crlf (content : string) (offset : Z) :
  0 <= offset <= Py.len content ->
  let rest := Py.drop (Z.to_nat offset) content in
  let lf := String Py.LF EmptyString in
  let crlf := String Py.CR (String Py.LF EmptyString) in
  PatternProcessor.process NewLineProcessor content offset
  = Ok (if Py.startswith lf rest then Some (Some EndOfLineToken, 1)
        else if Py.startswith crlf rest then Some (Some EndOfLineToken, 2)
        else None).
Proof.
  intros Hoff rest lf crlf. unfold PatternProcessor.process.
  change (PatternProcessor.regex NewLineProcessor) with reNewLine.
  cbn [PatternProcessor.token_of NewLineProcessor].
  unfold reNewLine. rewrite clamp_inside by done. fold rest. unfold lf, crlf.
  assert (forall c k : ascii, c <> k -> Ascii.eqb c k = false /\ Ascii.eqb k c = false)
    as Hneq by (intros c k Hck; split; apply Ascii.eqb_neq; congruence).
  destruct rest as [|c0 rest']; [done|].
  destruct (Ascii.eqb_spec c0 Py.LF) as [->|H0].
  - destruct rest'; cbn; repeat f_equal; lia.
  - destruct (Hneq _ _ H0) as [E0 E0']. cbn [Py.startswith]. rewrite ?E0, ?E0'.
    cbn [andb].
    destruct (Ascii.eqb_spec c0 Py.CR) as [->|Hr].
    + destruct rest' as [|c1 tail]; [done|].
      destruct (Ascii.eqb_spec c1 Py.LF) as [->|H1].
      * cbn. repeat f_equal; lia.
      * destruct (Hneq _ _ H1) as [E1 E1']. rewrite ?E1, ?E1'. cbn. by rewrite ?E1'.
    + destruct (Hneq _ _ Hr) as [Er Er']. rewrite ?Er, ?Er'. cbn [andb].
      destruct rest'; cbn [andb]; done.
Qed.

Lemma new_line_is_lf_or_crlf_witness :
  PatternProcessor.process NewLineProcessor Examples.nested 3
  = Ok (Some (Some EndOfLineToken, 1)).
Proof.
  apply (new_line_is_lf_or_crlf Examples.nested 3). vm_compute. split; discriminate.
Defined.

(** X14. For a plain set of characters (no backslash, bracket, caret or
    hyphen in it) and at an offset inside the text, [ConsumingProcessor]
    never fails and never makes a token; it answers when the character
    at the offset is in its set, and then consumes the longest run of
    such characters: every consumed character is in the set and the
    character after them, if there is one, is not. *)
Theorem consuming_is_greedy (re_compile : engine) (toConsume content : string)
  (offset : Z) :
  plain_set toConsume = true ->
  0 <= offset <= Py.len content ->
  let rest := Py.drop (Z.to_nat offset) content in
  let inset := fun c => Py.mem c toConsume in
  match PatternProcessor.process (ConsumingProcessor re_compile toConsume)
          content offset with
  | Ok (Some (tok, consumed)) =>
      tok = None /\ 0 < consumed <= Py.len rest /\
      Py.run inset (Py.take (Z.to_nat consumed) rest) = Z.to_nat consumed /\
      Py.run inset (Py.drop (Z.to_nat consumed) rest) = 0%nat
  | Ok None => Py.run inset rest = 0%nat
  | Raise _ => False
  end.
Proof.
  intros Hplain Hoff rest inset. unfold PatternProcessor.process. simpl.
  unfold reConsuming. rewrite Hplain, clamp_inside by done. fold rest. fold inset.
  pose proof (run_le inset rest) as Hle.
  destruct (0 <? Py.run inset rest)%nat eqn:En; simpl.
  - apply Nat.ltb_lt in En.
    replace (offset + Z.of_nat (Py.run inset rest) - offset)
      with (Z.of_nat (Py.run inset rest)) by lia.
    rewrite Nat2Z.id. unfold Py.len. split_and!; [done|lia|lia| |].
    + apply run_take.
    + apply run_drop.
  - apply Nat.ltb_ge in En. lia.
Qed.

Lemma consuming_is_greedy_witness :
  match PatternProcessor.process (ConsumingProcessor Examples.no_re "abcd")
          Examples.nested 8 with
  | Ok (Some (tok, consumed)) =>
      tok = None /\ 0 < consumed <= Py.len (Py.drop (Z.to_nat 8) Examples.nested) /\
      Py.run (fun c => Py.mem c "abcd")
        (Py.take (Z.to_nat consumed) (Py.drop (Z.to_nat 8) Examples.nested))
      = Z.to_nat consumed /\
      Py.run (fun c => Py.mem c "abcd")
        (Py.drop (Z.to_nat consumed) (Py.drop (Z.to_nat 8) Examples.nested)) = 0%nat
  | Ok None => Py.run (fun c => Py.mem c "abcd") (Py.drop (Z.to_nat 8) Examples.nested) = 0%nat
  | Raise _ => False
  end.
Proof.
  apply (consuming_is_greedy Examples.no_re "abcd" Examples.nested 8); [reflexivity|].
  vm_compute. split; discriminate.
Defined.

(** X15. For a marker that is plain text (no pattern syntax in it) and
    at an offset inside the text, a comment is the marker followed by at
    least one character: the text of the [CommentToken] is what follows
    the marker up to the end of the line, it is not empty and holds no
    line feed, and marker and text are what is consumed. A marker at
    the very end of a line is not a comment. *)
Theorem comment_runs_to_end_of_line (re_compile : engine)
  (commentCharacter content : string) (offset : Z) :
  plain_text commentCharacter = true ->
  0 <= offset <= Py.len content ->
  let rest := Py.drop (Z.to_nat offset) content in
  match PatternProcessor.process (CommentProcessor re_compile commentCharacter)
          content offset with
  | Ok (Some (tok, consumed)) =>
      exists text,
        tok = Some (CommentToken text) /\ text <> EmptyString /\
        Py.count Py.LF text = 0 /\
        Py.take (Z.to_nat consumed) rest = commentCharacter +:+ text /\
        consumed = Py.len commentCharacter + Py.len text /\
        Py.run not_LF (Py.drop (Z.to_nat consumed) rest) = 0%nat
  | Ok None =>
      Py.startswith commentCharacter rest = false \/
      Py.run not_LF (Py.drop (String.length commentCharacter) rest) = 0%nat
  | Raise _ => False
  end.
Proof.
  intros Hplain Hoff rest. unfold PatternProcessor.process. simpl.
  unfold reComment. rewrite Hplain, clamp_inside by done. fold rest.
  destruct (Py.startswith commentCharacter rest) eqn:Es; simpl; [|by left].
  set (body := Py.drop (String.length commentCharacter) rest).
  destruct (0 <? Py.run not_LF body)%nat eqn:En; simpl.
  - apply Nat.ltb_lt in En. unfold groups. simpl.
    exists (Py.take (Py.run not_LF body) body).
    pose proof (run_le not_LF body) as Hle.
    assert (String.length (Py.take (Py.run not_LF body) body) = Py.run not_LF body)
      as Hlt by (rewrite length_take_str; lia).
    replace (offset + Py.len commentCharacter + Z.of_nat (Py.run not_LF body) - offset)
      with (Z.of_nat (String.length commentCharacter + Py.run not_LF body))
      by (unfold Py.len; lia).
    rewrite Nat2Z.id. split_and!.
    + done.
    + intros Hnil. rewrite Hnil in Hlt. simpl in Hlt. lia.
    + apply count_run_not_LF.
    + rewrite take_add_str. fold body. by rewrite (startswith_take _ _ Es).
    + unfold Py.len. rewrite Hlt. lia.
    + rewrite <- drop_drop_str. fold body. apply run_drop.
  - apply Nat.ltb_ge in En. right. lia.
Qed.

Lemma comment_runs_to_end_of_line_witness :
  let content := "a# b" +:+ Examples.nl +:+ "c" in
  let rest := Py.drop (Z.to_nat 1) content in
  match PatternProcessor.process (CommentProcessor Examples.no_re "#") content 1 with
  | Ok (Some (tok, consumed)) =>
      exists text,
        tok = Some (CommentToken text) /\ text <> EmptyString /\
        Py.count Py.LF text = 0 /\
        Py.take (Z.to_nat consumed) rest = "#" +:+ text /\
        consumed = Py.len "#" + Py.len text /\
        Py.run not_LF (Py.drop (Z.to_nat consumed) rest) = 0%nat
  | Ok None =>
      Py.startswith "#" rest = false \/
      Py.run not_LF (Py.drop (String.length "#") rest) = 0%nat
  | Raise _ => False
  end.
Proof.
  intros content rest.
  apply (comment_runs_to_end_of_line Examples.no_re "#" content 1); [reflexivity|].
  vm_compute. split; discriminate.
Defined.

(** X16. At an offset inside the text [ClassicScopeProcessor] tries the
    start text first: it answers with a [ScopeStartToken] and the length
    of the start text whenever the text goes on with it, and with a
    [ScopeEndToken] only when it does not. So when the start text is a
    prefix of the end text, no [ScopeEndToken] is ever made. *)
Theorem classic_scope_start_first (startCharacter endCharacter content : string)
  (offset : Z) :
  0 <= offset <= Py.len content ->
  let rest := Py.drop (Z.to_nat offset) content in
  PatternProcessor.process (ClassicScopeProcessor startCharacter endCharacter)
    content offset
  = Ok (if Py.startswith startCharacter rest
        then Some (Some ScopeStartToken, Py.len startCharacter)
        else if Py.startswith endCharacter rest
             then Some (Some ScopeEndToken, Py.len endCharacter)
             else None) /\
  (Py.startswith startCharacter endCharacter = true ->
   forall consumed,
     PatternProcessor.process (ClassicScopeProcessor startCharacter endCharacter)
       content offset
     <> Ok (Some (Some ScopeEndToken, consumed))).
Proof.
  intros Hoff rest.
  assert (PatternProcessor.process (ClassicScopeProcessor startCharacter endCharacter)
            content offset
          = Ok (if Py.startswith startCharacter rest
                then Some (Some ScopeStartToken, Py.len startCharacter)
                else if Py.startswith endCharacter rest
                     then Some (Some ScopeEndToken, Py.len endCharacter)
                     else None)) as Heq.
  { unfold PatternProcessor.process. simpl. unfold reClassicScope.
    rewrite clamp_inside by done. fold rest.
    destruct (Py.startswith startCharacter rest); simpl; [repeat f_equal; lia|].
    destruct (Py.startswith endCharacter rest); simpl; [repeat f_equal; lia|done]. }
  split; [exact Heq|]. intros Hpre consumed. rewrite Heq.
  destruct (Py.startswith startCharacter rest) eqn:Es; [discriminate|].
  destruct (Py.startswith endCharacter rest) eqn:Ee; [|discriminate].
  by rewrite (startswith_trans _ _ _ Hpre Ee) in Es.
Qed.

Lemma classic_scope_start_first_witness :
  PatternProcessor.process (ClassicScopeProcessor "{" "}") "a{b}" 3
  = Ok (Some (Some ScopeEndToken, 1)).
Proof.
  apply (classic_scope_start_first "{" "}" "a{b}" 3). vm_compute. split; discriminate.
Defined.

(** ** More on merged value processors *)



(** X17. A merge [A | B] changes nothing but the list and the dictionary
    of [A]: every object is kept as it is, and an object that shares
    neither with [A] gives the same answers as before, on every text and
    at every offset. The right operand is such an object when it has a
    list and a dictionary of its own. *)
Theorem merge_frame (h h' : ValueProcessor.store) (A B N : nat) (a : ValueProcessor.t) :
  ValueProcessor.objects h !! A = Some a ->
  ValueProcessor.or_ A B h = Some (N, h') ->
  ValueProcessor.keeps_objects h h' /\
  (forall r, r <> ValueProcessor.types a ->
     ValueProcessor.lists h' !! r = ValueProcessor.lists h !! r) /\
  (forall r, r <> ValueProcessor.constructors a ->
     ValueProcessor.dicts h' !! r = ValueProcessor.dicts h !! r) /\
  (forall X x re_match content offset,
     ValueProcessor.objects h !! X = Some x ->
     ValueProcessor.types x <> ValueProcessor.types a ->
     ValueProcessor.constructors x <> ValueProcessor.constructors a ->
     ValueProcessor.process re_match h' X content offset
     = ValueProcessor.process re_match h X content offset).
Proof.
  intros Ha. unfold ValueProcessor.or_. rewrite Ha. simpl.
  destruct (ValueProcessor.objects h !! B) as [b|]; [|done]. simpl.
  destruct (ValueProcessor.lists h !! ValueProcessor.types a) as [ts|]; [|done]. simpl.
  destruct (ValueProcessor.lists h !! ValueProcessor.types b) as [to|]; [|done]. simpl.
  destruct (ValueProcessor.dicts h !! ValueProcessor.constructors a) as [cs|]; [|done].
  simpl.
  destruct (ValueProcessor.dicts h !! ValueProcessor.constructors b) as [co|]; [|done].
  simpl. intros; simplify_eq.
  assert (ValueProcessor.keeps_objects h
            {| ValueProcessor.objects :=
                 <[fresh (dom (ValueProcessor.objects h)) :=
                     {| ValueProcessor.regex :=
                          ValueProcessor.compile
                            (ValueProcessor.pattern (ValueProcessor.regex a) +:+ "|"
                             +:+ ValueProcessor.pattern (ValueProcessor.regex b))
                            (ValueProcessor.flags (ValueProcessor.regex a));
                        ValueProcessor.types := ValueProcessor.types a;
                        ValueProcessor.constructors := ValueProcessor.constructors a |}]>
                   (ValueProcessor.objects h);
               ValueProcessor.lists :=
                 <[ValueProcessor.types a := ts ++ to]> (ValueProcessor.lists h);
               ValueProcessor.dicts :=
                 <[ValueProcessor.constructors a := co ∪ cs]> (ValueProcessor.dicts h) |})
    as Hkeep.
  { intros l x Hl. simpl. rewrite lookup_insert_ne; [done|].
    intros <-. by rewrite MergeFacts.fresh_object in Hl. }
  split_and!; [done|..].
  - intros r Hr. simpl. by rewrite lookup_insert_ne.
  - intros r Hr. simpl. by rewrite lookup_insert_ne.
  - intros X x re_match content offset HX Ht Hc.
    apply MergeFacts.process_store with x; [by apply Hkeep|done|..]; simpl.
    + by rewrite lookup_insert_ne.
    + by rewrite lookup_insert_ne.
Qed.

Lemma merge_frame_witness :
  exists N h',
    ValueProcessor.or_ ValueExamples.number.1 ValueExamples.word.1 ValueExamples.built
    = Some (N, h') /\
    ValueProcessor.keeps_objects ValueExamples.built h'.
Proof.
  destruct (ValueProcessor.or_ ValueExamples.number.1 ValueExamples.word.1
              ValueExamples.built) as [[N h']|] eqn:E; [|vm_compute in E; discriminate].
  exists N, h'. split; [done|].
  destruct (ValueProcessor.objects ValueExamples.built !! ValueExamples.number.1)
    as [a|] eqn:Ea; [|vm_compute in Ea; discriminate].
  apply (merge_frame ValueExamples.built h' ValueExamples.number.1
           ValueExamples.word.1 N a Ea E).
Defined.



(** X19. What a merge [A | B] does to the answers of [A] itself: for a
    match whose group belongs to a type of [A], the processor [A]
    reports the same type after the merge, and the same converted value
    unless [B] brought a converter for that type, which then replaces
    the one [A] had. *)
Theorem merge_overrides_left_converters (h h' : ValueProcessor.store) (A B N : nat)
  (a b : ValueProcessor.t) (tA : list pytype) (cB : gmap pytype callable)
  (m : Match) (idx : Z) (tp : pytype) :
  ValueProcessor.objects h !! A = Some a ->
  ValueProcessor.objects h !! B = Some b ->
  ValueProcessor.or_ A B h = Some (N, h') ->
  ValueProcessor.lists h !! ValueProcessor.types a = Some tA ->
  ValueProcessor.dicts h !! ValueProcessor.constructors b = Some cB ->
  lastindex m = Some idx -> 1 <= idx -> tA !! Z.to_nat (idx - 1) = Some tp ->
  ValueProcessor.token_of h' a m
  = match cB !! tp, group m idx with
    | Some f, Some text => Ok (Some (ValueToken tp (Converted f text)))
    | _, _ => ValueProcessor.token_of h a m
    end.
Proof.
  intros Ha Hb Hor HtA HcB Hm Hidx Htp. revert Hor. unfold ValueProcessor.or_.
  rewrite Ha. simpl. rewrite Hb. simpl. rewrite HtA. simpl.
  destruct (ValueProcessor.lists h !! ValueProcessor.types b) as [to|]; [|done]. simpl.
  destruct (ValueProcessor.dicts h !! ValueProcessor.constructors a) as [cs|] eqn:Hcs;
    [|done].
  simpl. rewrite HcB. simpl. intros; simplify_eq.
  unfold ValueProcessor.token_of. simpl. rewrite Hm, HtA, Hcs, !lookup_insert_eq.
  unfold ValueProcessor.getitem.
  destruct (idx - 1 <? 0) eqn:Eneg; [lia|].
  rewrite lookup_app_l by (by eapply lookup_lt_Some).
  rewrite Htp.
  destruct (cB !! tp) as [f|] eqn:Ef.
  - rewrite (lookup_union_Some_l cB cs tp f Ef). simpl.
    by destruct (group m idx).
  - by rewrite (lookup_union_r cB cs tp Ef).
Qed.

Lemma merge_overrides_left_converters_witness :
  let m := {| m_end := 2; lastindex := Some 2; group := groups "42" 2 "42" |} in
  match ValueProcessor.or_ ValueExamples.number.1 ValueExamples.boolean.1
          ValueExamples.built,
        ValueProcessor.objects ValueExamples.built !! ValueExamples.number.1 with
  | Some (N, h'), Some a =>
      ValueProcessor.token_of h' a m = ValueProcessor.token_of ValueExamples.built a m
  | _, _ => False
  end.
Proof.
  intros m.
  destruct (ValueProcessor.or_ ValueExamples.number.1 ValueExamples.boolean.1
              ValueExamples.built) as [[N h']|] eqn:E; [|vm_compute in E; discriminate].
  destruct (ValueProcessor.objects ValueExamples.built !! ValueExamples.number.1)
    as [a|] eqn:Ea; [|vm_compute in Ea; discriminate].
  destruct (ValueProcessor.objects ValueExamples.built !! ValueExamples.boolean.1)
    as [b|] eqn:Eb; [|vm_compute in Eb; discriminate].
  etransitivity;
    [apply (merge_overrides_left_converters ValueExamples.built h'
              ValueExamples.number.1 ValueExamples.boolean.1 N a b
              ["float"; "int"]
              {[ "bool" := Function "lambda x: x.lower() == 'true'" ]}
              m 2 "int" Ea Eb E)|].
  - vm_compute in Ea. simplify_eq. vm_compute. reflexivity.
  - vm_compute in Eb. simplify_eq. vm_compute. reflexivity.
  - reflexivity.
  - lia.
  - reflexivity.
  - by rewrite lookup_singleton_ne.
Defined.

(** ** The token list of a result *)

Lemma emitted_app (a b : emission) : emitted (a ++ b) = emitted a ++ emitted b.
Proof. unfold emitted. apply omap_app. Qed.

Lemma apply_pairs_tokens (res : emission) (pos : Z) (r : TokenizerResult.t) :
  TokenizerResult.tokens (Tokenizer.apply_pairs res pos r).2
  = TokenizerResult.tokens r ++ emitted res.
Proof.
  revert pos r. induction res as [|[[tok|] c] res IH]; intros pos r.
  - simpl. by rewrite app_nil_r.
  - simpl. rewrite IH. simpl. by rewrite <- app_assoc.
  - simpl. by rewrite IH.
Qed.

Lemma fold_addToken_tokens (toks : list Token) (o : Z) (r : TokenizerResult.t) :
  TokenizerResult.tokens (fold_left (fun r tok => TokenizerResult.addToken r tok o) toks r)
  = TokenizerResult.tokens r ++ toks.
Proof.
  revert r. induction toks as [|tok toks IH]; intros r; simpl.
  - by rewrite app_nil_r.
  - rewrite IH. simpl. by rewrite <- app_assoc.
Qed.

Lemma finalize_tokens (tps : list TokenProcessor) (o : Z) (r r' : TokenizerResult.t)
  (nid nid' : nat) :
  Tokenizer.finalize tps o r nid = (r', nid') ->
  exists closing,
    TokenizerResult.tokens r' = TokenizerResult.tokens r ++ closing /\
    count_class ScopeEndToken closing = length closing /\
    length closing
    = sum_list (map (fun tp => match tp with
                               | PatternBacked _ => 0%nat
                               | IndentScope p => Z.to_nat (IndentScopeProcessor.level p)
                               end) tps).
Proof.
  revert r nid. induction tps as [|tp tps IH]; intros r nid; simpl.
  - intros; simplify_eq. exists []. by rewrite app_nil_r.
  - destruct (finalizer tp nid) as [toks n1] eqn:Ef. intros Hf.
    apply IH in Hf as (closing & Ht & Hc & Hl).
    rewrite fold_addToken_tokens in Ht.
    exists (toks ++ closing). rewrite app_assoc. split; [done|].
    assert (count_class ScopeEndToken toks = length toks /\
            length toks = match tp with
                          | PatternBacked _ => 0%nat
                          | IndentScope p => Z.to_nat (IndentScopeProcessor.level p)
                          end) as [Hc1 Hl1].
    { destruct tp as [p|p]; simpl in Ef; [by simplify_eq|].
      pose proof (finalizer_level_tokens p nid) as Hfin. rewrite Ef in Hfin.
      simpl in Hfin. by destruct Hfin as (? & ?). }
    unfold count_class in *. rewrite filter_app, !length_app. lia.
Qed.

Section TokenListFacts.
Context (source : string).
Import Tokenizer.

Lemma round_tokens st st' b :
  TokenizerResult.tokens (result st) = flat_map (fun r => emitted r.2) (rounds st) ->
  round source st = Ok (b, st') ->
  TokenizerResult.tokens (result st') = flat_map (fun r => emitted r.2) (rounds st').
Proof.
  intros Hinv. unfold round.
  destruct (scan _ source _ _) as [[[tps nid] [pairs|]]|]; [| |discriminate].
  - destruct (apply_pairs pairs (pos st) (result st)) as [pos' result'] eqn:Ea.
    intros; simplify_eq. simpl. rewrite flat_map_app. simpl. rewrite app_nil_r.
    rewrite <- Hinv. replace result' with (apply_pairs pairs (pos st) (result st)).2
      by (by rewrite Ea).
    apply apply_pairs_tokens.
  - intros; simplify_eq. done.
Qed.

Lemma loop_tokens fuel st st' :
  TokenizerResult.tokens (result st) = flat_map (fun r => emitted r.2) (rounds st) ->
  loop fuel source st = Some (Ok st') ->
  TokenizerResult.tokens (result st') = flat_map (fun r => emitted r.2) (rounds st').
Proof.
  revert st. induction fuel as [|fuel IH]; intros st Hinv; [done|]. simpl.
  destruct (round source st) as [[[] st1]|] eqn:Er; [| |done].
  - apply IH. eapply round_tokens; eauto.
  - intros; simplify_eq. eapply round_tokens; eauto.
Qed.

End TokenListFacts.

(** X20. The token list of a result is in the order of the text: first
    the tokens of the pairs that were applied, round after round and
    pair after pair, then the [ScopeEndToken]s of the finalizers, as
    many as the levels that the indent processors end with, and last one
    [EndOfFileToken]. *)
Theorem tokens_in_text_order (fuel : nat) (tps : list TokenProcessor) (source : string)
  (st : Tokenizer.state) :
  Tokenizer.run fuel tps source = Some (Ok st) ->
  exists closing eof,
    TokenizerResult.tokens (Tokenizer.result st)
    = flat_map (fun r => emitted r.2) (Tokenizer.rounds st) ++ closing ++ [eof] /\
    tok_class eof = EndOfFileToken /\
    count_class ScopeEndToken closing = length closing /\
    length closing
    = sum_list (map (fun tp => match tp with
                               | PatternBacked _ => 0%nat
                               | IndentScope p => Z.to_nat (IndentScopeProcessor.level p)
                               end) (Tokenizer.tokenProcessors st)).
Proof.
  unfold Tokenizer.run.
  destruct (Tokenizer.loop fuel source _) as [[st1|]|] eqn:El; [|done..].
  apply loop_tokens in El; [|done].
  unfold Tokenizer.finish. case_bool_decide; [done|].
  destruct (Tokenizer.finalize _ _ _ _) as [result' nid] eqn:Ef.
  apply finalize_tokens in Ef as (closing & Ht & Hc & Hl).
  intros; simplify_eq. simpl.
  exists closing, {| tok_id := nid; tok_class := EndOfFileToken |}.
  rewrite Ht, El. rewrite <- app_assoc. done.
Qed.

Lemma tokens_in_text_order_witness :
  match Tokenizer.run 20 Examples.processors Examples.nested with
  | Some (Ok st) =>
      exists closing eof,
        TokenizerResult.tokens (Tokenizer.result st)
        = flat_map (fun r => emitted r.2) (Tokenizer.rounds st) ++ closing ++ [eof] /\
        tok_class eof = EndOfFileToken /\
        count_class ScopeEndToken closing = length closing /\
        length closing
        = sum_list (map (fun tp => match tp with
                                   | PatternBacked _ => 0%nat
                                   | IndentScope p =>
                                       Z.to_nat (IndentScopeProcessor.level p)
                                   end) (Tokenizer.tokenProcessors st))
  | _ => False
  end.
Proof.
  destruct (Tokenizer.run 20 Examples.processors Examples.nested) as [[st|e]|] eqn:E;
    [|vm_compute in E; discriminate..].
  apply (tokens_in_text_order 20 Examples.processors Examples.nested st E).
Defined.

(** X21. At offset 0 the pattern of the indent processor is tried at the
    first character, since the position before it does not exist. When
    the text begins with a line feed and an indented line, the line feed
    is counted into the level: every pair carries the width of the
    indentation plus one. *)
Theorem indent_at_text_start (self self' : IndentScopeProcessor.t) (content : string)
  (nid nid' : nat) (pairs : emission) :
  IndentScopeProcessor.process self content 0 nid = Ok (pairs, self', nid') ->
  pairs <> [] ->
  exists rest,
    content = String Py.LF rest /\ rest <> EmptyString /\
    Forall (fun pc => pc.2 = if (indent_width rest =? 0)%nat then 0
                             else Z.of_nat (indent_width rest) + 1) pairs.
Proof.
  unfold IndentScopeProcessor.process.
  destruct (IndentScopeProcessor.reScope content (0 - 1)) as [res|] eqn:Em;
    [|by intros; simplify_eq].
  destruct (IndentScopeProcessor.lock self 0 res) as [[newLevel self1]|] eqn:El;
    [|discriminate].
  apply lock_level in El. intros Hy _. apply yields_level in Hy.
  unfold IndentScopeProcessor.reScope in Em.
  assert (Py.clamp content (0 - 1) = 0) as Hc
    by (pose proof (len_nonneg content); unfold Py.clamp; lia).
  rewrite Hc in Em. simpl Py.drop in Em.
  destruct content as [|c0 [|c1 tail]]; try discriminate.
  destruct (Ascii.eqb_spec c0 Py.LF) as [->|]; [|discriminate]. simpl in Em.
  exists (String c1 tail). split; [done|]. split; [done|].
  assert (newLevel = if (indent_width (String c1 tail) =? 0)%nat then 0
                     else Z.of_nat (indent_width (String c1 tail)) + 1) as <-; [|done].
  unfold indent_width. simpl Py.run.
  unfold IndentScopeProcessor.is_tab, IndentScopeProcessor.is_space in *.
  destruct (Ascii.eqb_spec c1 Py.TAB) as [->|Ht].
  - simplify_eq. simpl. lia.
  - destruct (Ascii.eqb_spec c1 Py.SPACE) as [->|Hs]; simplify_eq; simpl; lia.
Qed.

Lemma indent_at_text_start_witness :
  exists rest,
    Examples.two_spaces = String Py.LF rest /\ rest <> EmptyString /\
    Forall (fun pc => pc.2 = if (indent_width rest =? 0)%nat then 0
                             else Z.of_nat (indent_width rest) + 1)
      [(Some {| tok_id := 0; tok_class := ScopeStartToken |}, 3)].
Proof.
  apply (indent_at_text_start (IndentScopeProcessor.init false)
           (IndentScopeProcessor.set_level
              (IndentScopeProcessor.set_mode (IndentScopeProcessor.init false)
                 (Some 2) 3) 3)
           Examples.two_spaces 0 1).
  - vm_compute. reflexivity.
  - discriminate.
Defined.

(** ** Token classes *)

(** X22. [item in C] asks for the exact class: it implies
    [isinstance(item, C)], and the two differ exactly for [C = Token],
    which has no direct instance among the tokens made here, and for an
    [EndOfFileToken] asked against [EndOfLineToken], its base class. *)
Theorem contains_is_exact_class (c : TokenMetaClass.t) (item : Token) :
  (TokenMetaClass.contains c item = true -> TokenMetaClass.isinstance item c = true) /\
  (TokenMetaClass.isinstance item c = true /\ TokenMetaClass.contains c item = false <->
   c = TokenMetaClass.Base \/
   (c = TokenMetaClass.EndOfLine /\ tok_class item = EndOfFileToken)).
Proof.
  destruct item as [id cls].
  unfold TokenMetaClass.contains, TokenMetaClass.isinstance, TokenMetaClass.type.
  cbn [tok_class]. split.
  - intros Hc. apply bool_decide_eq_true in Hc as ->.
    apply bool_decide_eq_true. unfold TokenMetaClass.mro. apply list_elem_of_here.
  - rewrite bool_decide_eq_true, bool_decide_eq_false.
    destruct cls, c; unfold TokenMetaClass.mro, TokenMetaClass.base;
      rewrite ?elem_of_cons, ?elem_of_nil; intuition congruence.
Qed.
